(** * MLLP delivery pipeline: a shallow embedding of [mllp_genesis.py]

    The development follows the layout of the Python module: the frame
    codec ([frame_message], [extract_frames]), the structural validator
    ([basic_validate_edifact_bytes]), the transport client ([mllp_send]),
    the retrying sender ([send_one_file]) and the directory-backed queue
    ([move_to_ready], [process_ready_queue]).  The definitions come
    first, the properties after them, and concrete runs at the end.

    Modelling conventions.
    - [bytes] and [bytearray] values are [list byte].
    - [str] values are [string], texts over the 256 characters of
      [ascii]; the order is the code-point order, as for Python's
      [sorted].  What turns the bytes of a file into text, and what
      [int] makes of a text, are parameters of the model.
    - A function that mutates its argument returns the new value next to
      its result.
    - Functions with effects are computations over a [world]: the file
      system, the answers of the network and of the clocks, and a log of
      what the process did.  A raised exception is a result of the
      computation. *)

From Stdlib Require Import Strings.Byte Strings.Ascii Strings.String ZArith.
From stdpp Require Import base list strings pretty gmap sorting.
From Equations Require Import Equations.

(** ** Bytes *)

#[global] Instance byte_eq_decision : EqDecision byte := Byte.byte_eq_dec.

(** [buffer.index(sub)]: the lowest offset at which [sub] occurs. *)
Fixpoint find_sub (sub buf : list byte) : option nat :=
  if bool_decide (sub `prefix_of` buf) then Some 0
  else match buf with
       | [] => None
       | _ :: rest => S <$> find_sub sub rest
       end.

(** [buffer.index(sub, start)] for [start >= 0]; [None] stands for
    [ValueError].  A start beyond the end finds nothing, not even the
    empty sequence. *)
Definition bytes_index (buf sub : list byte) (start : nat) : option nat :=
  if decide (start ≤ length buf)
  then (λ i, start + i) <$> find_sub sub (drop start buf)
  else None.

(** [buffer[lo:hi]] for non-negative bounds. *)
Definition slice (buf : list byte) (lo hi : nat) : list byte :=
  take (hi - lo) (drop lo buf).

(** ** Frame codec *)

Definition START_BLOCK : list byte := [x0b].
Definition END_BLOCK : list byte := [x1c; x0d].

Definition frame_message (payload : list byte) : list byte :=
  START_BLOCK ++ payload ++ END_BLOCK.

Definition inspect {A} (a : A) : {b : A | a = b} := exist _ a eq_refl.

Lemma find_sub_bound sub buf i :
  find_sub sub buf = Some i → i + length sub ≤ length buf.
Proof.
  revert i. induction buf as [|b buf IH]; intros i; simpl.
  - case_bool_decide as Hp; [|done].
    intros [= <-]. apply prefix_length in Hp. simpl in *. lia.
  - case_bool_decide as Hp.
    + intros [= <-]. apply prefix_length in Hp. simpl in *. lia.
    + destruct (find_sub sub buf) as [j|] eqn:Hj; [|done].
      intros [= <-]. specialize (IH _ eq_refl). lia.
Qed.

Lemma index_bound buf sub start i :
  bytes_index buf sub start = Some i → start ≤ i ∧ i + length sub ≤ length buf.
Proof.
  unfold bytes_index. case_decide; [|done].
  destruct (find_sub _ _) as [j|] eqn:Hj; [|done].
  intros [= <-]. apply find_sub_bound in Hj. rewrite length_drop in Hj. lia.
Qed.

(** The [while True] loop of [extract_frames], with the list of frames
    collected so far and the buffer as loop state.  Every iteration that
    does not leave the loop deletes at least the two bytes of an end
    marker, which is the termination measure. *)
Equations? extract_loop (frames : list (list byte)) (buffer : list byte)
  : list (list byte) * list byte by wf (length buffer) lt :=
extract_loop frames buffer with inspect (bytes_index buffer START_BLOCK 0) := {
  | exist _ None _ => (frames, buffer)
  | exist _ (Some start) _ with inspect (bytes_index buffer END_BLOCK (start + 1)) := {
    | exist _ None _ => (frames, buffer)
    | exist _ (Some end_) Hend =>
        extract_loop (frames ++ [slice buffer (start + 1) end_])
                     (drop (end_ + length END_BLOCK) buffer) } }.
Proof.
  apply index_bound in Hend. simpl in *. rewrite length_drop. lia.
Qed.

(** [extract_frames(buffer)]: the returned frames and the buffer as the
    call leaves it. *)
Definition extract_frames (buffer : list byte) : list (list byte) * list byte :=
  extract_loop [] buffer.

(** [sub not in buf], for both markers: the payload has no marker-byte
    collision. *)
Definition marker_free (payload : list byte) : Prop :=
  find_sub START_BLOCK payload = None ∧ find_sub END_BLOCK payload = None.


(** ** Text *)

(** [s.startswith(p)]. *)
Definition startswith (s p : string) : bool := String.prefix p s.
Arguments startswith : simpl never.

(** [sub in s]. *)
Fixpoint contains (sub s : string) : bool :=
  startswith s sub ||
  match s with
  | EmptyString => false
  | String _ rest => contains sub rest
  end.

(** [s.endswith(p)]: some suffix of [s] is [p]. *)
Fixpoint endswith (s p : string) : bool :=
  String.eqb s p ||
  match s with
  | EmptyString => false
  | String _ rest => endswith rest p
  end.

(** [s.lower()] on the characters a [string] holds: the upper-case
    letters of ASCII and of Latin-1 move 32 code points up. *)
Definition lower_char (c : ascii) : ascii :=
  let n := nat_of_ascii c in
  if bool_decide (65 ≤ n ≤ 90 ∨ (192 ≤ n ≤ 222 ∧ n ≠ 215))
  then ascii_of_nat (n + 32) else c.

Fixpoint lower (s : string) : string :=
  match s with
  | EmptyString => EmptyString
  | String c rest => String (lower_char c) (lower rest)
  end.

(** The line boundaries of [str.splitlines] among these characters:
    LF, VT, FF, CR, FS, GS, RS and NEL. *)
Definition is_linebreak (c : ascii) : bool :=
  bool_decide (nat_of_ascii c ∈ [10; 11; 12; 13; 28; 29; 30; 133]).

(** [s.splitlines()].  [after_cr] records that the previous character was
    a carriage return, so that a line feed right after it belongs to the
    same boundary; [cur] is the current line, reversed. *)
Fixpoint splitlines_go (after_cr : bool) (cur : string) (s : string) : list string :=
  match s with
  | EmptyString =>
      match cur with EmptyString => [] | _ => [String.rev cur] end
  | String c rest =>
      if after_cr && bool_decide (c = "010"%char)
      then splitlines_go false cur rest
      else if is_linebreak c
      then String.rev cur :: splitlines_go (bool_decide (c = "013"%char)) EmptyString rest
      else splitlines_go false (String c cur) rest
  end.

Definition splitlines (s : string) : list string :=
  splitlines_go false EmptyString s.

(** [s.split(sep)] for a separator of one character. *)
Fixpoint split_go (sep : ascii) (cur : string) (s : string) : list string :=
  match s with
  | EmptyString => [String.rev cur]
  | String c rest =>
      if bool_decide (c = sep)
      then String.rev cur :: split_go sep EmptyString rest
      else split_go sep (String c cur) rest
  end.

Definition str_split (s : string) (sep : ascii) : list string :=
  split_go sep EmptyString s.

(** [next(i for i, x in enumerate(l) if p x)]; [None] stands for
    [StopIteration]. *)
Fixpoint first_index {A} (p : A → bool) (l : list A) : option nat :=
  match l with
  | [] => None
  | x :: rest => if p x then Some 0 else S <$> first_index p rest
  end.

(** [str(n)] for an [int]. *)
Definition str_of_int (n : Z) : string := pretty n.


(** ** Python values and dictionaries *)

Inductive pyval :=
| PNone
| PInt (n : Z)
| PStr (s : string).

(** A [dict], in insertion order. *)
Definition dict : Type := list (string * pyval).

(** [d[k] = v]: an existing key keeps its place, a new one goes last. *)
Fixpoint dict_set (k : string) (v : pyval) (d : dict) : dict :=
  match d with
  | [] => [(k, v)]
  | (k', v') :: rest =>
      if bool_decide (k = k') then (k, v) :: rest
      else (k', v') :: dict_set k v rest
  end.

(** [d.get(k)]. *)
Fixpoint dict_get (k : string) (d : dict) : option pyval :=
  match d with
  | [] => None
  | (k', v') :: rest => if bool_decide (k = k') then Some v' else dict_get k rest
  end.

(** [d.update(e)]. *)
Definition dict_update (d e : dict) : dict :=
  foldl (λ acc kv, dict_set kv.1 kv.2 acc) d e.

(** [range(lo, hi)]. *)
Definition py_range (lo hi : Z) : list Z :=
  (λ i, (lo + Z.of_nat i)%Z) <$> seq 0 (Z.to_nat (hi - lo)).

(** ** Exceptions

    Only exceptions derived from [Exception] are modelled, so a handler
    [except Exception] catches every one of them; [socket.timeout] is the
    one class a handler of the source singles out. *)
Inductive exn :=
| SocketTimeout
| OSError (what : string)
| FileNotFoundError (path : string)
| IsADirectoryError (path : string)
| FileExistsError (path : string)
| SameFileError (path : string)
| ShutilError (what : string).

(** [str(e)]. *)
Definition str_of_exn (e : exn) : string :=
  match e with
  | SocketTimeout => "timed out"
  | OSError what => what
  | FileNotFoundError path => "[Errno 2] No such file or directory: '" +:+ path +:+ "'"
  | IsADirectoryError path => "[Errno 21] Is a directory: '" +:+ path +:+ "'"
  | FileExistsError path => path
  | SameFileError path => "'" +:+ path +:+ "' and '" +:+ path +:+ "' are the same file"
  | ShutilError what => what
  end.

Inductive result (A : Type) :=
| Ret (a : A)
| Raise (e : exn).
Arguments Ret {A} a.
Arguments Raise {A} e.

(** ** The world: files, peers, clocks

    The file system is a finite map from absolute, normalised paths to
    nodes; two paths name the same file exactly when they are equal.
    The five pipeline directories exist from the moment the module is
    loaded (lines 32-36), so the parent of every path the pipeline writes
    is there, and only the entries below them are recorded. *)
Inductive node :=
| File (content : list byte)
| Dir.

#[global] Instance node_eq_decision : EqDecision node.
Proof. solve_decision. Defined.

Inductive event :=
| EvConnect (host : string) (port : Z)
| EvSendall (data : list byte)
| EvClose
| EvSleep (seconds : Z).

Record world := World {
  fs : gmap string node;
  connections : nat;      (* calls of socket.create_connection so far *)
  utc_reads : nat;        (* calls of datetime.utcnow so far *)
  log : list event
}.

Definition set_fs (m : gmap string node) (w : world) : world :=
  World m (connections w) (utc_reads w) (log w).
Definition add_log (evs : list event) (w : world) : world :=
  World (fs w) (connections w) (utc_reads w) (log w ++ evs).

(** Computations: state passing, with a raised exception as a result.
    What was done before the exception stays done. *)
Definition M (A : Type) : Type := world → result A * world.

Definition ret {A} (a : A) : M A := λ w, (Ret a, w).
Definition raise {A} (e : exn) : M A := λ w, (Raise e, w).
Definition bind {A B} (m : M A) (k : A → M B) : M B :=
  λ w, match m w with
       | (Ret a, w') => k a w'
       | (Raise e, w') => (Raise e, w')
       end.
(** [try: m  except Exception as e: h e]. *)
Definition catch {A} (m : M A) (h : exn → M A) : M A :=
  λ w, match m w with
       | (Ret a, w') => (Ret a, w')
       | (Raise e, w') => h e w'
       end.

Notation "'let!' x := m 'in' k" := (bind m (λ x, k))
  (at level 10, x pattern, m at level 100, k at level 200).

(** [for x in l: body x]. *)
Fixpoint for_each {A} (l : list A) (body : A → M unit) : M unit :=
  match l with
  | [] => ret tt
  | x :: rest => let! _ := body x in for_each rest body
  end.

(** *** Paths *)

(** [posixpath.join(a, b)]. *)
Definition os_path_join (a b : string) : string :=
  if startswith b "/" then b
  else if bool_decide (a = "") || endswith a "/" then a +:+ b
  else a +:+ "/" +:+ b.

(** [posixpath.basename(p)]: what follows the last slash. *)
Fixpoint os_path_basename (p : string) : string :=
  match p with
  | EmptyString => EmptyString
  | String c rest =>
      if contains "/" rest then os_path_basename rest
      else if bool_decide (c = "/"%char) then rest
      else p
  end.

(** *** File-system calls *)

Definition os_path_exists (p : string) : M bool :=
  λ w, (Ret (bool_decide (is_Some (fs w !! p))), w).

Definition os_path_isfile (p : string) : M bool :=
  λ w, (Ret (match fs w !! p with Some (File _) => true | _ => false end), w).

Definition os_path_isdir (p : string) : M bool :=
  λ w, (Ret (match fs w !! p with Some Dir => true | _ => false end), w).

(** [open(p, "rb").read()]. *)
Definition read_file (p : string) : M (list byte) :=
  λ w, match fs w !! p with
       | Some (File content) => (Ret content, w)
       | Some Dir => (Raise (IsADirectoryError p), w)
       | None => (Raise (FileNotFoundError p), w)
       end.

(** [open(p, "w")] followed by writing [data]: creates or truncates. *)
Definition write_file (p : string) (data : list byte) : M unit :=
  λ w, match fs w !! p with
       | Some Dir => (Raise (IsADirectoryError p), w)
       | _ => (Ret tt, set_fs (<[p := File data]> (fs w)) w)
       end.

(** [os.rename(src, dst)] for a regular file [src] and a [dst] that is
    not a directory: an existing [dst] is replaced. *)
Definition os_rename (src dst : string) : M unit :=
  λ w, match fs w !! src with
       | Some (File content) =>
           (Ret tt, set_fs (<[dst := File content]> (delete src (fs w))) w)
       | Some Dir => (Raise (OSError "rename of a directory"), w)
       | None => (Raise (FileNotFoundError src), w)
       end.

(** [shutil.move(src, dst)].  Into an existing directory the source goes
    under its own name, unless that name is taken.  Every source the
    pipeline moves is a regular file it has just tested or written; the
    model does not follow the move of a directory tree. *)
Definition shutil_move (src dst : string) : M unit :=
  let! dst_is_dir := os_path_isdir dst in
  if dst_is_dir then
    let real_dst := os_path_join dst (os_path_basename src) in
    let! taken := os_path_exists real_dst in
    if taken
    then raise (ShutilError ("Destination path '" +:+ real_dst +:+ "' already exists"))
    else os_rename src real_dst
  else os_rename src dst.

(** [shutil.copy2(src, dst)]: the content is copied (the time stamps it
    also copies are not part of the model). *)
Definition shutil_copy2 (src dst : string) : M unit :=
  let! dst_is_dir := os_path_isdir dst in
  let dst := if dst_is_dir then os_path_join dst (os_path_basename src) else dst in
  let! src_there := os_path_exists src in
  let! dst_there := os_path_exists dst in
  if src_there && dst_there && bool_decide (src = dst)
  then raise (SameFileError src)
  else let! content := read_file src in write_file dst content.

(** The names [os.listdir(d)] returns: the entries directly below [d]. *)
Fixpoint strip_prefix (p s : string) : option string :=
  match p, s with
  | EmptyString, _ => Some s
  | String a p', String b s' => if bool_decide (a = b) then strip_prefix p' s' else None
  | String _ _, EmptyString => None
  end.

Definition child_name (d p : string) : option string :=
  match strip_prefix (d +:+ "/") p with
  | Some name =>
      if bool_decide (name = "") || contains "/" name then None else Some name
  | None => None
  end.

Definition os_listdir (d : string) : M (list string) :=
  λ w, (Ret (omap (child_name d) (elements (dom (fs w)))), w).

(** [sorted(names)]: code-point order. *)
Definition sorted (names : list string) : list string :=
  merge_sort String.le names.

(** ** Connection scripts *)

(** What [conn.recv] does once the peer has no more data to give:
    it raises ([SocketTimeout] for a read timeout), or returns the empty
    bytes of a closed connection. *)
Inductive recv_end :=
| RecvRaises (e : exn)
| RecvClosed.

(** How one connection goes: the exception, if any, of each call the
    client makes, the clock readings, and the peer's data. *)
Record script (float : Type) := Script {
  connect_error : option exn;            (* socket.create_connection *)
  default_context_error : option exn;    (* ssl.create_default_context(SERVER_AUTH) *)
  cafile_context_error : option exn;     (* ssl.create_default_context(cafile=...) *)
  handshake_error : option exn;          (* context.wrap_socket *)
  settimeout_error : option exn;         (* conn.settimeout *)
  sendall_error : option exn;            (* conn.sendall *)
  start_time : float;                    (* the first time.time() *)
  chunks : list (list byte * float);     (* each recv result, and the time.time() read after it *)
  ending : recv_end
}.

Arguments Script {float}.
Arguments connect_error {float}.
Arguments default_context_error {float}.
Arguments cafile_context_error {float}.
Arguments handshake_error {float}.
Arguments settimeout_error {float}.
Arguments sendall_error {float}.
Arguments start_time {float}.
Arguments chunks {float}.
Arguments ending {float}.


(** ** JSON values

    What [json.load] returns, and what the order passed to the message
    generator is made of: the Python value of a JSON text.  An object is
    a [dict] in the order of its keys. *)
#[warnings="-register-all"] Inductive jval (float : Type) :=
| JNull
| JBool (b : bool)
| JInt (n : Z)
| JFloat (f : float)
| JStr (s : string)
| JList (l : list (jval float))
| JDict (d : list (string * jval float)).

Arguments JNull {float}.
Arguments JBool {float} b.
Arguments JInt {float} n.
Arguments JFloat {float} f.
Arguments JStr {float} s.
Arguments JList {float} l.
Arguments JDict {float} d.

(** The exceptions the message generator lets escape: a value without
    the method [get], and a value that cannot be iterated. *)
Inductive gen_error :=
| AttributeError
| TypeError.

(** Sequencing of steps that may raise. *)
Definition or_raise {E A B} (m : E + A) (k : A → E + B) : E + B :=
  match m with
  | inl e => inl e
  | inr a => k a
  end.

Notation "'let?' x := m 'in' k" := (or_raise m (λ x, k))
  (at level 10, x pattern, m at level 100, k at level 200).

(** The results of [f] on the elements of [l], in order, up to the first
    one that raises. *)
Fixpoint lines_of {E A} (f : A → E + list string) (l : list A) : E + list string :=
  match l with
  | [] => inr []
  | x :: rest =>
      let? first := f x in
      let? others := lines_of f rest in
      inr (first ++ others)
  end.

(** The line feed, and [sep.join(lines)]. *)
Definition LF : string := String "010"%char EmptyString.

Definition str_join (sep : string) (lines : list string) : string :=
  String.concat sep lines.

(** ** Structural validation *)

Section Pipeline.

Set Default Proof Using "Type".

(** [data.decode("utf-8", errors="replace")].  With [errors="replace"]
    decoding never raises, so the [decode_error] branch of the source is
    dead and the decoder is a total function. *)
Variable decode_replace : list byte → string.

(** [int(s)]; [None] stands for [ValueError]. *)
Variable py_int : string → option Z.

Definition mismatch_note (reported_count seg_count : Z) : string :=
  "segment_count_mismatch_reported=" +:+ str_of_int reported_count +:+
  "_actual=" +:+ str_of_int seg_count.

(** The index of the first line starting with [UNH+] and of the first
    line starting with [UNT+] at or after it ([None]: [StopIteration]). *)
Definition unh_unt_idx (parts : list string) : option (nat * nat) :=
  unh_idx ← first_index (λ ln, startswith ln "UNH+") parts;
  unt_idx ← (λ i, unh_idx + i) <$>
             first_index (λ ln, startswith ln "UNT+") (drop unh_idx parts);
  Some (unh_idx, unt_idx).

(** The count the trailer reports: the second [+]-separated field of the
    trailer line, read as an integer ([None]: [IndexError] or
    [ValueError], both swallowed by the inner handler). *)
Definition reported_count (unt_line : string) : option Z :=
  field ← str_split unt_line "+" !! 1;
  py_int field.

(** The count check of lines 157-176: [Some note] when it returns the
    mismatch note, [None] when control falls through to the last line. *)
Definition count_check (txt : string) : option string :=
  let parts := splitlines txt in
  match unh_unt_idx parts with
  | None => None
  | Some (unh_idx, unt_idx) =>
      let seg_count := (Z.of_nat unt_idx - Z.of_nat unh_idx + 1)%Z in
      match parts !! unt_idx with
      | None => None
      | Some unt_line =>
          match reported_count unt_line with
          | None => None
          | Some reported =>
              if bool_decide (Z.abs (reported - seg_count) > 2)%Z
              then Some (mismatch_note reported seg_count)
              else None
          end
      end
  end.

Definition basic_validate_edifact_bytes (data : list byte) : bool * string :=
  let txt := decode_replace data in
  if negb (startswith txt "UNA" || startswith txt "UNB")
  then (false, "missing_UNA_or_UNB")
  else if negb (contains "UNH+" txt) then (false, "missing_UNH")
  else if negb (contains "UNT+" txt) then (false, "missing_UNT")
  else match count_check txt with
       | Some note => (true, note)
       | None => (true, "ok")
       end.

(** The segment count between header and trailer, and the count the
    trailer declares, as [count_check] computes them. *)
Definition actual_count (txt : string) : option Z :=
  '(unh_idx, unt_idx) ← unh_unt_idx (splitlines txt);
  Some (Z.of_nat unt_idx - Z.of_nat unh_idx + 1)%Z.

Definition declared_count (txt : string) : option Z :=
  '(_, unt_idx) ← unh_unt_idx (splitlines txt);
  unt_line ← splitlines txt !! unt_idx;
  reported_count unt_line.

(** ** Transport client *)

(** [float] values ([time.time()] readings and the timeout) with the two
    operations the client uses on them; nothing is assumed about them. *)
Variable float : Type.
Variable float_sub : float → float → float.
Variable float_gt : float → float → bool.

(** The [n]-th connection the process opens behaves as [peer n]. *)
Variable peer : nat → script float.

(** The [n]-th reading of [datetime.utcnow().isoformat()]. *)
Variable utcnow_isoformat_at : nat → string.

(** The receive loop of [mllp_send] (lines 78-90). *)
Fixpoint recv_loop (timeout start : float) (buf : list byte)
    (chunks : list (list byte * float)) (ending : recv_end)
  : result (option (list byte)) :=
  match chunks with
  | [] =>
      match ending with
      | RecvRaises SocketTimeout => Ret None
      | RecvRaises e => Raise e
      | RecvClosed => Ret None
      end
  | (chunk, now) :: rest =>
      match chunk with
      | [] => Ret None
      | _ =>
          let '(frames, buf) := extract_frames (buf ++ chunk) in
          match frames with
          | frame :: _ => Ret (Some frame)
          | [] =>
              if float_gt (float_sub now start) timeout then Ret None
              else recv_loop timeout start buf rest ending
          end
      end
  end.

(** [if cafile:] *)
Definition truthy (s : option string) : bool :=
  match s with
  | None => false
  | Some s => negb (bool_decide (s = ""))
  end.

(** One run of [mllp_send] against a connection script: what it returns
    or raises, and the socket events it causes. *)
Definition mllp_send_on (s : script float) (host : string) (port : Z)
    (payload : list byte) (timeout : float) (tls : bool) (cafile : option string)
  : result (option (list byte)) * list event :=
  match connect_error s with
  | Some _ => (Ret None, [])
  | None =>
      let connected := [EvConnect host port] in
      let context_error :=
        if tls then
          match default_context_error s with
          | Some e => Some e
          | None => if truthy cafile then cafile_context_error s else None
          end
        else None in
      match context_error with
      | Some e => (Raise e, connected)
      | None =>
          match (if tls then handshake_error s else None) with
          | Some _ => (Ret None, connected ++ [EvClose])
          | None =>
              (* try: ... finally: conn.close() *)
              match settimeout_error s with
              | Some e => (Raise e, connected ++ [EvClose])
              | None =>
                  match sendall_error s with
                  | Some e => (Raise e, connected ++ [EvClose])
                  | None =>
                      (recv_loop timeout (start_time s) [] (chunks s) (ending s),
                       connected ++ [EvSendall (frame_message payload); EvClose])
                  end
              end
          end
      end
  end.

Definition mllp_send (host : string) (port : Z) (payload : list byte)
    (timeout : float) (tls : bool) (cafile : option string)
  : M (option (list byte)) :=
  λ w, let '(r, evs) := mllp_send_on (peer (connections w)) host port payload timeout tls cafile in
       (r, World (fs w) (S (connections w)) (utc_reads w) (log w ++ evs)).

(** [time.sleep(seconds)]. *)
Definition time_sleep (seconds : Z) : M unit :=
  λ w, (Ret tt, add_log [EvSleep seconds] w).

(** [datetime.utcnow().isoformat()]. *)
Definition utcnow_isoformat : M string :=
  λ w, (Ret (utcnow_isoformat_at (utc_reads w)),
        World (fs w) (connections w) (S (utc_reads w)) (log w)).

(** ** Delivery with retries *)

(** The body of the [for attempt in range(...)] loop of [send_one_file],
    iterated over the attempt numbers still to come. *)
Fixpoint send_attempts (filepath host : string) (port : Z) (timeout : float)
    (tls : bool) (cafile : option string) (attempts : list Z) (meta : dict)
  : M (bool * dict) :=
  match attempts with
  | [] => ret (false, meta)
  | attempt :: rest =>
      let meta := dict_set "attempts" (PInt attempt) meta in
      let! read := catch (let! payload := read_file filepath in ret (inl payload))
                         (λ e, ret (inr e)) in
      match read with
      | inr e =>
          ret (false, dict_set "error" (PStr ("read_error:" +:+ str_of_exn e)) meta)
      | inl payload =>
          let! resp := mllp_send host port payload timeout tls cafile in
          let! now := utcnow_isoformat in
          let meta := dict_set "sent_at" (PStr now) meta in
          match resp with
          | None =>
              let meta := dict_set "error" (PStr "no_ack_or_timeout") meta in
              let! _ := time_sleep 1 in
              send_attempts filepath host port timeout tls cafile rest meta
          | Some resp =>
              let ack_text := decode_replace resp in
              ret (true, dict_set "ack" (PStr ack_text) meta)
          end
      end
  end.

Definition send_one_file (filepath host : string) (port : Z) (timeout : float)
    (tls : bool) (cafile : option string) (max_attempts : Z)
  : M (bool * dict) :=
  let meta := [("attempts", PInt 0); ("sent_at", PNone); ("ack", PNone); ("error", PNone)] in
  send_attempts filepath host port timeout tls cafile
    (py_range 1 (max_attempts + 1)) meta.

(** ** Pipeline directories *)

(** [os.path.abspath(os.getcwd())] at the time the module is loaded. *)
Variable BASE_DIR : string.

Definition GEN_DIR : string := os_path_join BASE_DIR "generated".
Definition READY_DIR : string := os_path_join BASE_DIR "ready".
Definition SENT_DIR : string := os_path_join BASE_DIR "sent".
Definition FAILED_DIR : string := os_path_join BASE_DIR "failed".
Definition ARCHIVE_DIR : string := os_path_join BASE_DIR "archive".
Definition META_EXT : string := ".meta.json".

(** [json.dump(meta, mf, indent=2)]: the bytes that end up in the file. *)
Variable json_dump : dict → list byte.

(** ** Pipeline state store *)

Definition validate_file (path : string) : M (bool * string) :=
  let! data := read_file path in
  ret (basic_validate_edifact_bytes data).

Definition move_to_ready (path : string) (force : bool) : M (string * string) :=
  let base := os_path_basename path in
  let dest := os_path_join READY_DIR base in
  let! taken := os_path_exists dest in
  if taken && negb force then raise (FileExistsError dest)
  else
    let! _ := shutil_copy2 path dest in
    let! now := utcnow_isoformat in
    let meta := [("moved_at", PStr now); ("src", PStr path)] in
    let meta_path := dest +:+ META_EXT in
    let! _ := write_file meta_path (json_dump meta) in
    ret (dest, meta_path).

Definition write_meta_for_send (path : string) (meta : dict) : M unit :=
  let meta_path := path +:+ META_EXT in
  write_file meta_path (json_dump meta).

(** The body of the [for fname in files] loop of [process_ready_queue]. *)
Definition process_ready_file (host : string) (port : Z) (timeout : float)
    (tls : bool) (cafile : option string) (max_attempts : Z)
    (archive_on_sent : bool) (fname : string) : M unit :=
  let fpath := os_path_join READY_DIR fname in
  let! is_file := os_path_isfile fpath in
  if negb is_file then ret tt
  else
    let meta := [("file", PStr fname); ("attempts", PInt 0); ("sent_at", PNone);
                 ("ack", PNone); ("error", PNone)] in
    let! (ok, prev) := validate_file fpath in
    if negb ok then
      let meta := dict_set "error" (PStr ("validation_failed:" +:+ prev)) meta in
      let! _ := write_meta_for_send fpath meta in
      let dest := os_path_join FAILED_DIR fname in
      let! _ := shutil_move fpath dest in
      catch (let! there := os_path_exists (fpath +:+ META_EXT) in
             if there then shutil_move (fpath +:+ META_EXT) (dest +:+ META_EXT)
             else ret tt)
            (λ _, ret tt)
    else
      let! (success, send_meta) :=
        send_one_file fpath host port timeout tls cafile max_attempts in
      let meta := dict_update meta send_meta in
      let! _ := write_meta_for_send fpath meta in
      if success then
        let dest := os_path_join SENT_DIR fname in
        let! _ := shutil_move fpath dest in
        let! _ := catch (shutil_move (fpath +:+ META_EXT) (dest +:+ META_EXT))
                        (λ _, ret tt) in
        if archive_on_sent then
          catch (let! _ := shutil_copy2 dest (os_path_join ARCHIVE_DIR fname) in
                 let! there := os_path_exists (dest +:+ META_EXT) in
                 if there
                 then shutil_copy2 (dest +:+ META_EXT)
                                   (os_path_join ARCHIVE_DIR (fname +:+ META_EXT))
                 else ret tt)
                (λ _, ret tt)
        else ret tt
      else
        let dest := os_path_join FAILED_DIR fname in
        let! _ := shutil_move fpath dest in
        catch (shutil_move (fpath +:+ META_EXT) (dest +:+ META_EXT))
              (λ _, ret tt).

(** The list the loop runs over (line 230): the filter's second disjunct
    is the constant [True]. *)
Definition ready_snapshot (names : list string) : list string :=
  sorted (filter (λ f, endswith (lower f) ".edi" || true) names).

Definition process_ready_queue (host : string) (port : Z) (timeout : float)
    (tls : bool) (cafile : option string) (max_attempts : Z)
    (archive_on_sent : bool) : M unit :=
  let! names := os_listdir READY_DIR in
  let files := ready_snapshot names in
  for_each files
    (process_ready_file host port timeout tls cafile max_attempts archive_on_sent).

(** ** Message generation *)

(** [str(v)] of a float, a list or a dict, as an f-string renders it. *)
Variable py_str_other : jval float → string.

(** Whether a float is zero, for its truth value. *)
Variable float_is_zero : float → bool.

(** [float(n)] and [float(s)]; [None] stands for the exception
    ([OverflowError], [ValueError]). *)
Variable float_of_int : Z → option float.
Variable float_of_str : string → option float.

Variable float_add : float → float → float.
Variable float_mul : float → float → float.

(** The float the integer [0] becomes when a float is added to it. *)
Variable float_zero : float.

(** [f"{x:.2f}"] for a float. *)
Variable format_2f : float → string.

(** The [n]-th reading of [datetime.utcnow()], through
    [strftime(fmt)]. *)
Variable utcnow_strftime_at : nat → string → string.

(** The [n]-th draw of [random.randint(lo, hi)]. *)
Variable random_randint_at : nat → Z → Z → Z.

(** [text.encode("utf-8")]. *)
Variable encode_utf8 : string → list byte.

(** [datetime.utcnow().strftime(fmt)]. *)
Definition utcnow_strftime (fmt : string) : M string :=
  λ w, (Ret (utcnow_strftime_at (utc_reads w) fmt),
        World (fs w) (connections w) (S (utc_reads w)) (log w)).

(** [d.get(key)] and [d.get(key, default)] on a dict. *)
Fixpoint jdict_get (key : string) (d : list (string * jval float)) : option (jval float) :=
  match d with
  | [] => None
  | (k, v) :: rest => if bool_decide (key = k) then Some v else jdict_get key rest
  end.

Definition jdict_get_or (d : list (string * jval float)) (key : string)
    (fallback : jval float) : jval float :=
  default fallback (jdict_get key d).

(** [v.get(key, default)] on any value: only a dict has the method. *)
Definition py_get (v : jval float) (key : string) (fallback : jval float)
  : gen_error + jval float :=
  match v with
  | JDict d => inr (jdict_get_or d key fallback)
  | _ => inl AttributeError
  end.

(** The elements [for x in v] runs over: those of a list, the keys of a
    dict, the characters of a string. *)
Definition py_iter (v : jval float) : gen_error + list (jval float) :=
  match v with
  | JList l => inr l
  | JDict d => inr (JStr <$> d.*1)
  | JStr s => inr ((λ c, JStr (String c EmptyString)) <$> list_ascii_of_string s)
  | _ => inl TypeError
  end.

(** [str(v)], which is what an f-string puts in place of [{v}]. *)
Definition py_str (v : jval float) : string :=
  match v with
  | JNull => "None"
  | JBool true => "True"
  | JBool false => "False"
  | JInt n => str_of_int n
  | JStr s => s
  | _ => py_str_other v
  end.

(** [if v:] *)
Definition py_bool (v : jval float) : bool :=
  match v with
  | JNull => false
  | JBool b => b
  | JInt n => negb (bool_decide (n = 0%Z))
  | JFloat f => negb (float_is_zero f)
  | JStr s => negb (bool_decide (s = ""))
  | JList l => negb (bool_decide (l = []))
  | JDict d => negb (bool_decide (d = []))
  end.

(** [float(v)]; [None] stands for the exception. *)
Definition py_float (v : jval float) : option float :=
  match v with
  | JInt n => float_of_int n
  | JBool b => float_of_int (if b then 1 else 0)
  | JFloat f => Some f
  | JStr s => float_of_str s
  | _ => None
  end.

(** The body of the loop over the parties (lines 109-114). *)
Definition party_lines (p : jval float) : gen_error + list string :=
  let? qual := py_get p "qualifier" (JStr "BY") in
  let? pid := py_get p "id" (JStr "UNKNOWN") in
  let? name := py_get p "name" (JStr "") in
  inr (["NAD+" +:+ py_str qual +:+ "+" +:+ py_str pid +:+ "::91'"] ++
       (if py_bool name then ["CTA+IC+" +:+ py_str name +:+ "'"] else [])).

(** The body of the loop over the items (lines 117-125). *)
Definition item_lines (numbered : Z * jval float) : gen_error + list string :=
  let '(idx, item) := numbered in
  let? code := py_get item "product_code" (JStr ("ITEM" +:+ str_of_int idx)) in
  let? desc := py_get item "description" (JStr "") in
  let? qty := py_get item "quantity" (JInt 1) in
  let? price := py_get item "price" (JStr "0.00") in
  inr (["LIN+" +:+ str_of_int idx +:+ "++" +:+ py_str code +:+ ":EN'"] ++
       (if py_bool desc then ["IMD+F++:::" +:+ py_str desc +:+ "'"] else []) ++
       ["QTY+21:" +:+ py_str qty +:+ ":EA'"] ++
       ["PRI+AAA:" +:+ py_str price +:+ ":EA'"]).

(** [enumerate(l, start=1)]. *)
Definition enumerate_from_1 {A} (l : list A) : list (Z * A) :=
  imap (λ i x, (Z.of_nat i + 1, x)%Z) l.

(** The amount of one item (line 129); [None] stands for an exception. *)
Definition item_amount (it : jval float) : option float :=
  match py_get it "quantity" (JInt 0) with
  | inl _ => None
  | inr quantity =>
      q ← py_float quantity;
      match py_get it "price" (JInt 0) with
      | inl _ => None
      | inr price => p ← py_float price; Some (float_mul q p)
      end
  end.

(** The loop of line 128.  The running total is [None] while it is
    still the integer [0]; the result is [None] when an exception
    leaves the loop. *)
Fixpoint sum_amounts (total : option float) (items : list (jval float))
  : option (option float) :=
  match items with
  | [] => Some total
  | it :: rest =>
      match item_amount it with
      | None => None
      | Some amount =>
          sum_amounts (Some (float_add (default float_zero total) amount)) rest
      end
  end.

(** Lines 126-131: any exception sets the total back to [0]. *)
Definition order_total (items : jval float) : option float :=
  match py_iter items with
  | inl _ => None
  | inr l => default None (sum_amounts None l)
  end.

(** [f"{total:.2f}"], for the integer [0] and for a float. *)
Definition total_text (total : option float) : string :=
  match total with
  | None => "0.00"
  | Some f => format_2f f
  end.

(** The lines of the message, from the two clock readings and the
    message reference; [inl] when an exception escapes. *)
Definition edifact_lines (order : list (string * jval float)) (now hhmm : string)
    (msg_ref : jval float) : gen_error + list string :=
  let lines := [] in
  let lines := lines ++ ["UNA:+.? '"] in
  let lines := lines ++
    ["UNB+UNOA:1+" +:+ py_str (jdict_get_or order "sender" (JStr "SENDER")) +:+
     "+" +:+ py_str (jdict_get_or order "receiver" (JStr "RECEIVER")) +:+
     "+" +:+ now +:+ ":" +:+ hhmm +:+ "+" +:+ py_str msg_ref +:+ "'"] in
  let lines := lines ++ ["UNH+" +:+ py_str msg_ref +:+ "+ORDERS:D:96A:UN'"] in
  let lines := lines ++
    ["BGM+220+" +:+ py_str (jdict_get_or order "order_number" (JStr "ORD")) +:+ "+9'"] in
  let od := jdict_get_or order "order_date" (JStr now) in
  let lines := lines ++ ["DTM+137:" +:+ py_str od +:+ ":102'"] in
  let parties := jdict_get_or order "parties" (JList []) in
  let? parties := py_iter parties in
  let? added := lines_of party_lines parties in
  let lines := lines ++ added in
  let items := jdict_get_or order "items" (JList []) in
  let? numbered := py_iter items in
  let? added := lines_of item_lines (enumerate_from_1 numbered) in
  let lines := lines ++ added in
  let total := order_total items in
  let lines := lines ++ ["MOA+79:" +:+ total_text total +:+ "'"] in
  let lines := lines ++
    ["UNT+" +:+ str_of_int (Z.of_nat (length lines) + 1) +:+ "+" +:+ py_str msg_ref +:+ "'"] in
  let lines := lines ++ ["UNZ+1+" +:+ py_str msg_ref +:+ "'"] in
  inr lines.

(** [simple_edifact_from_order(order)], with the number of draws made
    from the random generator so far passed in and out. *)
Definition simple_edifact_from_order (order : list (string * jval float)) (draws : nat)
  : M ((gen_error + string) * nat) :=
  let! now := utcnow_strftime "%Y%m%d" in
  let msg_ref :=
    jdict_get_or order "message_ref"
      (JStr ("MSG" +:+ str_of_int (random_randint_at draws 1000 9999))) in
  let draws := S draws in
  let! hhmm := utcnow_strftime "%H%M" in
  ret (let? lines := edifact_lines order now hhmm msg_ref in
       inr (str_join LF lines +:+ LF),
       draws).


(** ** Listing *)

(** [json.load] on the bytes of a file read as UTF-8 text; [None] stands
    for the exception of the decoder or of the parser. *)
Variable json_load : list byte → option (jval float).

(** The body of the loop of [list_dir_with_meta], iterated over the
    names still to come. *)
Fixpoint list_entries (directory : string) (names : list string)
    (out : list (string * option (jval float)))
  : M (list (string * option (jval float))) :=
  match names with
  | [] => ret out
  | name :: rest =>
      let p := os_path_join directory name in
      let! is_dir := os_path_isdir p in
      if is_dir then list_entries directory rest out
      else
        let meta_path := p +:+ META_EXT in
        let! there := os_path_exists meta_path in
        let! meta :=
          if there then
            let! loaded := catch (let! data := read_file meta_path in ret (json_load data))
                                 (λ _, ret None) in
            ret (Some (default (JDict [("_meta_error", JStr "failed_to_load")]) loaded))
          else ret None in
        list_entries directory rest (out ++ [(p, meta)])
  end.

Definition list_dir_with_meta (directory : string)
  : M (list (string * option (jval float))) :=
  let! names := os_listdir directory in
  list_entries directory (sorted names) [].

(** ** Commands

    A command returns the lines it prints. *)

(** [cli_queue(args)] with [args.file] and [args.force]. *)
Definition cli_queue (file : string) (force : bool) : M (list string) :=
  let src := file in
  let! there := os_path_exists src in
  if negb there then ret ["Source file not found: " +:+ src]
  else
    catch (let! (dest, meta) := move_to_ready src force in
           ret ["Queued: " +:+ dest])
          (λ e, match e with
                | FileExistsError _ =>
                    ret ["Destination exists, use --force to overwrite: " +:+ str_of_exn e]
                | _ => raise e
                end).

(** [meta or {}]. *)
Definition dict_or_empty (meta : dict) : dict :=
  match meta with
  | [] => []
  | _ => meta
  end.

(** [cli_send_one(args)] with the fields of [args] as arguments. *)
Definition cli_send_one (file host : string) (port : Z) (timeout : float)
    (attempts : Z) (tls : bool) (cafile : option string) : M (list string) :=
  let filepath := file in
  let! there := os_path_exists filepath in
  if negb there then ret ["File not found: " +:+ filepath]
  else
    let! (ok, note) := validate_file filepath in
    if negb ok then ret ["Validation failed: " +:+ note]
    else
      let! (success, meta) :=
        send_one_file filepath host port timeout tls cafile attempts in
      let meta := dict_or_empty meta in
      let meta := dict_set "file" (PStr (os_path_basename filepath)) meta in
      let meta_path := filepath +:+ META_EXT in
      let! _ := write_meta_for_send filepath meta in
      if success then
        let dest := os_path_join SENT_DIR (os_path_basename filepath) in
        let! _ := shutil_move filepath dest in
        let! _ := shutil_move meta_path (dest +:+ META_EXT) in
        ret ["Sent and moved to " +:+ dest]
      else
        let dest := os_path_join FAILED_DIR (os_path_basename filepath) in
        let! _ := shutil_move filepath dest in
        let! _ := catch (shutil_move meta_path (dest +:+ META_EXT)) (λ _, ret tt) in
        ret ["Send failed; moved to " +:+ dest].
(** * Properties of the frame codec *)

Lemma extract_loop_step frames buffer :
  extract_loop frames buffer =
  match bytes_index buffer START_BLOCK 0 with
  | None => (frames, buffer)
  | Some start =>
      match bytes_index buffer END_BLOCK (start + 1) with
      | None => (frames, buffer)
      | Some end_ =>
          extract_loop (frames ++ [slice buffer (start + 1) end_])
                       (drop (end_ + length END_BLOCK) buffer)
      end
  end.
Proof.
  funelim (extract_loop frames buffer).
  all: repeat match goal with
         | H : bytes_index _ _ _ = _ |- _ => rewrite H; clear dependent H
         end; reflexivity.
Qed.

Example extract_two :
  extract_frames [x41; x0b; x42; x43; x1c; x0d; x0b; x1c; x0d; x0b; x44] =
  ([[x42; x43]; []], [x0b; x44]).
Proof. vm_compute. reflexivity. Qed.

(** *** Facts about [find_sub] *)

Lemma find_sub_Some sub buf i :
  find_sub sub buf = Some i ↔
  i ≤ length buf ∧ sub `prefix_of` drop i buf ∧
  ∀ j, j < i → ¬ sub `prefix_of` drop j buf.
Proof.
  revert i. induction buf as [|b buf IH]; intros i; simpl.
  - case_bool_decide as Hp.
    + split.
      * intros [= <-]. split_and!; [simpl; lia|done|lia].
      * intros (Hi & _ & _). simpl in Hi. f_equal. lia.
    + split; [done|]. intros (Hi & Hpre & _). simpl in Hi.
      assert (i = 0) as -> by lia. done.
  - case_bool_decide as Hp.
    + split.
      * intros [= <-]. split_and!; [lia|done|lia].
      * intros (_ & _ & Hmin). destruct i as [|i]; [done|].
        exfalso. apply (Hmin 0); [lia|done].
    + destruct (find_sub sub buf) as [k|] eqn:Hk; simpl.
      * destruct (proj1 (IH k) eq_refl) as (Hk1 & Hk2 & Hk3). split.
        -- intros [= <-]. split_and!; [lia|done|].
           intros [|j] Hj; [done|]. simpl. apply Hk3. lia.
        -- intros (Hi & Hpre & Hmin). destruct i as [|i]; [done|].
           f_equal. simpl in Hpre.
           destruct (Nat.lt_trichotomy i k) as [Hlt|[->|Hgt]]; [|done|].
           ++ exfalso. by apply (Hk3 i).
           ++ exfalso. apply (Hmin (S k)); [lia|done].
      * split; [done|]. intros (Hi & Hpre & Hmin).
        destruct i as [|i]; [done|]. simpl in *.
        assert (None = Some i) as Hi'; [|congruence].
        apply IH. split_and!; [lia|done|].
        intros j Hj. apply (Hmin (S j)). lia.
Qed.

Lemma find_sub_None sub buf :
  find_sub sub buf = None ↔ ∀ i, i ≤ length buf → ¬ sub `prefix_of` drop i buf.
Proof.
  induction buf as [|b buf IH]; simpl.
  - case_bool_decide as Hp.
    + split; [done|]. intros H. exfalso. by apply (H 0).
    + split; [|done]. intros _ i Hi. by assert (i = 0) as -> by lia.
  - case_bool_decide as Hp.
    + split; [done|]. intros H. exfalso. apply (H 0); [lia|done].
    + destruct (find_sub sub buf) as [k|] eqn:Hk; simpl.
      * split; [done|]. intros H.
        assert (Some k = None) as Hbad; [|done].
        apply IH. intros i Hi. apply (H (S i)). lia.
      * split; [|done]. intros _ [|i] Hi; [done|]. simpl.
        apply (proj1 IH eq_refl). lia.
Qed.

(** The same, in terms of a decomposition of the buffer. *)
Lemma find_sub_None_infix sub buf :
  find_sub sub buf = None ↔ ¬ ∃ l1 l2, buf = l1 ++ sub ++ l2.
Proof.
  rewrite find_sub_None. split.
  - intros H (l1 & l2 & ->). apply (H (length l1)).
    + rewrite length_app. lia.
    + rewrite drop_app_length. by apply prefix_app_r.
  - intros H i Hi [k Hk]. apply H. exists (take i buf), k.
    by rewrite <- Hk, take_drop.
Qed.

(** *** The markers inside a framed buffer *)

Lemma find_start_skip junk rest :
  find_sub START_BLOCK junk = None →
  find_sub START_BLOCK (junk ++ START_BLOCK ++ rest) = Some (length junk).
Proof.
  intros Hfree. apply find_sub_Some. split_and!.
  - rewrite length_app. lia.
  - rewrite drop_app_length. by apply prefix_app_r.
  - intros j Hj [k Hk].
    apply (proj1 (find_sub_None _ _) Hfree j); [lia|].
    rewrite drop_app_le in Hk by lia.
    destruct (drop j junk) as [|c l] eqn:Hd.
    + apply (f_equal length) in Hd. rewrite length_drop in Hd. simpl in Hd. lia.
    + injection Hk as -> _. by exists l.
Qed.

Lemma find_end_skip payload rest :
  find_sub END_BLOCK payload = None →
  find_sub END_BLOCK (payload ++ END_BLOCK ++ rest) = Some (length payload).
Proof.
  intros Hfree. apply find_sub_Some. split_and!.
  - rewrite length_app. lia.
  - rewrite drop_app_length. by apply prefix_app_r.
  - intros j Hj [k Hk].
    apply (proj1 (find_sub_None _ _) Hfree j); [lia|].
    rewrite drop_app_le in Hk by lia.
    destruct (drop j payload) as [|c [|d l]] eqn:Hd.
    + apply (f_equal length) in Hd. rewrite length_drop in Hd. simpl in Hd. lia.
    + simpl in Hk. by injection Hk as _ ?.
    + injection Hk as -> -> _. by exists l.
Qed.

Lemma find_end_strict_prefix payload tail :
  find_sub END_BLOCK payload = None →
  tail `prefix_of` payload ++ END_BLOCK →
  tail ≠ payload ++ END_BLOCK →
  find_sub END_BLOCK tail = None.
Proof.
  intros Hfree [k Hk] Hne.
  destruct (find_sub END_BLOCK tail) as [i|] eqn:Hi; [exfalso|done].
  apply find_sub_Some in Hi as (Hi1 & Hi2 & _).
  pose proof (find_end_skip payload [] Hfree) as Hfull.
  rewrite app_nil_r in Hfull.
  apply find_sub_Some in Hfull as (_ & _ & Hmin).
  assert (length tail < length payload + 2) as Hlen.
  { destruct k as [|c k]; [by rewrite app_nil_r in Hk|].
    apply (f_equal length) in Hk. rewrite !length_app in Hk. simpl in Hk. lia. }
  assert (i + 2 ≤ length tail) as Hi3.
  { apply prefix_length in Hi2. rewrite length_drop in Hi2. simpl in Hi2. lia. }
  apply (Hmin i); [lia|].
  rewrite Hk, drop_app_le by lia. by apply prefix_app_r.
Qed.

(** *** The two searches of one loop iteration *)

Lemma index_start junk rest :
  find_sub START_BLOCK junk = None →
  bytes_index (junk ++ START_BLOCK ++ rest) START_BLOCK 0 = Some (length junk).
Proof.
  intros H. unfold bytes_index. rewrite decide_True by lia.
  by rewrite drop_0, find_start_skip.
Qed.

Lemma drop_past_start junk tail :
  drop (length junk + 1) (junk ++ START_BLOCK ++ tail) = tail.
Proof.
  replace (length junk + 1) with (length (junk ++ START_BLOCK))
    by (rewrite length_app; simpl; lia).
  by rewrite (app_assoc junk), drop_app_length.
Qed.

Lemma index_end junk payload rest :
  find_sub END_BLOCK payload = None →
  bytes_index (junk ++ START_BLOCK ++ payload ++ END_BLOCK ++ rest) END_BLOCK (length junk + 1)
  = Some (length junk + 1 + length payload).
Proof.
  intros H. unfold bytes_index.
  rewrite decide_True by (rewrite !length_app; simpl; lia).
  by rewrite drop_past_start, find_end_skip.
Qed.

Lemma index_end_missing junk tail :
  find_sub END_BLOCK tail = None →
  bytes_index (junk ++ START_BLOCK ++ tail) END_BLOCK (length junk + 1) = None.
Proof.
  intros H. unfold bytes_index. case_decide; [|done].
  by rewrite drop_past_start, H.
Qed.

(** *** The loop of [extract_frames] *)

Lemma extract_loop_no_start frames buffer :
  find_sub START_BLOCK buffer = None → extract_loop frames buffer = (frames, buffer).
Proof.
  intros H. rewrite extract_loop_step. unfold bytes_index.
  rewrite decide_True by lia. rewrite drop_0, H. reflexivity.
Qed.

Lemma extract_loop_incomplete frames junk tail :
  find_sub START_BLOCK junk = None →
  find_sub END_BLOCK tail = None →
  extract_loop frames (junk ++ START_BLOCK ++ tail) =
  (frames, junk ++ START_BLOCK ++ tail).
Proof.
  intros Hj Ht. rewrite extract_loop_step.
  by rewrite index_start, index_end_missing.
Qed.

Lemma extract_loop_frame frames junk payload rest :
  find_sub START_BLOCK junk = None →
  find_sub END_BLOCK payload = None →
  extract_loop frames (junk ++ frame_message payload ++ rest) =
  extract_loop (frames ++ [payload]) rest.
Proof.
  intros Hj Hp. unfold frame_message. rewrite extract_loop_step.
  rewrite <- !app_assoc.
  rewrite index_start, index_end by done.
  f_equal.
  - f_equal. f_equal. unfold slice.
    rewrite drop_past_start.
    replace (length junk + 1 + length payload - (length junk + 1))
      with (length payload) by lia.
    by rewrite take_app_length.
  - replace (length junk + 1 + length payload + length END_BLOCK)
      with (length (junk ++ START_BLOCK ++ payload ++ END_BLOCK))
      by (rewrite !length_app; simpl; lia).
    rewrite (app_assoc payload), (app_assoc START_BLOCK), (app_assoc junk).
    rewrite <- !app_assoc. rewrite !app_assoc.
    rewrite drop_app_length. done.
Qed.

Lemma extract_loop_acc frames buffer :
  extract_loop frames buffer =
  (frames ++ (extract_frames buffer).1, (extract_frames buffer).2).
Proof.
  unfold extract_frames.
  remember (length buffer) as n eqn:Hn.
  revert frames buffer Hn.
  induction (lt_wf n) as [n _ IH]. intros frames buffer ->.
  rewrite (extract_loop_step frames), (extract_loop_step []).
  destruct (bytes_index buffer START_BLOCK 0) as [s|]; [|by rewrite app_nil_r].
  destruct (bytes_index buffer END_BLOCK (s + 1)) as [e|] eqn:He; [|by rewrite app_nil_r].
  apply index_bound in He. simpl in He.
  assert (length (drop (e + length END_BLOCK) buffer) < length buffer) as Hlt.
  { rewrite length_drop. simpl. lia. }
  rewrite (IH _ Hlt (frames ++ _) _ eq_refl).
  rewrite (IH _ Hlt ([] ++ _) _ eq_refl).
  simpl. by rewrite <- app_assoc.
Qed.

(** *** Round trip and streaming behaviour *)

Lemma extract_frames_framed payload :
  find_sub END_BLOCK payload = None →
  extract_frames (frame_message payload) = ([payload], []).
Proof.
  intros Hend. unfold extract_frames.
  pose proof (extract_loop_frame [] [] payload [] eq_refl Hend) as H.
  rewrite app_nil_r in H. simpl in H. rewrite H.
  by apply extract_loop_no_start.
Qed.

(** C2. Decoding the encoding of a payload without marker collisions
    gives back exactly that payload, and consumes the whole buffer. *)
Theorem extract_frames_frame_message (P : list byte) :
  marker_free P → extract_frames (frame_message P) = ([P], []).
Proof.
  intros [_ Hend]. by apply extract_frames_framed.
Qed.

Lemma extract_frames_frame_message_witness :
  marker_free [x4f; x4b] ∧
  extract_frames (frame_message [x4f; x4b]) = ([[x4f; x4b]], []).
Proof.
  split; [by vm_compute|].
  apply (extract_frames_frame_message [x4f; x4b]). by vm_compute.
Defined.

(** C3. One call extracts the complete frames from left to right, drops
    everything up to each consumed end marker (bytes in front of a start
    marker included) and keeps an incomplete trailing frame: two framed
    payloads in a row come out in order and leave the buffer empty; a
    strict prefix of a framed payload gives no frame and stays in the
    buffer, and the next call on the completed buffer gives the payload. *)
Theorem extract_frames_streaming (A B : list byte) :
  marker_free A → marker_free B →
  (∀ junk rest, find_sub START_BLOCK junk = None →
     extract_frames (junk ++ frame_message A ++ rest) =
     (A :: (extract_frames rest).1, (extract_frames rest).2))
  ∧ (∀ junk tail, find_sub START_BLOCK junk = None →
       find_sub END_BLOCK tail = None →
       extract_frames (junk ++ START_BLOCK ++ tail) =
       ([], junk ++ START_BLOCK ++ tail))
  ∧ extract_frames (frame_message A ++ frame_message B) = ([A; B], [])
  ∧ (∀ p q, p ++ q = frame_message A → q ≠ [] →
       extract_frames p = ([], p) ∧
       extract_frames ((extract_frames p).2 ++ q) = ([A], [])).
Proof.
  intros [_ HA] [_ HB]. split_and!.
  - intros junk rest Hj. unfold extract_frames at 1.
    rewrite extract_loop_frame by done. by rewrite extract_loop_acc.
  - intros junk tail Hj Ht. by apply extract_loop_incomplete.
  - unfold extract_frames.
    pose proof (extract_loop_frame [] [] A (frame_message B) eq_refl HA) as H1.
    pose proof (extract_loop_frame [A] [] B [] eq_refl HB) as H2.
    rewrite app_nil_r in H2. cbn [app] in H1, H2. rewrite H1, H2.
    by apply extract_loop_no_start.
  - intros p q Hpq Hq.
    assert (extract_frames p = ([], p)) as Hp.
    { destruct p as [|b tail]; [done|].
      unfold frame_message in Hpq. injection Hpq as -> Htail.
      apply (extract_loop_incomplete [] [] tail eq_refl).
      apply (find_end_strict_prefix A); [done|by exists q|].
      intros ->. apply Hq. by apply (app_inv_head (A ++ END_BLOCK)); rewrite app_nil_r. }
    split; [done|]. rewrite Hp. simpl. rewrite Hpq.
    by apply extract_frames_framed.
Qed.

Lemma extract_frames_streaming_witness :
  marker_free [x41] ∧ marker_free [x42; x43] ∧
  extract_frames (frame_message [x41] ++ frame_message [x42; x43]) =
  ([[x41]; [x42; x43]], []).
Proof.
  split_and!; [by vm_compute..|].
  apply (extract_frames_streaming [x41] [x42; x43]); by vm_compute.
Defined.

(** * Strings and paths *)

(** Propositional reasoning from the hypotheses alone: the parameters of
    the pipeline that the goal does not mention are dropped first. *)
Ltac drop_unused :=
  repeat match goal with
         | x : ?T |- _ =>
             lazymatch type of T with
             | Prop => fail
             | _ => clear x
             end
         end.
Ltac prop_tauto := drop_unused; tauto.

Lemma string_app_nil_r (s : string) : s +:+ "" = s.
Proof. induction s as [|c s IH]; [done|]. unfold String.app in *. simpl. by rewrite IH. Qed.

Lemma string_app_assoc (a b c : string) : (a +:+ b) +:+ c = a +:+ (b +:+ c).
Proof.
  induction a as [|x a IH]; [done|]. unfold String.app in *. simpl. by rewrite IH.
Qed.

Lemma string_app_length (a b : string) :
  String.length (a +:+ b) = String.length a + String.length b.
Proof.
  induction a as [|x a IH]; [done|]. unfold String.app in *. simpl. by rewrite IH.
Qed.

Lemma string_app_cons (c : ascii) (a b : string) :
  String c a +:+ b = String c (a +:+ b).
Proof. done. Qed.

Lemma string_app_ne (s t : string) : t ≠ "" → s ≠ s +:+ t.
Proof.
  intros Ht Heq. apply (f_equal String.length) in Heq.
  rewrite string_app_length in Heq. destruct t; [done|]. simpl in Heq. lia.
Qed.

(** Cancelling a common suffix. *)
Lemma string_app_inv_tail (a b t : string) : a +:+ t = b +:+ t → a = b.
Proof.
  revert b. induction a as [|x a IH]; intros [|y b] Heq; [done|..].
  - exfalso. apply (f_equal String.length) in Heq.
    rewrite !string_app_length in Heq. simpl in Heq. lia.
  - exfalso. apply (f_equal String.length) in Heq.
    rewrite !string_app_length in Heq. simpl in Heq. lia.
  - rewrite !string_app_cons in Heq. injection Heq as -> Heq.
    f_equal. by apply IH.
Qed.

Lemma string_app_nil_l (s : string) : "" +:+ s = s.
Proof. done. Qed.

(** *** Names of directory entries *)

(** What [os.listdir] can return: not empty, no slash. *)
Definition valid_name (n : string) : Prop := n ≠ "" ∧ contains "/" n = false.

Lemma startswith_cons c s d p :
  startswith (String c s) (String d p) = bool_decide (c = d) && startswith s p.
Proof.
  unfold startswith. simpl.
  destruct (Ascii.ascii_dec d c) as [->|Hne].
  - by rewrite bool_decide_eq_true_2.
  - rewrite bool_decide_eq_false_2; [done|congruence].
Qed.

Lemma startswith_nil_l p : startswith "" p = bool_decide (p = "").
Proof. by destruct p. Qed.

Lemma startswith_nil_r s : startswith s "" = true.
Proof. by destruct s. Qed.

Lemma contains_cons sub c s :
  contains sub (String c s) = startswith (String c s) sub || contains sub s.
Proof. done. Qed.

Lemma no_slash_cons c s :
  contains "/" (String c s) = false ↔ c ≠ "/"%char ∧ contains "/" s = false.
Proof.
  rewrite contains_cons, startswith_cons, startswith_nil_r, andb_true_r.
  rewrite orb_false_iff, bool_decide_eq_false. prop_tauto.
Qed.

Lemma no_slash_app a b :
  contains "/" (a +:+ b) = false ↔ contains "/" a = false ∧ contains "/" b = false.
Proof.
  induction a as [|c a IH].
  - rewrite string_app_nil_l. split; [|prop_tauto]. intros H. split; [|done].
    by vm_compute.
  - rewrite string_app_cons, !no_slash_cons, IH. prop_tauto.
Qed.

Lemma slash_inside a b : contains "/" (a +:+ "/" +:+ b) = true.
Proof.
  destruct (contains "/" (a +:+ "/" +:+ b)) eqn:H; [done|].
  apply no_slash_app in H as [_ H]. apply no_slash_app in H as [H _].
  by vm_compute in H.
Qed.

Lemma no_slash_startswith n : contains "/" n = false → startswith n "/" = false.
Proof.
  destruct n as [|c n]; [done|]. rewrite no_slash_cons. intros [Hc _].
  rewrite startswith_cons, startswith_nil_r, andb_true_r.
  by apply bool_decide_eq_false.
Qed.

Lemma endswith_cons c s p :
  endswith (String c s) p = String.eqb (String c s) p || endswith s p.
Proof. done. Qed.

Lemma no_slash_endswith n : contains "/" n = false → endswith n "/" = false.
Proof.
  induction n as [|c n IH]; [done|]. rewrite no_slash_cons. intros [Hc Hn].
  rewrite endswith_cons, IH, orb_false_r by done.
  apply String.eqb_neq. congruence.
Qed.

Lemma endswith_app_valid a n : valid_name n → endswith (a +:+ n) "/" = false.
Proof.
  intros [Hne Hn]. induction a as [|c a IH].
  - rewrite string_app_nil_l. by apply no_slash_endswith.
  - rewrite string_app_cons, endswith_cons, IH, orb_false_r.
    apply String.eqb_neq. intros [= _ Hnil].
    destruct a; [by rewrite string_app_nil_l in Hnil|done].
Qed.

Lemma valid_name_app n s :
  valid_name n → contains "/" s = false → valid_name (n +:+ s).
Proof.
  intros [Hne Hn] Hs. split.
  - destruct n; [done|]. by rewrite string_app_cons.
  - by apply no_slash_app.
Qed.

(** *** Joining and splitting paths *)

Lemma os_path_join_valid a n :
  a ≠ "" → endswith a "/" = false → contains "/" n = false →
  os_path_join a n = a +:+ "/" +:+ n.
Proof.
  intros Ha He Hn. unfold os_path_join.
  rewrite no_slash_startswith, He by done.
  by rewrite bool_decide_eq_false_2.
Qed.

Lemma os_path_basename_no_slash p : contains "/" (os_path_basename p) = false.
Proof.
  induction p as [|c p IH]; [done|]. simpl.
  destruct (contains "/" p) eqn:Hp; [done|].
  case_bool_decide as Hc; [done|].
  by apply no_slash_cons.
Qed.

Lemma os_path_basename_join a n :
  contains "/" n = false → os_path_basename (a +:+ "/" +:+ n) = n.
Proof.
  intros Hn. induction a as [|c a IH].
  - rewrite string_app_nil_l, string_app_cons, string_app_nil_l. simpl.
    by rewrite Hn.
  - rewrite string_app_cons. simpl. by rewrite slash_inside.
Qed.

(** * Properties of the structural validator *)

Lemma startswith_spec s p : startswith s p = true ↔ ∃ rest, s = p +:+ rest.
Proof.
  revert s. induction p as [|c p IH]; intros s.
  - destruct s; unfold startswith; simpl; split; eauto.
  - destruct s as [|d s]; unfold startswith; simpl.
    + split; [done|]. by intros [rest ?].
    + destruct (Ascii.ascii_dec c d) as [->|Hne].
      * fold (startswith s p). rewrite IH.
        split; intros [rest Hr]; exists rest; [by rewrite Hr|].
        by injection Hr.
      * split; [done|]. intros [rest Hr]. by injection Hr.
Qed.

Lemma contains_spec sub s :
  contains sub s = true ↔ ∃ before after, s = before +:+ sub +:+ after.
Proof.
  induction s as [|c s IH]; simpl.
  - rewrite orb_false_r, startswith_spec. split.
    + intros [rest Hr]. by exists "", rest.
    + intros ([|] & after & Hr); [by exists after|done].
  - rewrite orb_true_iff, IH, startswith_spec. split.
    + intros [[rest Hr]|(before & after & Hr)].
      * by exists "", rest.
      * exists (String c before), after. by rewrite Hr.
    + intros ([|d before] & after & Hr).
      * left. by exists after.
      * right. injection Hr as _ Hr. by exists before, after.
Qed.

Local Abbreviation validate := basic_validate_edifact_bytes.

(** What the two header tests and the two segment tests decide. *)
Definition markers_present (txt : string) : Prop :=
  (startswith txt "UNA" = true ∨ startswith txt "UNB" = true) ∧
  contains "UNH+" txt = true ∧ contains "UNT+" txt = true.

Lemma validate_markers data :
  markers_present (decode_replace data) →
  validate data =
  match count_check (decode_replace data) with
  | Some note => (true, note)
  | None => (true, "ok")
  end.
Proof.
  intros (Hh & Hunh & Hunt). unfold basic_validate_edifact_bytes.
  rewrite Hunh, Hunt. simpl.
  by destruct Hh as [-> | ->]; rewrite ?orb_true_r.
Qed.

Lemma count_check_counts txt r a :
  declared_count txt = Some r →
  actual_count txt = Some a →
  count_check txt =
  if bool_decide (Z.abs (r - a) > 2)%Z then Some (mismatch_note r a) else None.
Proof.
  unfold declared_count, actual_count, count_check.
  destruct (unh_unt_idx (splitlines txt)) as [[unh unt]|]; simpl; [|done].
  destruct (splitlines txt !! unt) as [line|]; simpl; [|done].
  intros -> [= <-]. done.
Qed.

(** C5. The verdict is "valid" exactly when the text begins with [UNA] or
    [UNB] and contains both [UNH+] and [UNT+].  With those markers
    present, a declared segment count more than 2 away from the actual
    one only changes the note, and a count within 2 gives the note
    [ok]. *)
Theorem basic_validate_edifact_bytes_verdict (data : list byte) :
  let txt := decode_replace data in
  ((validate data).1 = true ↔ markers_present txt)
  ∧ (∀ r a, markers_present txt →
       declared_count txt = Some r → actual_count txt = Some a →
       (Z.abs (r - a) > 2)%Z →
       validate data = (true, mismatch_note r a))
  ∧ (∀ r a, markers_present txt →
       declared_count txt = Some r → actual_count txt = Some a →
       (Z.abs (r - a) ≤ 2)%Z →
       validate data = (true, "ok")).
Proof.
  intros txt. split_and!.
  - split.
    + unfold basic_validate_edifact_bytes, markers_present. fold txt.
      destruct (startswith txt "UNA") eqn:Ha, (startswith txt "UNB") eqn:Hb,
        (contains "UNH+" txt) eqn:Hh, (contains "UNT+" txt) eqn:Ht;
        simpl; try done; auto.
    + intros Hm. rewrite validate_markers by done.
      by destruct (count_check _).
  - intros r a Hm Hr Ha Hdev. rewrite validate_markers by done.
    rewrite (count_check_counts _ r a) by done.
    by rewrite bool_decide_eq_true_2.
  - intros r a Hm Hr Ha Hdev. rewrite validate_markers by done.
    rewrite (count_check_counts _ r a) by done.
    rewrite bool_decide_eq_false_2; [done|lia].
Qed.

(** * Properties of the transport client *)

(** No chunk of the list completes a frame in the buffer. *)
Fixpoint incomplete (buf : list byte) (chunks : list (list byte * float)) : Prop :=
  match chunks with
  | [] => True
  | (chunk, _) :: rest =>
      (extract_frames (buf ++ chunk)).1 = [] ∧
      incomplete (extract_frames (buf ++ chunk)).2 rest
  end.

(** The connection is up and the frame has gone out: no call before the
    receive loop raised. *)
Definition established (s : script float) (tls : bool) (cafile : option string) : Prop :=
  connect_error s = None ∧
  (tls = true →
     default_context_error s = None ∧
     (truthy cafile = true → cafile_context_error s = None) ∧
     handshake_error s = None) ∧
  settimeout_error s = None ∧ sendall_error s = None.

Lemma mllp_send_on_established s host port payload timeout tls cafile :
  established s tls cafile →
  (mllp_send_on s host port payload timeout tls cafile).1 =
  recv_loop timeout (start_time s) [] (chunks s) (ending s).
Proof.
  intros (Hc & Htls & Hst & Hsa). unfold mllp_send_on. rewrite Hc.
  destruct tls.
  - destruct (Htls eq_refl) as (Hd & Hca & Hh). rewrite Hd, Hh.
    destruct (truthy cafile); [rewrite Hca by done|]; by rewrite Hst, Hsa.
  - by rewrite Hst, Hsa.
Qed.

Lemma recv_loop_incomplete timeout start buf chunks ending :
  incomplete buf chunks →
  ending = RecvRaises SocketTimeout ∨ ending = RecvClosed →
  recv_loop timeout start buf chunks ending = Ret None.
Proof.
  revert buf. induction chunks as [|[chunk now] rest IH]; intros buf Hinc Hend.
  - simpl. by destruct Hend as [-> | ->].
  - simpl in *. destruct chunk as [|b chunk]; [done|].
    destruct Hinc as [Hnone Hrest].
    destruct (extract_frames (buf ++ b :: chunk)) as [frames buf'].
    simpl in *. subst frames.
    destruct (float_gt _ _); [done|]. by apply IH.
Qed.

Lemma recv_loop_elapsed timeout start buf before chunk now after ending :
  incomplete buf (before ++ [(chunk, now)]) →
  float_gt (float_sub now start) timeout = true →
  recv_loop timeout start buf (before ++ (chunk, now) :: after) ending = Ret None.
Proof.
  revert buf. induction before as [|[c t] before IH]; intros buf Hinc Hgt.
  - simpl in *. destruct chunk as [|b chunk]; [done|].
    destruct Hinc as [Hnone _].
    destruct (extract_frames (buf ++ b :: chunk)) as [frames buf'].
    simpl in *. subst frames. by rewrite Hgt.
  - simpl in *. destruct c as [|b c]; [done|].
    destruct Hinc as [Hnone Hrest].
    destruct (extract_frames (buf ++ b :: c)) as [frames buf'].
    simpl in *. subst frames.
    destruct (float_gt (float_sub t start) timeout); [done|]. by apply IH.
Qed.

Lemma recv_loop_returns timeout start buf chunks ending :
  ending = RecvRaises SocketTimeout ∨ ending = RecvClosed →
  ∃ answer, recv_loop timeout start buf chunks ending = Ret answer.
Proof.
  intros Hend. revert buf.
  induction chunks as [|[chunk now] rest IH]; intros buf.
  - simpl. destruct Hend as [-> | ->]; eauto.
  - simpl. destruct chunk as [|b chunk]; [eauto|].
    destruct (extract_frames (buf ++ b :: chunk)) as [[|frame frames] buf'];
      [|eauto].
    destruct (float_gt _ _); eauto.
Qed.

(** C7. Each failure condition of the transport client ends in the
    failure result [None], not in an exception: a failed connect; a
    failed TLS handshake; and, once the frame has been sent, a read
    timeout or a closed connection before a complete frame has arrived,
    and a clock reading past the timeout.  With a read timeout or a
    close as the only thing that can end the receiving, the call always
    returns. *)
Theorem mllp_send_failures_are_results (w : world) (host : string) (port : Z)
    (payload : list byte) (timeout : float) (tls : bool) (cafile : option string) :
  let s := peer (connections w) in
  let outcome := (mllp_send host port payload timeout tls cafile w).1 in
  (is_Some (connect_error s) → outcome = Ret None)
  ∧ (connect_error s = None → tls = true →
     default_context_error s = None →
     (truthy cafile = true → cafile_context_error s = None) →
     is_Some (handshake_error s) → outcome = Ret None)
  ∧ (established s tls cafile → incomplete [] (chunks s) →
     ending s = RecvRaises SocketTimeout ∨ ending s = RecvClosed →
     outcome = Ret None)
  ∧ (established s tls cafile →
     ∀ before chunk now after,
       chunks s = before ++ (chunk, now) :: after →
       incomplete [] (before ++ [(chunk, now)]) →
       float_gt (float_sub now (start_time s)) timeout = true →
       outcome = Ret None)
  ∧ (established s tls cafile →
     ending s = RecvRaises SocketTimeout ∨ ending s = RecvClosed →
     ∃ answer, outcome = Ret answer).
Proof.
  intros s outcome.
  assert (outcome = (mllp_send_on s host port payload timeout tls cafile).1) as ->.
  { unfold outcome, mllp_send. fold s. by destruct (mllp_send_on _ _ _ _ _ _ _). }
  split_and!.
  - intros [e He]. unfold mllp_send_on. by rewrite He.
  - intros Hc -> Hd Hca [e He]. unfold mllp_send_on. rewrite Hc, Hd, He.
    destruct (truthy cafile); [by rewrite Hca|done].
  - intros Hest Hinc Hend. rewrite mllp_send_on_established by done.
    by apply recv_loop_incomplete.
  - intros Hest before chunk now after Hch Hinc Hgt.
    rewrite mllp_send_on_established, Hch by done.
    by apply recv_loop_elapsed.
  - intros Hest Hend. rewrite mllp_send_on_established by done.
    by apply recv_loop_returns.
Qed.

(** * Properties of the retrying sender *)

Lemma dict_get_set_eq k v d : dict_get k (dict_set k v d) = Some v.
Proof.
  induction d as [|[k' v'] d IH]; simpl.
  - by rewrite bool_decide_eq_true_2.
  - case_bool_decide as Hk; simpl.
    + by rewrite bool_decide_eq_true_2.
    + by rewrite bool_decide_eq_false_2.
Qed.

Lemma dict_get_set_ne k k' v d :
  k ≠ k' → dict_get k (dict_set k' v d) = dict_get k d.
Proof.
  intros Hne. induction d as [|[k'' v''] d IH]; simpl.
  - by rewrite bool_decide_eq_false_2.
  - case_bool_decide as Hk; simpl.
    + subst k''. by rewrite !bool_decide_eq_false_2.
    + case_bool_decide; [done|]. apply IH.
Qed.

Lemma py_range_length lo hi : length (py_range lo hi) = Z.to_nat (hi - lo).
Proof. unfold py_range. by rewrite length_fmap, length_seq. Qed.

Lemma fmap_seq_shift (lo : Z) (a n : nat) :
  (λ i, (lo + Z.of_nat i)%Z) <$> seq a n =
  (λ i, (lo + Z.of_nat a + Z.of_nat i)%Z) <$> seq 0 n.
Proof.
  revert a lo. induction n as [|n IH]; intros a lo; [done|].
  simpl. f_equal; [lia|].
  rewrite (IH (S a)), (IH 1). apply list_fmap_ext. intros _ i _. lia.
Qed.

Lemma py_range_split lo mid hi :
  (lo ≤ mid ≤ hi)%Z → py_range lo hi = py_range lo mid ++ py_range mid hi.
Proof.
  intros H. unfold py_range.
  replace (Z.to_nat (hi - lo)) with (Z.to_nat (mid - lo) + Z.to_nat (hi - mid)) by lia.
  rewrite seq_app, fmap_app. f_equal.
  rewrite fmap_seq_shift. apply list_fmap_ext. intros _ i _. lia.
Qed.

Lemma py_range_cons lo hi :
  (lo < hi)%Z → py_range lo hi = lo :: py_range (lo + 1) hi.
Proof.
  intros H. rewrite (py_range_split lo (lo + 1) hi) by lia.
  unfold py_range at 1. replace (lo + 1 - lo)%Z with 1%Z by lia. simpl.
  by rewrite Z.add_0_r.
Qed.

Lemma py_range_snoc lo hi :
  (lo ≤ hi)%Z → py_range lo (hi + 1) = py_range lo hi ++ [hi].
Proof.
  intros H. rewrite (py_range_split lo hi (hi + 1)) by lia. f_equal.
  rewrite py_range_cons by lia. unfold py_range.
  by replace (hi + 1 - (hi + 1))%Z with 0%Z by lia.
Qed.

(** The waits a log records, in order. *)
Definition sleeps_of (l : list event) : list Z :=
  omap (λ e, match e with EvSleep n => Some n | _ => None end) l.

Lemma sleeps_of_app l1 l2 : sleeps_of (l1 ++ l2) = sleeps_of l1 ++ sleeps_of l2.
Proof. apply omap_app. Qed.

Lemma sleeps_of_mllp_send_on s host port payload timeout tls cafile :
  sleeps_of (mllp_send_on s host port payload timeout tls cafile).2 = [].
Proof.
  unfold mllp_send_on.
  repeat (match goal with
          | |- context [match ?x with _ => _ end] => destruct x
          end; simpl; try done).
Qed.

Section Attempts.

Variables (filepath host : string) (port : Z) (timeout : float)
  (tls : bool) (cafile : option string) (payload : list byte).

(** What the transport client answers on the connection numbered [n]. *)
Definition transport_answer (n : nat) : result (option (list byte)) :=
  (mllp_send_on (peer n) host port payload timeout tls cafile).1.

Local Abbreviation attempts_from := (send_attempts filepath host port timeout tls cafile).

Definition no_ack : pyval := PStr "no_ack_or_timeout".

Lemma send_attempts_failed attempt rest meta w :
  fs w !! filepath = Some (File payload) →
  transport_answer (connections w) = Ret None →
  ∃ meta' w',
    attempts_from (attempt :: rest) meta w = attempts_from rest meta' w'
    ∧ fs w' = fs w
    ∧ connections w' = S (connections w)
    ∧ sleeps_of (log w') = sleeps_of (log w) ++ [1%Z]
    ∧ last (log w') = Some (EvSleep 1)
    ∧ dict_get "error" meta' = Some no_ack
    ∧ dict_get "attempts" meta' = Some (PInt attempt)
    ∧ dict_get "ack" meta' = dict_get "ack" meta.
Proof.
  intros Hfile Hans. unfold transport_answer in Hans.
  exists (dict_set "error" no_ack
            (dict_set "sent_at" (PStr (utcnow_isoformat_at (utc_reads w)))
               (dict_set "attempts" (PInt attempt) meta))),
         (add_log [EvSleep 1]
            (World (fs w) (S (connections w)) (S (utc_reads w))
               (log w ++ (mllp_send_on (peer (connections w)) host port payload
                            timeout tls cafile).2))).
  split.
  - simpl. unfold bind at 1, catch, bind at 1, read_file. rewrite Hfile. simpl.
    unfold bind at 1, mllp_send.
    pose proof (sleeps_of_mllp_send_on (peer (connections w)) host port payload
                  timeout tls cafile) as Hsl.
    destruct (mllp_send_on _ _ _ _ _ _ _) as [r evs] eqn:Hrun.
    simpl in Hans. subst r. simpl.
    unfold bind at 1, utcnow_isoformat. simpl.
    unfold bind at 1, time_sleep. simpl. reflexivity.
  - pose proof (sleeps_of_mllp_send_on (peer (connections w)) host port payload
                  timeout tls cafile) as Hsl.
    destruct (mllp_send_on _ _ _ _ _ _ _) as [r evs] eqn:Hrun.
    simpl in *. split_and!; try done.
    + by rewrite !sleeps_of_app, Hsl, app_nil_r.
    + by rewrite last_snoc.
    + by rewrite dict_get_set_eq.
    + rewrite !dict_get_set_ne by done. by rewrite dict_get_set_eq.
    + by rewrite !dict_get_set_ne.
Qed.

Lemma send_attempts_acked attempt rest meta w ack :
  fs w !! filepath = Some (File payload) →
  transport_answer (connections w) = Ret (Some ack) →
  ∃ meta' w',
    attempts_from (attempt :: rest) meta w = (Ret (true, meta'), w')
    ∧ fs w' = fs w
    ∧ connections w' = S (connections w)
    ∧ sleeps_of (log w') = sleeps_of (log w)
    ∧ dict_get "ack" meta' = Some (PStr (decode_replace ack))
    ∧ dict_get "attempts" meta' = Some (PInt attempt)
    ∧ dict_get "error" meta' = dict_get "error" meta.
Proof.
  intros Hfile Hans. unfold transport_answer in Hans.
  exists (dict_set "ack" (PStr (decode_replace ack))
            (dict_set "sent_at" (PStr (utcnow_isoformat_at (utc_reads w)))
               (dict_set "attempts" (PInt attempt) meta))),
         (World (fs w) (S (connections w)) (S (utc_reads w))
            (log w ++ (mllp_send_on (peer (connections w)) host port payload
                         timeout tls cafile).2)).
  pose proof (sleeps_of_mllp_send_on (peer (connections w)) host port payload
                timeout tls cafile) as Hsl.
  destruct (mllp_send_on _ _ _ _ _ _ _) as [r evs] eqn:Hrun.
  simpl in Hans, Hsl. subst r. split.
  - simpl. unfold bind at 1, catch, bind at 1, read_file. rewrite Hfile. simpl.
    unfold bind at 1, mllp_send. rewrite Hrun. simpl.
    unfold bind at 1, utcnow_isoformat. simpl. reflexivity.
  - simpl. split_and!; try done.
    + by rewrite sleeps_of_app, Hsl, app_nil_r.
    + by rewrite dict_get_set_eq.
    + rewrite !dict_get_set_ne by done. by rewrite dict_get_set_eq.
    + by rewrite !dict_get_set_ne.
Qed.

Lemma send_attempts_failed_run fails rest meta w :
  fs w !! filepath = Some (File payload) →
  (∀ i, i < length fails → transport_answer (connections w + i) = Ret None) →
  ∃ meta' w',
    attempts_from (fails ++ rest) meta w = attempts_from rest meta' w'
    ∧ fs w' = fs w
    ∧ connections w' = connections w + length fails
    ∧ sleeps_of (log w') = sleeps_of (log w) ++ replicate (length fails) 1%Z
    ∧ dict_get "ack" meta' = dict_get "ack" meta
    ∧ (fails = [] → meta' = meta ∧ w' = w)
    ∧ (∀ a, last fails = Some a →
         last (log w') = Some (EvSleep 1)
         ∧ dict_get "error" meta' = Some no_ack
         ∧ dict_get "attempts" meta' = Some (PInt a)).
Proof.
  revert meta w. induction fails as [|a fails IH]; intros meta w Hfile Hans.
  - exists meta, w. simpl. rewrite app_nil_r. split_and!; try done; lia.
  - destruct (send_attempts_failed a (fails ++ rest) meta w Hfile)
      as (m1 & w1 & Hrun1 & Hfs1 & Hc1 & Hs1 & Hl1 & He1 & Ha1 & Hack1).
    { rewrite <- (Hans 0); [f_equal; lia | simpl; lia]. }
    destruct (IH m1 w1) as (m2 & w2 & Hrun2 & Hfs2 & Hc2 & Hs2 & Hack2 & Hnil & Hlast).
    { by rewrite Hfs1. }
    { intros i Hi. rewrite Hc1. rewrite <- (Hans (S i)); [f_equal; lia | simpl; lia]. }
    exists m2, w2. split_and!.
    + simpl app. rewrite Hrun1. exact Hrun2.
    + congruence.
    + simpl. lia.
    + rewrite Hs2, Hs1, <- app_assoc. done.
    + congruence.
    + done.
    + intros x Hx. destruct fails as [|b fails].
      * simpl in Hx. injection Hx as <-.
        destruct (Hnil eq_refl) as [-> ->]. done.
      * apply Hlast. done.
Qed.

(** C4. With [max_attempts = N ≥ 1] and a readable file: if the transport
    client gives no ACK on any of the [N] connections, the result is a
    failure after exactly [N] attempts, with [attempts = N] and the no-ack
    error recorded; if its first ACK comes on attempt [K ≤ N], the result
    is a success after exactly [K] attempts, with [attempts = K] and the
    decoded ACK in [ack]. *)
Theorem send_one_file_attempts (w : world) (N : Z) :
  (1 ≤ N)%Z →
  fs w !! filepath = Some (File payload) →
  ((∀ i, i < Z.to_nat N → transport_answer (connections w + i) = Ret None) →
   ∃ meta w',
     send_one_file filepath host port timeout tls cafile N w = (Ret (false, meta), w')
     ∧ connections w' = connections w + Z.to_nat N
     ∧ dict_get "attempts" meta = Some (PInt N)
     ∧ dict_get "error" meta = Some no_ack)
  ∧ (∀ K ack, (1 ≤ K ≤ N)%Z →
       (∀ i, i < Z.to_nat (K - 1) → transport_answer (connections w + i) = Ret None) →
       transport_answer (connections w + Z.to_nat (K - 1)) = Ret (Some ack) →
       ∃ meta w',
         send_one_file filepath host port timeout tls cafile N w = (Ret (true, meta), w')
         ∧ connections w' = connections w + Z.to_nat K
         ∧ dict_get "attempts" meta = Some (PInt K)
         ∧ dict_get "ack" meta = Some (PStr (decode_replace ack))).
Proof.
  intros HN Hfile. split.
  - intros Hall. unfold send_one_file.
    rewrite <- (app_nil_r (py_range 1 (N + 1))).
    edestruct (send_attempts_failed_run (py_range 1 (N + 1)) []) as
      (m & w' & Hrun & _ & Hc & _ & _ & _ & Hlast); [exact Hfile| |].
    { intros i Hi. apply Hall. rewrite py_range_length in Hi. lia. }
    exists m, w'. rewrite Hrun. rewrite py_range_length in Hc.
    destruct (Hlast N) as (_ & He & Ha).
    { rewrite py_range_snoc by lia. apply last_snoc. }
    split_and!; [done|lia|done|done].
  - intros K ack HK Hfail Hack. unfold send_one_file.
    rewrite (py_range_split 1 K (N + 1)) by lia.
    rewrite (py_range_cons K) by lia.
    edestruct (send_attempts_failed_run (py_range 1 K)) as
      (m1 & w1 & Hrun1 & Hfs1 & Hc1 & _); [exact Hfile| |].
    { intros i Hi. apply Hfail. rewrite py_range_length in Hi. lia. }
    rewrite py_range_length in Hc1.
    edestruct (send_attempts_acked K (py_range (K + 1) (N + 1)) m1 w1 ack) as
      (m2 & w2 & Hrun2 & _ & Hc2 & _ & Hack2 & Ha2 & _).
    { by rewrite Hfs1. }
    { by rewrite Hc1. }
    exists m2, w2. rewrite Hrun1, Hrun2. split_and!; [done|lia|done|done].
Qed.

(** C8, as the code has it.  Every attempt without an ACK records the
    no-ack error and is followed by one wait of one second, whether or
    not attempts remain: [N] attempts without an ACK cause [N] waits, the
    last of them after the final attempt; a first ACK on attempt [K] has
    been preceded by [K - 1] waits. *)
Theorem send_one_file_backoff (w : world) (N : Z) :
  (1 ≤ N)%Z →
  fs w !! filepath = Some (File payload) →
  ((∀ i, i < Z.to_nat N → transport_answer (connections w + i) = Ret None) →
   ∃ meta w',
     send_one_file filepath host port timeout tls cafile N w = (Ret (false, meta), w')
     ∧ dict_get "error" meta = Some no_ack
     ∧ sleeps_of (log w') = sleeps_of (log w) ++ replicate (Z.to_nat N) 1%Z
     ∧ last (log w') = Some (EvSleep 1))
  ∧ (∀ K ack, (1 ≤ K ≤ N)%Z →
       (∀ i, i < Z.to_nat (K - 1) → transport_answer (connections w + i) = Ret None) →
       transport_answer (connections w + Z.to_nat (K - 1)) = Ret (Some ack) →
       ∃ meta w',
         send_one_file filepath host port timeout tls cafile N w = (Ret (true, meta), w')
         ∧ sleeps_of (log w') = sleeps_of (log w) ++ replicate (Z.to_nat (K - 1)) 1%Z).
Proof.
  intros HN Hfile. split.
  - intros Hall. unfold send_one_file.
    rewrite <- (app_nil_r (py_range 1 (N + 1))).
    edestruct (send_attempts_failed_run (py_range 1 (N + 1)) []) as
      (m & w' & Hrun & _ & _ & Hs & _ & _ & Hlast); [exact Hfile| |].
    { intros i Hi. apply Hall. rewrite py_range_length in Hi. lia. }
    exists m, w'. rewrite Hrun. rewrite py_range_length in Hs.
    destruct (Hlast N) as (Hl & He & _).
    { rewrite py_range_snoc by lia. apply last_snoc. }
    split_and!; [done|done| |done].
    rewrite Hs. do 2 f_equal. lia.
  - intros K ack HK Hfail Hack. unfold send_one_file.
    rewrite (py_range_split 1 K (N + 1)) by lia.
    rewrite (py_range_cons K) by lia.
    edestruct (send_attempts_failed_run (py_range 1 K)) as
      (m1 & w1 & Hrun1 & Hfs1 & Hc1 & Hs1 & _); [exact Hfile| |].
    { intros i Hi. apply Hfail. rewrite py_range_length in Hi. lia. }
    rewrite py_range_length in Hc1, Hs1.
    edestruct (send_attempts_acked K (py_range (K + 1) (N + 1)) m1 w1 ack) as
      (m2 & w2 & Hrun2 & _ & _ & Hs2 & _).
    { by rewrite Hfs1. }
    { by rewrite Hc1. }
    exists m2, w2. rewrite Hrun1, Hrun2. split; [done|].
    rewrite Hs2, Hs1. done.
Qed.

(** C10. A success on attempt [K > 1] returns a record that holds both
    the decoded ACK and the no-ack error of the attempt before it: the
    error recorded by a failed attempt is never cleared. *)
Theorem send_one_file_keeps_error (w : world) (N K : Z) (ack : list byte) :
  (2 ≤ K ≤ N)%Z →
  fs w !! filepath = Some (File payload) →
  (∀ i, i < Z.to_nat (K - 1) → transport_answer (connections w + i) = Ret None) →
  transport_answer (connections w + Z.to_nat (K - 1)) = Ret (Some ack) →
  ∃ meta w',
    send_one_file filepath host port timeout tls cafile N w = (Ret (true, meta), w')
    ∧ dict_get "attempts" meta = Some (PInt K)
    ∧ dict_get "ack" meta = Some (PStr (decode_replace ack))
    ∧ dict_get "error" meta = Some no_ack.
Proof.
  intros HK Hfile Hfail Hack. unfold send_one_file.
  rewrite (py_range_split 1 K (N + 1)) by lia.
  rewrite (py_range_cons K) by lia.
  edestruct (send_attempts_failed_run (py_range 1 K)) as
    (m1 & w1 & Hrun1 & Hfs1 & Hc1 & _ & _ & _ & Hlast); [exact Hfile| |].
  { intros i Hi. apply Hfail. rewrite py_range_length in Hi. lia. }
  rewrite py_range_length in Hc1.
  destruct (Hlast (K - 1)%Z) as (_ & He1 & _).
  { replace K with (K - 1 + 1)%Z at 1 by lia.
    rewrite py_range_snoc by lia. apply last_snoc. }
  edestruct (send_attempts_acked K (py_range (K + 1) (N + 1)) m1 w1 ack) as
    (m2 & w2 & Hrun2 & _ & _ & _ & Hack2 & Ha2 & He2).
  { by rewrite Hfs1. }
  { by rewrite Hc1. }
  exists m2, w2. rewrite Hrun1, Hrun2. split_and!; [done..|].
  by rewrite He2.
Qed.

End Attempts.

(** * Properties of the promotion into Ready *)

Lemma write_file_ok p data w :
  fs w !! p ≠ Some Dir →
  write_file p data w = (Ret tt, set_fs (<[p := File data]> (fs w)) w).
Proof.
  intros H. unfold write_file. by destruct (fs w !! p) as [[]|].
Qed.

(** C6. When the basename of the document is already taken in Ready,
    [move_to_ready] without [force] raises [FileExistsError] for the
    destination and changes nothing: no payload is copied and no sidecar
    is written.  With [force], a regular file from elsewhere replaces the
    regular file in Ready, the sidecar is written, and the call returns
    the two paths. *)
Theorem move_to_ready_conflict (w : world) (path : string) :
  let dest := os_path_join READY_DIR (os_path_basename path) in
  let meta_path := dest +:+ META_EXT in
  (is_Some (fs w !! dest) →
   move_to_ready path false w = (Raise (FileExistsError dest), w))
  ∧ (∀ old content,
       fs w !! dest = Some (File old) →
       fs w !! path = Some (File content) →
       path ≠ dest →
       fs w !! meta_path ≠ Some Dir →
       ∃ w',
         move_to_ready path true w = (Ret (dest, meta_path), w')
         ∧ fs w' !! dest = Some (File content)
         ∧ fs w' !! meta_path =
             Some (File (json_dump [("moved_at", PStr (utcnow_isoformat_at (utc_reads w)));
                                    ("src", PStr path)]))
         ∧ ∀ p, p ≠ dest → p ≠ meta_path → fs w' !! p = fs w !! p).
Proof.
  intros dest meta_path. split.
  - intros Hdest. unfold move_to_ready. fold dest.
    unfold bind, os_path_exists. by rewrite bool_decide_eq_true_2.
  - intros old content Hdest Hpath Hne Hmeta.
    assert (dest ≠ meta_path) as Hdm by (apply string_app_ne; done).
    eexists. split.
    + unfold move_to_ready. fold dest. fold meta_path.
      unfold bind at 1, os_path_exists.
      rewrite bool_decide_eq_true_2 by (rewrite Hdest; eauto). simpl.
      unfold bind at 1, shutil_copy2.
      unfold bind at 1, os_path_isdir. rewrite Hdest.
      unfold bind at 1, os_path_exists.
      unfold bind at 1.
      rewrite bool_decide_eq_true_2 by (rewrite Hpath; eauto).
      rewrite bool_decide_eq_true_2 by (rewrite Hdest; eauto).
      rewrite (bool_decide_eq_false_2 (path = dest)) by done. simpl.
      unfold bind at 1, read_file. rewrite Hpath.
      rewrite write_file_ok by (rewrite Hdest; done).
      unfold bind at 1, utcnow_isoformat. simpl.
      unfold bind at 1.
      rewrite write_file_ok; [reflexivity|].
      simpl. by rewrite lookup_insert_ne.
    + simpl. split_and!.
      * rewrite lookup_insert_ne by done. by rewrite lookup_insert_eq.
      * by rewrite lookup_insert_eq.
      * intros p H1 H2. by rewrite !lookup_insert_ne.
Qed.

(** * The pipeline directories *)

(** An entry [n] of directory [d]. *)
Definition entry (d n : string) : string := d +:+ "/" +:+ n.

(** What the five directory paths have in common. *)
Definition root : string :=
  if bool_decide (BASE_DIR = "") || endswith BASE_DIR "/"
  then BASE_DIR else BASE_DIR +:+ "/".

Lemma os_path_join_base sub :
  startswith sub "/" = false → os_path_join BASE_DIR sub = root +:+ sub.
Proof.
  intros H. unfold os_path_join, root. rewrite H.
  destruct (bool_decide (BASE_DIR = "") || endswith BASE_DIR "/"); [done|].
  by rewrite string_app_assoc.
Qed.

Lemma READY_DIR_root : READY_DIR = root +:+ "ready".
Proof. by apply os_path_join_base. Qed.
Lemma SENT_DIR_root : SENT_DIR = root +:+ "sent".
Proof. by apply os_path_join_base. Qed.
Lemma FAILED_DIR_root : FAILED_DIR = root +:+ "failed".
Proof. by apply os_path_join_base. Qed.
Lemma ARCHIVE_DIR_root : ARCHIVE_DIR = root +:+ "archive".
Proof. by apply os_path_join_base. Qed.

(** The directories the queue works in. *)
Inductive pipeline_dir : string → Prop :=
| pd_ready : pipeline_dir READY_DIR
| pd_sent : pipeline_dir SENT_DIR
| pd_failed : pipeline_dir FAILED_DIR
| pd_archive : pipeline_dir ARCHIVE_DIR.

Lemma pipeline_dir_root d :
  pipeline_dir d →
  ∃ sub, d = root +:+ sub ∧ sub ∈ ["ready"; "sent"; "failed"; "archive"].
Proof.
  intros [].
  - exists "ready". split; [apply READY_DIR_root|]. rewrite !elem_of_cons. prop_tauto.
  - exists "sent". split; [apply SENT_DIR_root|]. rewrite !elem_of_cons. prop_tauto.
  - exists "failed". split; [apply FAILED_DIR_root|]. rewrite !elem_of_cons. prop_tauto.
  - exists "archive". split; [apply ARCHIVE_DIR_root|]. rewrite !elem_of_cons. prop_tauto.
Qed.

Lemma entry_inj d1 d2 n1 n2 :
  pipeline_dir d1 → pipeline_dir d2 →
  entry d1 n1 = entry d2 n2 → d1 = d2 ∧ n1 = n2.
Proof.
  intros (s1 & -> & Hs1)%pipeline_dir_root (s2 & -> & Hs2)%pipeline_dir_root.
  unfold entry. rewrite !string_app_assoc. intros Heq%(inj _).
  repeat (apply elem_of_cons in Hs1 as [->|Hs1]); [..|by apply elem_of_nil in Hs1];
  repeat (apply elem_of_cons in Hs2 as [->|Hs2]); try (by apply elem_of_nil in Hs2);
  vm_compute in Heq; first [discriminate Heq | by injection Heq as ->].
Qed.

Lemma entry_inj_name d n1 n2 : entry d n1 = entry d n2 → n1 = n2.
Proof. unfold entry. by intros ?%(inj _)%(inj _). Qed.

Lemma entry_ne_dir d1 d2 n1 n2 :
  pipeline_dir d1 → pipeline_dir d2 → d1 ≠ d2 → entry d1 n1 ≠ entry d2 n2.
Proof. intros H1 H2 Hne Heq. by apply entry_inj in Heq as [? _]. Qed.

Lemma entry_ne_name d1 d2 n1 n2 :
  pipeline_dir d1 → pipeline_dir d2 → n1 ≠ n2 → entry d1 n1 ≠ entry d2 n2.
Proof. intros H1 H2 Hne Heq. by apply entry_inj in Heq as [_ ?]. Qed.

Lemma pipeline_dirs_distinct :
  READY_DIR ≠ SENT_DIR ∧ READY_DIR ≠ FAILED_DIR ∧ READY_DIR ≠ ARCHIVE_DIR ∧
  SENT_DIR ≠ FAILED_DIR ∧ SENT_DIR ≠ ARCHIVE_DIR ∧ FAILED_DIR ≠ ARCHIVE_DIR.
Proof.
  rewrite READY_DIR_root, SENT_DIR_root, FAILED_DIR_root, ARCHIVE_DIR_root.
  split_and!; by intros ?%(inj _).
Qed.

Lemma entry_meta d n : entry d n +:+ META_EXT = entry d (n +:+ META_EXT).
Proof. unfold entry. by rewrite !string_app_assoc. Qed.

Lemma pipeline_dir_join d n :
  pipeline_dir d → contains "/" n = false → os_path_join d n = entry d n.
Proof.
  intros (s & -> & Hs)%pipeline_dir_root Hn. apply os_path_join_valid; [| |done].
  - repeat (apply elem_of_cons in Hs as [->|Hs]); [..|by apply elem_of_nil in Hs];
      by destruct root.
  - apply endswith_app_valid.
    repeat (apply elem_of_cons in Hs as [->|Hs]); [..|by apply elem_of_nil in Hs];
      by split.
Qed.

(** A path below an entry: where [shutil.move] and [shutil.copy2] put a
    file when the destination is a directory. *)
Lemma nested_entry d n src :
  pipeline_dir d → valid_name n →
  os_path_join (entry d n) (os_path_basename src) =
  entry d (n +:+ "/" +:+ os_path_basename src).
Proof.
  intros Hd Hn. rewrite os_path_join_valid.
  - unfold entry. by rewrite !string_app_assoc.
  - unfold entry. destruct d; [|done].
    by rewrite string_app_nil_l, string_app_cons.
  - unfold entry. rewrite <- string_app_assoc. by apply endswith_app_valid.
  - apply os_path_basename_no_slash.
Qed.

Lemma META_EXT_no_slash : contains "/" META_EXT = false.
Proof. done. Qed.

Lemma valid_name_meta n : valid_name n → valid_name (n +:+ META_EXT).
Proof. intros H. by apply valid_name_app. Qed.

Lemma valid_name_not_nested n x b : valid_name n → n ≠ x +:+ "/" +:+ b.
Proof. intros [_ Hn] ->. by rewrite slash_inside in Hn. Qed.

(** *** The order of the snapshot *)

Lemma string_le_app (s t : string) : String.le s (s +:+ t).
Proof.
  unfold String.le, String.leb.
  induction s as [|c s IH].
  - rewrite string_app_nil_l. by destruct t.
  - rewrite string_app_cons. simpl.
    assert (Ascii.compare c c = Eq) as ->; [|done].
    unfold Ascii.compare. apply N.compare_refl.
Qed.

(** [n] comes strictly before everything in [todo]. *)
Definition before (n : string) (todo : list string) : Prop :=
  ∀ t, t ∈ todo → String.le n t ∧ n ≠ t.

Lemma before_cons_inv n g todo : before n (g :: todo) → before n todo.
Proof. intros H t Ht. apply H. by right. Qed.

Lemma before_meta_absurd g todo : ¬ before (g +:+ META_EXT) (g :: todo).
Proof.
  intros H. destruct (H g) as [Hle Hne]; [by left|].
  apply Hne. apply (anti_symm String.le); [done|apply string_le_app].
Qed.

Lemma sorted_head_before g todo :
  StronglySorted String.le (g :: todo) → NoDup (g :: todo) → before g todo.
Proof.
  intros Hs Hnd t Ht.
  apply StronglySorted_inv in Hs as [_ Hall].
  apply NoDup_cons in Hnd as [Hg _].
  rewrite Forall_forall in Hall. split; [by apply Hall|].
  intros ->. done.
Qed.

(** * What the file-system calls change *)

(** [m] leaves every path outside [P] as it was. *)
Definition touches {A} (P : string → Prop) (m : M A) : Prop :=
  ∀ w r w', m w = (r, w') → ∀ p, ¬ P p → fs w' !! p = fs w !! p.

Lemma touches_mono {A} (P Q : string → Prop) (m : M A) :
  (∀ p, P p → Q p) → touches P m → touches Q m.
Proof. intros HPQ Hm w r w' Hrun p Hp. eapply Hm; eauto. Qed.

Lemma touches_ret {A} P (a : A) : touches P (ret a).
Proof. by intros w r w' [= _ <-]. Qed.

Lemma touches_raise {A} P e : touches P (raise e : M A).
Proof. by intros w r w' [= _ <-]. Qed.

Lemma touches_bind {A B} P (m : M A) (k : A → M B) :
  touches P m → (∀ a, touches P (k a)) → touches P (bind m k).
Proof.
  intros Hm Hk w r w' Hrun p Hp. unfold bind in Hrun.
  destruct (m w) as [[a|e] w1] eqn:Hmw.
  - rewrite (Hk a w1 r w' Hrun p Hp). by eapply Hm.
  - injection Hrun as _ <-. by eapply Hm.
Qed.

Lemma touches_catch {A} P (m : M A) (h : exn → M A) :
  touches P m → (∀ e, touches P (h e)) → touches P (catch m h).
Proof.
  intros Hm Hh w r w' Hrun p Hp. unfold catch in Hrun.
  destruct (m w) as [[a|e] w1] eqn:Hmw.
  - injection Hrun as _ <-. by eapply Hm.
  - rewrite (Hh e w1 r w' Hrun p Hp). by eapply Hm.
Qed.

Lemma touches_pure {A} P (m : M A) :
  (∀ w, fs (m w).2 = fs w) → touches P m.
Proof.
  intros H w r w' Hrun p _. specialize (H w). rewrite Hrun in H. simpl in H.
  by rewrite H.
Qed.

Lemma touches_os_path_exists P p : touches P (os_path_exists p).
Proof. by apply touches_pure. Qed.
Lemma touches_os_path_isfile P p : touches P (os_path_isfile p).
Proof. by apply touches_pure. Qed.
Lemma touches_os_path_isdir P p : touches P (os_path_isdir p).
Proof. by apply touches_pure. Qed.
Lemma touches_read_file P p : touches P (read_file p).
Proof.
  apply touches_pure. intros w. unfold read_file.
  by destruct (fs w !! p) as [[]|].
Qed.
Lemma touches_utcnow_isoformat P : touches P utcnow_isoformat.
Proof. by apply touches_pure. Qed.
Lemma touches_time_sleep P n : touches P (time_sleep n).
Proof. by apply touches_pure. Qed.
Lemma touches_mllp_send P host port payload timeout tls cafile :
  touches P (mllp_send host port payload timeout tls cafile).
Proof.
  apply touches_pure. intros w. unfold mllp_send.
  by destruct (mllp_send_on _ _ _ _ _ _ _).
Qed.

Lemma touches_write_file p data : touches (λ q, q = p) (write_file p data).
Proof.
  intros w r w' Hrun q Hq. unfold write_file in Hrun.
  destruct (fs w !! p) as [[]|]; injection Hrun as _ <-; simpl;
    by rewrite ?lookup_insert_ne.
Qed.

Lemma touches_os_rename src dst :
  touches (λ q, q = src ∨ q = dst) (os_rename src dst).
Proof.
  intros w r w' Hrun q Hq. unfold os_rename in Hrun.
  destruct (fs w !! src) as [[]|]; injection Hrun as _ <-; simpl; [|done..].
  rewrite lookup_insert_ne, lookup_delete_ne; [done|intros ->; prop_tauto|intros ->; prop_tauto].
Qed.

(** Where a file lands when the destination is a directory. *)
Definition nested (dst src : string) : string :=
  os_path_join dst (os_path_basename src).

Lemma touches_shutil_move src dst :
  touches (λ q, q = src ∨ q = dst ∨ q = nested dst src) (shutil_move src dst).
Proof.
  unfold shutil_move. apply touches_bind; [apply touches_os_path_isdir|].
  intros []; [apply touches_bind; [apply touches_os_path_exists|]; intros []|].
  - apply touches_raise.
  - eapply touches_mono; [|apply touches_os_rename]. intros q [-> | ->]; auto.
  - eapply touches_mono; [|apply touches_os_rename]. intros q [-> | ->]; auto.
Qed.

Lemma touches_shutil_copy2 src dst :
  touches (λ q, q = dst ∨ q = nested dst src) (shutil_copy2 src dst).
Proof.
  unfold shutil_copy2. apply touches_bind; [apply touches_os_path_isdir|].
  intros is_dir. apply touches_bind; [apply touches_os_path_exists|].
  intros a. apply touches_bind; [apply touches_os_path_exists|].
  intros b. destruct (_ && _); [apply touches_raise|].
  apply touches_bind; [apply touches_read_file|]. intros content.
  eapply touches_mono; [|apply touches_write_file].
  intros q ->. destruct is_dir; [by right|by left].
Qed.

Lemma touches_send_attempts P filepath host port timeout tls cafile attempts meta :
  touches P (send_attempts filepath host port timeout tls cafile attempts meta).
Proof.
  revert meta. induction attempts as [|a attempts IH]; intros meta; simpl.
  - apply touches_ret.
  - apply touches_bind.
    + apply touches_catch; [|intros; apply touches_ret].
      apply touches_bind; [apply touches_read_file|]. intros; apply touches_ret.
    + intros [payload|e]; [|apply touches_ret].
      apply touches_bind; [apply touches_mllp_send|]. intros resp.
      apply touches_bind; [apply touches_utcnow_isoformat|]. intros now.
      destruct resp; [apply touches_ret|].
      apply touches_bind; [apply touches_time_sleep|]. intros _. apply IH.
Qed.

Lemma send_one_file_fs filepath host port timeout tls cafile N w r w' :
  send_one_file filepath host port timeout tls cafile N w = (r, w') → fs w' = fs w.
Proof.
  intros Hrun. apply map_eq. intros p.
  eapply (touches_send_attempts (λ _, False)); [exact Hrun|prop_tauto].
Qed.

(** A block whose handler swallows the exception always ends normally. *)
Lemma catch_swallow (m : M unit) w :
  ∃ w', catch m (λ _, ret tt) w = (Ret tt, w').
Proof.
  unfold catch. destruct (m w) as [[[]|e] w1]; eauto.
Qed.

Lemma bind_ret_tt (m : M unit) w w' :
  m w = (Ret tt, w') → (let! _ := m in ret tt) w = (Ret tt, w').
Proof. intros H. unfold bind. by rewrite H. Qed.

(** Moving a regular file to a free path. *)
Lemma shutil_move_free src dst content w :
  fs w !! src = Some (File content) → fs w !! dst = None →
  shutil_move src dst w =
  (Ret tt, set_fs (<[dst := File content]> (delete src (fs w))) w).
Proof.
  intros Hsrc Hdst. unfold shutil_move, bind, os_path_isdir, os_rename.
  by rewrite Hdst, Hsrc.
Qed.

(** * One file of the queue *)

Section QueueRun.

Variables (host : string) (port : Z) (timeout : float) (tls : bool)
  (cafile : option string) (max_attempts : Z) (archive_on_sent : bool).

Local Abbreviation process :=
  (process_ready_file host port timeout tls cafile max_attempts archive_on_sent).
Local Abbreviation deliver fname :=
  (send_one_file (os_path_join READY_DIR fname) host port timeout tls cafile max_attempts).

(** The record a file starts with (line 235). *)
Definition fresh_record (fname : string) : dict :=
  [("file", PStr fname); ("attempts", PInt 0); ("sent_at", PNone);
   ("ack", PNone); ("error", PNone)].

(** The directory the loop body chooses for the file [fname] with
    content [c] when its turn comes in world [w]: [FAILED_DIR] for a
    content that does not validate, and otherwise [SENT_DIR] or
    [FAILED_DIR] as the delivery succeeds or fails. *)
Definition placed (w : world) (c : list byte) (fname : string) : string :=
  if (basic_validate_edifact_bytes c).1 then
    match deliver fname w with
    | (Ret (true, _), _) => SENT_DIR
    | _ => FAILED_DIR
    end
  else FAILED_DIR.

(** The record it writes into the sidecar. *)
Definition sidecar_record (w : world) (c : list byte) (fname : string) : dict :=
  let '(ok, note) := basic_validate_edifact_bytes c in
  if ok then
    match deliver fname w with
    | (Ret (_, send_meta), _) => dict_update (fresh_record fname) send_meta
    | _ => fresh_record fname
    end
  else dict_set "error" (PStr ("validation_failed:" +:+ note)) (fresh_record fname).

Definition other (d : string) : string :=
  if bool_decide (d = SENT_DIR) then FAILED_DIR else SENT_DIR.

Lemma placed_cases w c fname :
  (placed w c fname = SENT_DIR ∧ other (placed w c fname) = FAILED_DIR) ∨
  (placed w c fname = FAILED_DIR ∧ other (placed w c fname) = SENT_DIR).
Proof.
  assert (FAILED_DIR ≠ SENT_DIR) as Hne.
  { intros Heq. destruct pipeline_dirs_distinct as (_ & _ & _ & H & _). by apply H. }
  unfold placed, other.
  destruct (basic_validate_edifact_bytes c).1.
  - destruct (deliver fname w) as [[[[] ?]|?] ?].
    + left. by rewrite bool_decide_eq_true_2.
    + right. by rewrite bool_decide_eq_false_2.
    + right. by rewrite bool_decide_eq_false_2.
  - right. by rewrite bool_decide_eq_false_2.
Qed.

(** The paths the relocation of a sidecar and the archive copies can
    change, for a file placed in [d]. *)
Definition archive_paths (q : string) : Prop :=
  (∃ dd x b, pipeline_dir dd ∧ q = entry dd (x +:+ "/" +:+ b))
  ∨ (∃ x, q = entry ARCHIVE_DIR x).

Definition tail_paths (d fname q : string) : Prop :=
  q = entry READY_DIR (fname +:+ META_EXT)
  ∨ q = entry d (fname +:+ META_EXT)
  ∨ archive_paths q.

(** The sidecar block, with or without the test of line 243. *)
Definition sidecar_block (guarded : bool) (src dst : string) : M unit :=
  if guarded then
    catch (let! there := os_path_exists src in
           if there then shutil_move src dst else ret tt)
          (λ _, ret tt)
  else catch (shutil_move src dst) (λ _, ret tt).

Lemma sidecar_block_effect guarded d fname w :
  pipeline_dir d → valid_name fname →
  let src := entry READY_DIR (fname +:+ META_EXT) in
  let dst := entry d (fname +:+ META_EXT) in
  ∃ w', sidecar_block guarded src dst w = (Ret tt, w')
    ∧ (∀ q, ¬ tail_paths d fname q → fs w' !! q = fs w !! q)
    ∧ (∀ j, fs w !! src = Some (File j) → fs w !! dst = None →
         fs w' = <[dst := File j]> (delete src (fs w))).
Proof.
  intros Hd Hf src dst.
  assert (touches (tail_paths d fname) (sidecar_block guarded src dst)) as Hframe.
  { assert (touches (tail_paths d fname) (shutil_move src dst)) as Hmv.
    { eapply touches_mono; [|apply touches_shutil_move].
      intros q [-> | [-> | ->]]; [by left|by right; left|].
      right; right; left. unfold nested, dst.
      rewrite nested_entry by (done || by apply valid_name_meta). eauto. }
    destruct guarded; simpl.
    - apply touches_catch; [|intros; apply touches_ret].
      apply touches_bind; [apply touches_os_path_exists|].
      intros []; [done|apply touches_ret].
    - apply touches_catch; [done|intros; apply touches_ret]. }
  assert (∃ w', sidecar_block guarded src dst w = (Ret tt, w')) as [w' Hrun].
  { destruct guarded; apply catch_swallow. }
  exists w'. split_and!; [done|by eapply Hframe|].
  intros j Hsrc Hdst.
  destruct guarded; simpl in Hrun; unfold catch in Hrun.
  - unfold bind at 1, os_path_exists in Hrun.
    rewrite bool_decide_eq_true_2 in Hrun by (rewrite Hsrc; eauto).
    rewrite (shutil_move_free _ _ j) in Hrun by done. by injection Hrun as <-.
  - rewrite (shutil_move_free _ _ j) in Hrun by done. by injection Hrun as <-.
Qed.

(** The archive block of lines 258-264. *)
Definition archive_block (dest fname : string) : M unit :=
  catch (let! _ := shutil_copy2 dest (os_path_join ARCHIVE_DIR fname) in
         let! there := os_path_exists (dest +:+ META_EXT) in
         if there
         then shutil_copy2 (dest +:+ META_EXT)
                (os_path_join ARCHIVE_DIR (fname +:+ META_EXT))
         else ret tt)
        (λ _, ret tt).

Lemma archive_block_effect dest fname w :
  valid_name fname →
  ∃ w', archive_block dest fname w = (Ret tt, w')
    ∧ (∀ q, ¬ archive_paths q → fs w' !! q = fs w !! q).
Proof.
  intros Hf.
  destruct (catch_swallow
    (let! _ := shutil_copy2 dest (os_path_join ARCHIVE_DIR fname) in
     let! there := os_path_exists (dest +:+ META_EXT) in
     if there
     then shutil_copy2 (dest +:+ META_EXT)
            (os_path_join ARCHIVE_DIR (fname +:+ META_EXT))
     else ret tt) w) as [w' Hrun].
  exists w'. split; [done|].
  assert (∀ src n, valid_name n →
            touches archive_paths
              (shutil_copy2 src (os_path_join ARCHIVE_DIR n))) as Hcp.
  { intros src n Hn. rewrite pipeline_dir_join by (apply Hn || constructor).
    eapply touches_mono; [|apply touches_shutil_copy2].
    intros q [-> | ->]; [right; by eexists|left].
    unfold nested. rewrite nested_entry by (done || constructor).
    eexists _, _, _. split; [|done]. constructor. }
  refine (touches_catch _ _ _ _ _ w _ w' Hrun); [|intros; apply touches_ret].
  apply touches_bind; [by apply Hcp|]. intros _.
  apply touches_bind; [apply touches_os_path_exists|].
  intros []; [|apply touches_ret].
  apply Hcp. by apply valid_name_meta.
Qed.

(** The loop body with its paths written as directory entries. *)
Lemma process_ready_file_entries fname :
  valid_name fname →
  process fname =
  (let! is_file := os_path_isfile (entry READY_DIR fname) in
   if negb is_file then ret tt
   else
     let! (ok, prev) := validate_file (entry READY_DIR fname) in
     if negb ok then
       let! _ := write_file (entry READY_DIR (fname +:+ META_EXT))
                   (json_dump (dict_set "error" (PStr ("validation_failed:" +:+ prev))
                                 (fresh_record fname))) in
       let! _ := shutil_move (entry READY_DIR fname) (entry FAILED_DIR fname) in
       sidecar_block true (entry READY_DIR (fname +:+ META_EXT))
                          (entry FAILED_DIR (fname +:+ META_EXT))
     else
       let! (success, send_meta) := deliver fname in
       let! _ := write_file (entry READY_DIR (fname +:+ META_EXT))
                   (json_dump (dict_update (fresh_record fname) send_meta)) in
       if success then
         let! _ := shutil_move (entry READY_DIR fname) (entry SENT_DIR fname) in
         let! _ := sidecar_block false (entry READY_DIR (fname +:+ META_EXT))
                                       (entry SENT_DIR (fname +:+ META_EXT)) in
         if archive_on_sent then archive_block (entry SENT_DIR fname) fname
         else ret tt
       else
         let! _ := shutil_move (entry READY_DIR fname) (entry FAILED_DIR fname) in
         sidecar_block false (entry READY_DIR (fname +:+ META_EXT))
                             (entry FAILED_DIR (fname +:+ META_EXT))).
Proof.
  intros [Hne Hn]. unfold process_ready_file, write_meta_for_send, archive_block.
  rewrite <- !entry_meta.
  rewrite <- !(pipeline_dir_join _ fname) by (done || constructor).
  reflexivity.
Qed.

(** Deciding whether two entries are the same path. *)
Ltac entry_ne :=
  first
    [ apply entry_ne_dir; [constructor|constructor|];
      first [ apply pipeline_dirs_distinct
            | apply not_eq_sym; apply pipeline_dirs_distinct ]
    | apply entry_ne_name; [constructor|constructor|];
      first [ assumption | apply not_eq_sym; assumption ] ].

Ltac fs_lookup :=
  repeat first
    [ rewrite lookup_insert_eq
    | rewrite lookup_delete_eq
    | rewrite lookup_insert_ne by entry_ne
    | rewrite lookup_delete_ne by entry_ne ].

(** What the loop body does to a regular file of Ready whose name is free
    in Sent and in Failed, when it ends normally. *)
Lemma process_ready_file_effect w fname c w' :
  valid_name fname →
  fs w !! entry READY_DIR fname = Some (File c) →
  fs w !! entry SENT_DIR fname = None →
  fs w !! entry FAILED_DIR fname = None →
  process fname w = (Ret tt, w') →
  let d := placed w c fname in
  fs w' !! entry READY_DIR fname = None
  ∧ fs w' !! entry d fname = Some (File c)
  ∧ fs w' !! entry (other d) fname = None
  ∧ fs w !! entry READY_DIR (fname +:+ META_EXT) ≠ Some Dir
  ∧ (fs w !! entry SENT_DIR (fname +:+ META_EXT) = None →
     fs w !! entry FAILED_DIR (fname +:+ META_EXT) = None →
     fs w' !! entry READY_DIR (fname +:+ META_EXT) = None
     ∧ fs w' !! entry d (fname +:+ META_EXT) =
         Some (File (json_dump (sidecar_record w c fname)))
     ∧ fs w' !! entry (other d) (fname +:+ META_EXT) = None)
  ∧ (∀ k n, k = READY_DIR ∨ k = SENT_DIR ∨ k = FAILED_DIR →
       valid_name n → n ≠ fname → n ≠ fname +:+ META_EXT →
       fs w' !! entry k n = fs w !! entry k n).
Proof.
  intros Hf Hready Hsent Hfailed Hrun d.
  assert (fname ≠ fname +:+ META_EXT) as Hfm by (by apply string_app_ne).
  assert (fname +:+ META_EXT ≠ fname) as Hmf by (by apply not_eq_sym).
  (* the run, up to the relocation of the payload *)
  assert (∃ (j : list byte) (w3 : world) (guarded archive : bool),
    fs w !! entry READY_DIR (fname +:+ META_EXT) ≠ Some Dir
    ∧ j = json_dump (sidecar_record w c fname)
    ∧ fs w3 = <[entry d fname := File c]>
                (delete (entry READY_DIR fname)
                   (<[entry READY_DIR (fname +:+ META_EXT) := File j]> (fs w)))
    ∧ (let! _ := sidecar_block guarded (entry READY_DIR (fname +:+ META_EXT))
                   (entry d (fname +:+ META_EXT)) in
       if archive then archive_block (entry d fname) fname else ret tt) w3
      = (Ret tt, w')) as (j & w3 & guarded & archive & Hnodir & Hj & Hw3 & Htail).
  { rewrite process_ready_file_entries in Hrun by done.
    unfold bind at 1, os_path_isfile in Hrun. rewrite Hready in Hrun. simpl in Hrun.
    unfold bind at 1, validate_file, bind at 1, read_file in Hrun.
    rewrite Hready in Hrun. simpl in Hrun.
    unfold d, placed, sidecar_record.
    destruct (basic_validate_edifact_bytes c) as [[] note]; simpl in Hrun |- *.
    - (* valid: delivery first *)
      unfold bind at 1 in Hrun.
      destruct (deliver fname w) as [[[success send_meta]|e] w1] eqn:Hsend;
        [|discriminate].
      apply send_one_file_fs in Hsend as Hfs1.
      unfold bind at 1 in Hrun.
      destruct (decide (fs w !! entry READY_DIR (fname +:+ META_EXT) = Some Dir))
        as [Hdir|Hnodir].
      { unfold write_file in Hrun. rewrite Hfs1, Hdir in Hrun. discriminate. }
      rewrite write_file_ok in Hrun by (by rewrite Hfs1).
      destruct success.
      + unfold bind at 1 in Hrun.
        erewrite shutil_move_free in Hrun;
          [|simpl; rewrite Hfs1; fs_lookup; done..].
        eexists _, _, false, archive_on_sent.
        split_and!; [done|done| |exact Hrun].
        simpl. by rewrite Hfs1.
      + unfold bind at 1 in Hrun.
        erewrite shutil_move_free in Hrun;
          [|simpl; rewrite Hfs1; fs_lookup; done..].
        eexists _, _, false, false.
        split_and!; [done|done| |].
        2:{ apply bind_ret_tt. exact Hrun. }
        simpl. by rewrite Hfs1.
    - (* invalid *)
      unfold bind at 1 in Hrun.
      destruct (decide (fs w !! entry READY_DIR (fname +:+ META_EXT) = Some Dir))
        as [Hdir|Hnodir].
      { unfold write_file in Hrun. rewrite Hdir in Hrun. discriminate. }
      rewrite write_file_ok in Hrun by done.
      unfold bind at 1 in Hrun.
      erewrite shutil_move_free in Hrun; [|simpl; fs_lookup; done..].
      eexists _, _, true, false.
      split_and!; [done|done| |].
      2:{ apply bind_ret_tt. exact Hrun. }
      simpl. reflexivity. }
  (* the sidecar and archive blocks *)
  assert (pipeline_dir d ∧ pipeline_dir (other d) ∧ d ≠ other d
          ∧ (d = SENT_DIR ∨ d = FAILED_DIR)
          ∧ (other d = SENT_DIR ∨ other d = FAILED_DIR)) as (Hd & Hd' & Hdd & Hdc & Hdc').
  { destruct pipeline_dirs_distinct as (_ & _ & _ & Hsf & _). unfold d.
    destruct (placed_cases w c fname) as [[-> ->]|[-> ->]];
      split_and!;
      first [by left | by right | done | by apply not_eq_sym | by constructor]. }
  clearbody d.
  unfold bind in Htail.
  destruct (sidecar_block_effect guarded d fname w3 Hd Hf) as (w4 & Hsb & Hframe4 & Hexact4).
  rewrite Hsb in Htail.
  assert (∀ q, ¬ tail_paths d fname q → fs w' !! q = fs w4 !! q) as Hframe5.
  { destruct archive.
    - destruct (archive_block_effect (entry d fname) fname w4 Hf) as (w5 & Hab & Hfr).
      rewrite Hab in Htail. injection Htail as <-.
      intros q Hq. apply Hfr. intros Ha. apply Hq. by right; right.
    - by injection Htail as <-. }
  assert (∀ k n, pipeline_dir k → k ≠ ARCHIVE_DIR → valid_name n →
            (n = fname +:+ META_EXT → k ≠ READY_DIR ∧ k ≠ d) →
            ¬ tail_paths d fname (entry k n)) as Hout.
  { intros k n Hk Hka Hn Hmeta [Heq|[Heq|[(dd & x & b & Hdd' & Heq)|[x Heq]]]].
    - apply entry_inj in Heq as [-> ->]; [|done|constructor]. by destruct Hmeta.
    - apply entry_inj in Heq as [-> ->]; [|done..]. by destruct Hmeta.
    - apply entry_inj in Heq as [_ ->]; [|done..].
      by eapply valid_name_not_nested.
    - apply entry_inj in Heq as [-> _]; [|done|constructor]. done. }
  assert (pipeline_dir READY_DIR) as HR by constructor.
  assert (READY_DIR ≠ ARCHIVE_DIR ∧ d ≠ ARCHIVE_DIR ∧ other d ≠ ARCHIVE_DIR
          ∧ READY_DIR ≠ d ∧ READY_DIR ≠ other d) as (HRA & HdA & Hd'A & HRd & HRd').
  { destruct pipeline_dirs_distinct as (? & ? & ? & ? & ? & ?).
    destruct Hdc as [-> | ->], Hdc' as [-> | ->]; split_and!; auto. }
  assert (fs w !! entry d fname = None ∧ fs w !! entry (other d) fname = None)
    as [Hdfree Hd'free].
  { destruct Hdc as [-> | ->], Hdc' as [-> | ->]; auto. }
  split_and!.
  - rewrite Hframe5, Hframe4 by (apply Hout; auto; intros; done).
    rewrite Hw3. rewrite lookup_insert_ne by (by apply entry_ne_dir).
    by rewrite lookup_delete_eq.
  - rewrite Hframe5, Hframe4 by (apply Hout; auto; intros; done).
    rewrite Hw3. by rewrite lookup_insert_eq.
  - rewrite Hframe5, Hframe4 by (apply Hout; auto; intros; done).
    rewrite Hw3. rewrite lookup_insert_ne by (by apply entry_ne_dir).
    rewrite lookup_delete_ne by (by apply entry_ne_dir).
    rewrite lookup_insert_ne by (by apply entry_ne_name).
    done.
  - done.
  - intros Hsm Hfmeta.
    assert (fs w !! entry d (fname +:+ META_EXT) = None
            ∧ fs w !! entry (other d) (fname +:+ META_EXT) = None) as [Hdm Hd'm].
    { destruct Hdc as [-> | ->], Hdc' as [-> | ->]; auto. }
    assert (fs w4 = <[entry d (fname +:+ META_EXT) := File j]>
                      (delete (entry READY_DIR (fname +:+ META_EXT)) (fs w3))) as Hw4.
    { apply Hexact4; rewrite Hw3.
      - rewrite lookup_insert_ne by (by apply entry_ne_dir).
        rewrite lookup_delete_ne by (by apply entry_ne_name).
        by rewrite lookup_insert_eq.
      - rewrite lookup_insert_ne by (by apply entry_ne_name).
        rewrite lookup_delete_ne by (by apply entry_ne_dir).
        rewrite lookup_insert_ne by (by apply entry_ne_dir).
        done. }
    assert (∀ q, (∃ k, pipeline_dir k ∧ k ≠ ARCHIVE_DIR ∧ q = entry k (fname +:+ META_EXT)) →
              fs w' !! q = fs w4 !! q) as Hmeta5.
    { intros q (k & Hk & Hka & ->). destruct archive; [|by injection Htail as <-].
      edestruct (archive_block_effect (entry d fname) fname w4 Hf)
        as (w5 & Hab & Hfr).
      rewrite Hab in Htail. injection Htail as <-. apply Hfr.
      intros [(dd & x & b & Hdd' & Heq)|[x Heq]].
      - apply entry_inj in Heq as [_ Heq]; [|done..].
        revert Heq. apply valid_name_not_nested. by apply valid_name_meta.
      - apply entry_inj in Heq as [-> _]; [|done|constructor]. done. }
    split_and!.
    + rewrite Hmeta5 by eauto. rewrite Hw4.
      rewrite lookup_insert_ne by (by apply entry_ne_dir).
      by rewrite lookup_delete_eq.
    + rewrite Hmeta5 by eauto. rewrite Hw4, lookup_insert_eq. by rewrite Hj.
    + rewrite Hmeta5 by eauto. rewrite Hw4.
      rewrite lookup_insert_ne by (by apply entry_ne_dir).
      rewrite lookup_delete_ne by (by apply entry_ne_dir).
      rewrite Hw3.
      rewrite lookup_insert_ne by (by apply entry_ne_name).
      rewrite lookup_delete_ne by (by apply entry_ne_name).
      rewrite lookup_insert_ne by (by apply entry_ne_dir).
      done.
  - intros k n Hk Hn Hnf Hnm.
    assert (pipeline_dir k ∧ k ≠ ARCHIVE_DIR) as [Hkp Hka].
    { destruct pipeline_dirs_distinct as (? & ? & ? & ? & ? & ?).
      destruct Hk as [-> | [-> | ->]]; split; (constructor || done). }
    rewrite Hframe5, Hframe4 by (apply Hout; auto; intros; done).
    rewrite Hw3.
    rewrite lookup_insert_ne by (by apply entry_ne_name).
    rewrite lookup_delete_ne by (by apply entry_ne_name).
    rewrite lookup_insert_ne by (by apply entry_ne_name).
    done.
Qed.

End QueueRun.

(** * The queue *)

Lemma strip_prefix_spec p s r : strip_prefix p s = Some r ↔ s = p +:+ r.
Proof.
  revert s. induction p as [|a p IH]; intros s; simpl.
  - rewrite string_app_nil_l. split; congruence.
  - destruct s as [|b s]; [by rewrite string_app_cons|].
    rewrite string_app_cons. case_bool_decide as Hab.
    + subst b. rewrite IH. split; [by intros ->|by intros [= ->]].
    + split; [done|]. intros [= ? _]. congruence.
Qed.

Lemma child_name_spec d p n :
  child_name d p = Some n ↔ p = entry d n ∧ valid_name n.
Proof.
  unfold child_name, valid_name, entry.
  destruct (strip_prefix (d +:+ "/") p) as [r|] eqn:Hr.
  - apply strip_prefix_spec in Hr. rewrite string_app_assoc in Hr. subst p.
    destruct (bool_decide (r = "")) eqn:Hnil; simpl.
    + apply bool_decide_eq_true in Hnil. subst r. split; [done|].
      intros [?%(inj _)%(inj _) [? _]]. congruence.
    + apply bool_decide_eq_false in Hnil.
      destruct (contains "/" r) eqn:Hs.
      * split; [done|]. intros [?%(inj _)%(inj _) [_ ?]]. congruence.
      * split; [by intros [= <-]|]. by intros [->%(inj _)%(inj _) _].
  - split; [done|]. intros [-> _].
    assert (strip_prefix (d +:+ "/") (d +:+ "/" +:+ n) = Some n) as H.
    { apply strip_prefix_spec. by rewrite string_app_assoc. }
    congruence.
Qed.

(** The snapshot: the filter keeps every name, and the result is the
    sorted list of the names. *)
Lemma ready_snapshot_all names : ready_snapshot names = sorted names.
Proof.
  unfold ready_snapshot. f_equal.
  induction names as [|n names IH]; [done|].
  rewrite filter_cons_True, IH; [done|]. by rewrite orb_true_r.
Qed.

Section Queue.

Variables (host : string) (port : Z) (timeout : float) (tls : bool)
  (cafile : option string) (max_attempts : Z) (archive_on_sent : bool).

Local Abbreviation process :=
  (process_ready_file host port timeout tls cafile max_attempts archive_on_sent).
Local Abbreviation placed_in :=
  (placed host port timeout tls cafile max_attempts).
Local Abbreviation record_of :=
  (sidecar_record host port timeout tls cafile max_attempts).
Local Abbreviation in_ready n := (entry READY_DIR n).
Local Abbreviation in_sent n := (entry SENT_DIR n).
Local Abbreviation in_failed n := (entry FAILED_DIR n).

(** A regular file of Ready, by name and content. *)
Definition ready_file (w : world) (n : string) (c : list byte) : Prop :=
  valid_name n ∧ fs w !! in_ready n = Some (File c).

(** The name of the sidecar of a regular file of Ready. *)
Definition sidecar_of_ready (w : world) (n : string) : Prop :=
  ∃ h c, ready_file w h c ∧ n = h +:+ META_EXT.

Definition in_exactly_one (w : world) (n : string) : Prop :=
  (is_Some (fs w !! in_sent n) ∧ fs w !! in_failed n = None) ∨
  (fs w !! in_sent n = None ∧ is_Some (fs w !! in_failed n)).

(** Where the file [n] with content [c] and its sidecar are, once the
    loop body has dealt with it in world [wn]. *)
Definition settled (w0 wn w : world) (n : string) (c : list byte) : Prop :=
  let d := placed_in wn c n in
  fs w !! entry d n = Some (File c)
  ∧ (fs w0 !! in_sent (n +:+ META_EXT) = None →
     fs w0 !! in_failed (n +:+ META_EXT) = None →
     fs w !! entry d (n +:+ META_EXT) = Some (File (json_dump (record_of wn c n)))
     ∧ fs w !! entry (other d) (n +:+ META_EXT) = None
     ∧ fs w !! in_ready (n +:+ META_EXT) = None).

Lemma os_listdir_spec w :
  ∃ names, os_listdir READY_DIR w = (Ret names, w)
    ∧ NoDup names
    ∧ ∀ n, n ∈ names ↔ valid_name n ∧ is_Some (fs w !! in_ready n).
Proof.
  eexists. split; [reflexivity|]. split.
  - pose proof (NoDup_elements (dom (fs w))) as Hnd.
    induction Hnd as [|p l Hp Hnd IH]; [constructor|]. simpl.
    destruct (child_name READY_DIR p) as [n|] eqn:Hn; [|done].
    constructor; [|done]. intros (q & Hq & Hqn)%list_elem_of_omap.
    apply child_name_spec in Hn as [-> _]. apply child_name_spec in Hqn as [-> _].
    done.
  - intros n. rewrite list_elem_of_omap. split.
    + intros (p & Hp & [-> Hn]%child_name_spec). split; [done|].
      by apply elem_of_elements, elem_of_dom in Hp.
    + intros [Hn Hsome]. exists (in_ready n). split.
      * by apply elem_of_elements, elem_of_dom.
      * by apply child_name_spec.
Qed.

Lemma process_not_file w g :
  valid_name g →
  (∀ c, fs w !! in_ready g ≠ Some (File c)) →
  process g w = (Ret tt, w).
Proof.
  intros Hg Hnf. rewrite process_ready_file_entries by done.
  unfold bind, os_path_isfile.
  destruct (fs w !! in_ready g) as [[c|]|] eqn:Hl; [by destruct (Hnf c)|done..].
Qed.

(** The state of the run when the names in [todo] are still to come. *)
Definition queue_inv (w0 : world) (todo : list string) (w : world) : Prop :=
  (∀ n c, ready_file w0 n c →
     (n ∈ todo ∧ (∃ c', fs w !! in_ready n = Some (File c'))
      ∧ fs w !! in_sent n = None ∧ fs w !! in_failed n = None)
     ∨ (fs w !! in_ready n = None ∧ in_exactly_one w n
        ∧ (before n todo ∨ ∃ h, n = h +:+ META_EXT ∧ before h todo)))
  ∧ (∀ n, valid_name n → fs w0 !! in_ready n = Some Dir →
       fs w !! in_ready n = Some Dir)
  ∧ (∀ n c, ready_file w0 n c → ¬ sidecar_of_ready w0 n →
       (n ∈ todo ∧ fs w !! in_ready n = Some (File c)
        ∧ fs w !! in_sent (n +:+ META_EXT) = fs w0 !! in_sent (n +:+ META_EXT)
        ∧ fs w !! in_failed (n +:+ META_EXT) = fs w0 !! in_failed (n +:+ META_EXT))
       ∨ (∃ wn, fs wn !! in_ready n = Some (File c) ∧ settled w0 wn w n c)).

(** No regular file of Ready has its name already taken in Sent or in
    Failed. *)
Definition names_free (w0 : world) : Prop :=
  ∀ n c, ready_file w0 n c →
    fs w0 !! in_sent n = None ∧ fs w0 !! in_failed n = None.

Lemma queue_inv_start w0 names :
  names_free w0 →
  (∀ n, n ∈ names ↔ valid_name n ∧ is_Some (fs w0 !! in_ready n)) →
  queue_inv w0 names w0.
Proof.
  intros Hfree Hnames. split_and!.
  - intros n c Hn. left. destruct (Hfree n c Hn) as [Hs Hf].
    destruct Hn as [Hv Hl]. split_and!; [|eauto|done|done].
    apply Hnames. by rewrite Hl.
  - done.
  - intros n c [Hv Hl] _. left. split_and!; [|done..].
    apply Hnames. by rewrite Hl.
Qed.

Lemma queue_inv_step w0 g todo w w' :
  names_free w0 →
  StronglySorted String.le (g :: todo) → NoDup (g :: todo) →
  valid_name g → is_Some (fs w0 !! in_ready g) →
  queue_inv w0 (g :: todo) w →
  process g w = (Ret tt, w') →
  queue_inv w0 todo w'.
Proof.
  intros Hfree Hsorted Hnodup Hg Hg0 (I1 & I2 & I3) Hrun.
  pose proof (sorted_head_before g todo Hsorted Hnodup) as Hbefore.
  destruct (fs w !! in_ready g) as [[cg|]|] eqn:Hgw; cycle 1.
  { (* a directory: skipped *)
    rewrite process_not_file in Hrun by (done || by rewrite Hgw).
    injection Hrun as <-. split_and!.
    - intros n c Hn. destruct (I1 n c Hn) as [(Hin & [c' Hc'] & Hs & Hf)|(Hr & Hone & Hb)].
      + left. split_and!; [|eauto|done|done].
        apply elem_of_cons in Hin as [->|Hin]; [congruence|done].
      + right. split_and!; [done|done|].
        destruct Hb as [Hb|(h & -> & Hb)]; [left|right; exists h; split; [done|]];
          by eapply before_cons_inv.
    - done.
    - intros n c Hn Hns. destruct (I3 n c Hn Hns) as [(Hin & Hc & Hs & Hf)|Hset].
      + left. split_and!; [|done..].
        apply elem_of_cons in Hin as [->|Hin]; [congruence|done].
      + by right. }
  { (* gone already: skipped *)
    rewrite process_not_file in Hrun by (done || by rewrite Hgw).
    injection Hrun as <-. split_and!.
    - intros n c Hn. destruct (I1 n c Hn) as [(Hin & [c' Hc'] & Hs & Hf)|(Hr & Hone & Hb)].
      + left. split_and!; [|eauto|done|done].
        apply elem_of_cons in Hin as [->|Hin]; [congruence|done].
      + right. split_and!; [done|done|].
        destruct Hb as [Hb|(h & -> & Hb)]; [left|right; exists h; split; [done|]];
          by eapply before_cons_inv.
    - done.
    - intros n c Hn Hns. destruct (I3 n c Hn Hns) as [(Hin & Hc & Hs & Hf)|Hset].
      + left. split_and!; [|done..].
        apply elem_of_cons in Hin as [->|Hin]; [congruence|done].
      + by right. }
  (* a regular file: it was one at the start, and is still pending *)
  assert (∃ c0, ready_file w0 g c0) as [c0 Hg0file].
  { destruct Hg0 as [[c0|] Hl]; [by exists c0|].
    rewrite (I2 g Hg Hl) in Hgw. done. }
  assert (fs w !! in_sent g = None ∧ fs w !! in_failed g = None) as [Hgs Hgf].
  { destruct (I1 g c0 Hg0file) as [(_ & _ & Hs & Hf)|(Hr & _)]; [done|congruence]. }
  destruct (process_ready_file_effect host port timeout tls cafile max_attempts
              archive_on_sent w g cg w' Hg Hgw Hgs Hgf Hrun)
    as (Er & Ed & Ed' & Enodir & Emeta & Eframe).
  set (d := placed_in w cg g) in *.
  assert ((d = SENT_DIR ∧ other d = FAILED_DIR) ∨ (d = FAILED_DIR ∧ other d = SENT_DIR))
    as Hd by apply placed_cases.
  assert (in_exactly_one w' g) as Hgone.
  { destruct Hd as [[Hd Hd']|[Hd Hd']]; rewrite Hd in Ed; rewrite Hd' in Ed';
      [left|right]; by rewrite Ed, Ed'. }
  (* the sidecar of [g], when it is a regular file of the snapshot *)
  assert (∀ c, ready_file w0 (g +:+ META_EXT) c →
            fs w !! in_sent (g +:+ META_EXT) = None
            ∧ fs w !! in_failed (g +:+ META_EXT) = None) as Hmeta_pending.
  { intros c Hm. destruct (I1 _ c Hm) as [(_ & _ & Hs & Hf)|(_ & _ & Hb)]; [done|].
    exfalso. destruct Hb as [Hb|(h & Heq & Hb)].
    - by eapply before_meta_absurd.
    - apply string_app_inv_tail in Heq. subst h.
      destruct (Hb g) as [_ Hne]; [by left|done]. }
  split_and!.
  - intros n c Hn.
    destruct (decide (n = g)) as [->|Hng].
    { right. split_and!; [done|done|by left]. }
    destruct (decide (n = g +:+ META_EXT)) as [->|Hnm].
    { right. destruct (Hmeta_pending c Hn) as [Hs Hf].
      destruct (Emeta Hs Hf) as (Emr & Emd & Emd').
      split_and!; [done| |right; eauto].
      destruct Hd as [[Hd Hd']|[Hd Hd']]; rewrite Hd in Emd; rewrite Hd' in Emd';
        [left|right]; by rewrite Emd, Emd'. }
    destruct Hn as [Hv Hl].
    rewrite !Eframe by auto. unfold in_exactly_one. rewrite !Eframe by auto.
    destruct (I1 n c (conj Hv Hl)) as [(Hin & Hc' & Hs & Hf)|(Hr & Hone & Hb)].
    + left. split_and!; [|done..].
      apply elem_of_cons in Hin as [->|Hin]; done.
    + right. split_and!; [done|done|].
      destruct Hb as [Hb|(h & -> & Hb)]; [left|right; exists h; split; [done|]];
        by eapply before_cons_inv.
  - intros n Hv Hdir. pose proof (I2 n Hv Hdir) as Hw.
    destruct (decide (n = g)) as [->|Hng]; [congruence|].
    destruct (decide (n = g +:+ META_EXT)) as [->|Hnm]; [done|].
    by rewrite Eframe by auto.
  - intros n c Hn Hns.
    assert (n ≠ g +:+ META_EXT) as Hnm.
    { intros ->. apply Hns. by exists g, c0. }
    destruct (I3 n c Hn Hns) as [(Hin & Hc & Hs & Hf)|(wn & Hwn & Eset & Eside)].
    + destruct (decide (n = g)) as [->|Hng].
      * right. exists w. assert (cg = c) as -> by congruence.
        split; [done|]. split; [done|]. intros Hs0 Hf0.
        rewrite Hs0 in Hs. rewrite Hf0 in Hf.
        destruct (Emeta Hs Hf) as (E1 & E2 & E3). done.
      * left. apply elem_of_cons in Hin as [->|Hin]; [done|].
        assert (n +:+ META_EXT ≠ g) as Hmg.
        { intros <-. destruct (Hbefore n Hin) as [Hle Hne]. apply Hne.
          apply (anti_symm String.le); [done|apply string_le_app]. }
        assert (n +:+ META_EXT ≠ g +:+ META_EXT) as Hmm.
        { by intros ?%string_app_inv_tail. }
        destruct Hn as [Hv Hl].
        rewrite !Eframe by (auto using valid_name_meta). done.
    + right. exists wn. split; [done|].
      assert (n ≠ g) as Hng.
      { intros ->. destruct (placed_cases host port timeout tls cafile max_attempts wn c g)
          as [[Hp _]|[Hp _]]; rewrite Hp in Eset; congruence. }
      assert (n +:+ META_EXT ≠ g) as Hmg.
      { intros Heq. destruct (Hfree g c0 Hg0file) as [Hs0 Hf0].
        rewrite <- Heq in Hs0, Hf0. destruct (Eside Hs0 Hf0) as (Em & _).
        rewrite Heq in Em.
        destruct (placed_cases host port timeout tls cafile max_attempts wn c n)
          as [[Hp _]|[Hp _]]; rewrite Hp in Em; congruence. }
      assert (n +:+ META_EXT ≠ g +:+ META_EXT) as Hmm.
      { by intros ?%string_app_inv_tail. }
      destruct Hn as [Hv Hl].
      assert (∀ k x, k = placed_in wn c n ∨ k = other (placed_in wn c n) ∨ k = READY_DIR →
                valid_name x → x ≠ g → x ≠ g +:+ META_EXT →
                fs w' !! entry k x = fs w !! entry k x) as Efr.
      { intros k x Hk Hx Hxg Hxm. apply Eframe; [|done..].
        destruct (placed_cases host port timeout tls cafile max_attempts wn c n)
          as [[Hp Hp']|[Hp Hp']]; rewrite Hp', Hp in Hk; prop_tauto. }
      split.
      * rewrite Efr by auto. done.
      * intros Hs0 Hf0. destruct (Eside Hs0 Hf0) as (E1 & E2 & E3).
        rewrite !Efr by (auto using valid_name_meta). done.
Qed.

Lemma queue_inv_loop w0 todo w w' :
  names_free w0 →
  StronglySorted String.le todo → NoDup todo →
  (∀ g, g ∈ todo → valid_name g ∧ is_Some (fs w0 !! in_ready g)) →
  queue_inv w0 todo w →
  for_each todo process w = (Ret tt, w') →
  queue_inv w0 [] w'.
Proof.
  intros Hfree. revert w. induction todo as [|g todo IH]; intros w Hs Hnd Hall Hinv Hrun.
  - by injection Hrun as <-.
  - simpl in Hrun. unfold bind in Hrun.
    destruct (process g w) as [[[]|e] w1] eqn:Hg; [|discriminate].
    destruct (Hall g) as [Hv Hsome]; [by left|].
    apply (IH w1); [by apply StronglySorted_inv in Hs as [? _]
                   |by apply NoDup_cons in Hnd as [_ ?]| |
                   by eapply queue_inv_step|done].
    intros g' Hg'. apply Hall. by right.
Qed.

Local Abbreviation run_queue :=
  (process_ready_queue host port timeout tls cafile max_attempts archive_on_sent).

Lemma process_ready_queue_inv w0 w' :
  names_free w0 → run_queue w0 = (Ret tt, w') → queue_inv w0 [] w'.
Proof.
  intros Hfree Hrun. unfold process_ready_queue, bind in Hrun.
  destruct (os_listdir_spec w0) as (names & Hls & Hnd & Hnames).
  rewrite Hls, ready_snapshot_all in Hrun.
  assert (sorted names ≡ₚ names) as Hperm by apply merge_sort_Permutation.
  apply (queue_inv_loop w0 (sorted names) w0 w'); [done| | | | |done].
  - apply StronglySorted_merge_sort; apply _.
  - by rewrite Hperm.
  - intros g Hgin. apply Hnames. by rewrite <- Hperm.
  - apply queue_inv_start; [done|]. intros n. by rewrite Hperm.
Qed.

(** A regular file of the Ready snapshot, by the path the loop uses. *)
Definition snapshot_file (w : world) (n : string) (c : list byte) : Prop :=
  valid_name n ∧ fs w !! os_path_join READY_DIR n = Some (File c).

Definition present (w : world) (dir n : string) : Prop :=
  is_Some (fs w !! os_path_join dir n).

Lemma snapshot_file_ready w n c : snapshot_file w n c ↔ ready_file w n c.
Proof.
  unfold snapshot_file, ready_file. split; intros [Hv Hl]; split; try done.
  - by rewrite <- (pipeline_dir_join READY_DIR n) by (apply Hv || constructor).
  - by rewrite (pipeline_dir_join READY_DIR n) by (apply Hv || constructor).
Qed.

(** C1, as the code has it.  Take a run of the queue that ends normally
    from a world where no regular file of Ready has a namesake in Sent
    or in Failed.  Afterwards every regular file of the snapshot is gone
    from Ready and present in exactly one of Sent and Failed.  Moreover a
    snapshot file that is not the sidecar of another one has had its turn
    in some world [wn], where it still had its content, and now lies with
    that content in the directory [placed] chose there: Failed, with the
    validation note in its record, when the content does not validate,
    and otherwise Sent or Failed as [send_one_file] succeeded or failed
    there, with the record of that delivery; its sidecar, if that name
    was free in Sent and Failed, lies next to it and holds the record. *)
Theorem process_ready_queue_terminal (w0 w' : world) :
  (∀ n c, snapshot_file w0 n c →
     ¬ present w0 SENT_DIR n ∧ ¬ present w0 FAILED_DIR n) →
  run_queue w0 = (Ret tt, w') →
  (∀ n c, snapshot_file w0 n c →
     ¬ present w' READY_DIR n
     ∧ (present w' SENT_DIR n ∧ ¬ present w' FAILED_DIR n
        ∨ ¬ present w' SENT_DIR n ∧ present w' FAILED_DIR n))
  ∧ (∀ n c, snapshot_file w0 n c →
       (¬ ∃ h ch, snapshot_file w0 h ch ∧ n = h +:+ META_EXT) →
       ∃ wn,
         fs wn !! os_path_join READY_DIR n = Some (File c)
         ∧ let d := placed_in wn c n in
           fs w' !! os_path_join d n = Some (File c)
           ∧ (∀ note, basic_validate_edifact_bytes c = (false, note) →
                d = FAILED_DIR
                ∧ record_of wn c n =
                    dict_set "error" (PStr ("validation_failed:" +:+ note))
                      (fresh_record n))
           ∧ (∀ note success send_meta w1,
                basic_validate_edifact_bytes c = (true, note) →
                send_one_file (os_path_join READY_DIR n) host port timeout tls cafile
                  max_attempts wn = (Ret (success, send_meta), w1) →
                d = (if success then SENT_DIR else FAILED_DIR)
                ∧ record_of wn c n = dict_update (fresh_record n) send_meta)
           ∧ (¬ present w0 SENT_DIR (n +:+ META_EXT) →
              ¬ present w0 FAILED_DIR (n +:+ META_EXT) →
              fs w' !! (os_path_join d n +:+ META_EXT) =
              Some (File (json_dump (record_of wn c n))))).
Proof.
  intros Hfree Hrun.
  assert (∀ w dir n, pipeline_dir dir → valid_name n →
            (present w dir n ↔ is_Some (fs w !! entry dir n))
            ∧ (¬ present w dir n ↔ fs w !! entry dir n = None)) as Hpres.
  { intros w dir n Hdir [_ Hn]. unfold present.
    rewrite pipeline_dir_join by done.
    split; [done|]. by rewrite eq_None_not_Some. }
  assert (names_free w0) as Hfree'.
  { intros n c Hn%snapshot_file_ready. destruct (Hfree n c Hn) as [Hs Hf].
    destruct Hn as [Hv _].
    apply Hpres in Hs, Hf; [done|constructor|done|constructor|done]. }
  destruct (process_ready_queue_inv w0 w' Hfree' Hrun) as (I1 & _ & I3).
  split.
  - intros n c Hn%snapshot_file_ready.
    destruct (I1 n c Hn) as [(Hin & _)|(Hr & Hone & _)]; [by apply elem_of_nil in Hin|].
    destruct Hn as [Hv _].
    split; [by apply Hpres; [constructor|done|]|].
    destruct Hone as [[Hs Hf]|[Hs Hf]]; [left|right]; split;
      apply Hpres; done || constructor.
  - intros n c Hn%snapshot_file_ready Horphan.
    destruct (I3 n c Hn) as [(Hin & _)|(wn & Hwn & Hplace & Hside)];
      [|by apply elem_of_nil in Hin|].
    { intros (h & ch & Hh & ->). apply Horphan. exists h, ch.
      by rewrite snapshot_file_ready. }
    destruct Hn as [Hv _].
    assert (pipeline_dir (placed_in wn c n)) as Hpd.
    { destruct (placed_cases host port timeout tls cafile max_attempts wn c n)
        as [[-> _]|[-> _]]; constructor. }
    exists wn. split; [|intros d; subst d; split_and!].
    + by rewrite pipeline_dir_join by (apply Hv || constructor).
    + by rewrite pipeline_dir_join by (apply Hv || done).
    + intros note Hbad. unfold placed, sidecar_record. by rewrite Hbad.
    + intros note success send_meta w1 Hok Hsend.
      unfold placed, sidecar_record. rewrite Hok, Hsend. simpl.
      by destruct success.
    + intros Hs0 Hf0.
      rewrite pipeline_dir_join, entry_meta by (apply Hv || done).
      assert (fs w0 !! in_sent (n +:+ META_EXT) = None) as Hs0'
        by (apply Hpres; [constructor|by apply valid_name_meta|done]).
      assert (fs w0 !! in_failed (n +:+ META_EXT) = None) as Hf0'
        by (apply Hpres; [constructor|by apply valid_name_meta|done]).
      by destruct (Hside Hs0' Hf0') as (? & _).
Qed.

(** C9, as the code has it.  The loop runs over every name of Ready: the
    extension test filters nothing.  In a run as above, a regular file
    that is not the sidecar of another regular file of the snapshot,
    whatever its name, has its turn and is relocated like a document, so
    that one whose content does not validate ends in Failed and not in
    Sent.  The sidecar of such a file is not validated: it is
    overwritten with the record of its document and relocated together
    with it. *)
Theorem process_ready_queue_any_name (w0 w' : world) :
  (∀ n c, snapshot_file w0 n c →
     ¬ present w0 SENT_DIR n ∧ ¬ present w0 FAILED_DIR n) →
  run_queue w0 = (Ret tt, w') →
  (∀ names, ready_snapshot names = sorted names ∧ ready_snapshot names ≡ₚ names)
  ∧ (∀ n c, snapshot_file w0 n c →
       (¬ ∃ h ch, snapshot_file w0 h ch ∧ n = h +:+ META_EXT) →
       (∃ wn,
          fs wn !! os_path_join READY_DIR n = Some (File c)
          ∧ fs w' !! os_path_join (placed_in wn c n) n = Some (File c))
       ∧ ((basic_validate_edifact_bytes c).1 = false →
          fs w' !! os_path_join FAILED_DIR n = Some (File c)
          ∧ ¬ present w' SENT_DIR n))
  ∧ (∀ h ch cm, snapshot_file w0 h ch →
       (¬ ∃ g cg, snapshot_file w0 g cg ∧ h = g +:+ META_EXT) →
       snapshot_file w0 (h +:+ META_EXT) cm →
       ∃ wn,
         fs wn !! os_path_join READY_DIR h = Some (File ch)
         ∧ let d := placed_in wn ch h in
           fs w' !! os_path_join d h = Some (File ch)
           ∧ fs w' !! os_path_join d (h +:+ META_EXT) =
               Some (File (json_dump (record_of wn ch h)))
           ∧ ¬ present w' (other d) (h +:+ META_EXT)
           ∧ ¬ present w' READY_DIR (h +:+ META_EXT)).
Proof.
  intros Hfree Hrun.
  assert (∀ w dir n, pipeline_dir dir → valid_name n →
            (present w dir n ↔ is_Some (fs w !! entry dir n))
            ∧ (¬ present w dir n ↔ fs w !! entry dir n = None)) as Hpres.
  { intros w dir n Hdir [_ Hn]. unfold present.
    rewrite pipeline_dir_join by done.
    split; [done|]. by rewrite eq_None_not_Some. }
  assert (names_free w0) as Hfree'.
  { intros n c Hn%snapshot_file_ready. destruct (Hfree n c Hn) as [Hs Hf].
    destruct Hn as [Hv _].
    apply Hpres in Hs, Hf; [done|constructor|done|constructor|done]. }
  destruct (process_ready_queue_inv w0 w' Hfree' Hrun) as (I1 & _ & I3).
  split_and!.
  - intros names. rewrite ready_snapshot_all. split; [done|].
    apply merge_sort_Permutation.
  - intros n c Hn%snapshot_file_ready Horphan.
    destruct (I3 n c Hn) as [(Hin & _)|(wn & Hwn & Hplace & _)];
      [|by apply elem_of_nil in Hin|].
    { intros (h & ch & Hh & ->). apply Horphan. exists h, ch.
      by rewrite snapshot_file_ready. }
    destruct (I1 n c Hn) as [(Hin & _)|(_ & Hone & _)]; [by apply elem_of_nil in Hin|].
    destruct Hn as [Hv _]. split.
    + assert (pipeline_dir (placed_in wn c n)) as Hpd.
      { destruct (placed_cases host port timeout tls cafile max_attempts wn c n)
          as [[-> _]|[-> _]]; constructor. }
      exists wn. split.
      * by rewrite pipeline_dir_join by (apply Hv || constructor).
      * by rewrite pipeline_dir_join by (apply Hv || done).
    + intros Hbad. unfold placed in Hplace. rewrite Hbad in Hplace. split.
      * by rewrite pipeline_dir_join by (apply Hv || constructor).
      * apply Hpres; [constructor|done|].
        destruct Hone as [[_ Hf]|[Hs _]]; [congruence|done].
  - intros h ch cm Hh%snapshot_file_ready Horphan Hm%snapshot_file_ready.
    destruct (I3 h ch Hh) as [(Hin & _)|(wn & Hwn & Hplace & Hside)];
      [|by apply elem_of_nil in Hin|].
    { intros (g & cg & Hg & ->). apply Horphan. exists g, cg.
      by rewrite snapshot_file_ready. }
    destruct (Hfree' _ _ Hm) as [Hs0 Hf0].
    destruct (Hside Hs0 Hf0) as (E1 & E2 & E3).
    destruct Hh as [Hv _].
    assert (pipeline_dir (placed_in wn ch h) ∧ pipeline_dir (other (placed_in wn ch h)))
      as [Hpd Hpd'].
    { destruct (placed_cases host port timeout tls cafile max_attempts wn ch h)
        as [[-> ->]|[-> ->]]; split; constructor. }
    exists wn. split; [|intros d; subst d; split_and!].
    + by rewrite pipeline_dir_join by (apply Hv || constructor).
    + by rewrite pipeline_dir_join by (apply Hv || done).
    + by rewrite pipeline_dir_join by (apply valid_name_meta, Hv || done).
    + apply Hpres; [done|by apply valid_name_meta|done].
    + apply Hpres; [constructor|by apply valid_name_meta|done].
Qed.

(** The regular files of the snapshot are among the names [os.listdir]
    returns. *)
Lemma snapshot_file_listed w n c :
  snapshot_file w n c →
  ∃ names, os_listdir READY_DIR w = (Ret names, w) ∧ n ∈ names.
Proof.
  intros [Hv Hl]%snapshot_file_ready.
  destruct (os_listdir_spec w) as (names & Hls & _ & Hnames).
  exists names. split; [done|]. apply Hnames. by rewrite Hl.
Qed.

End Queue.
(** * More about the frame codec *)

(** *** Searches in a buffer that grows at its end *)

Lemma prefix_app_short {A} (sub a b : list A) :
  sub `prefix_of` a ++ b → length sub ≤ length a → sub `prefix_of` a.
Proof.
  intros [k Hk] Hlen. exists (drop (length sub) a).
  apply (f_equal (take (length sub))) in Hk.
  rewrite take_app_le in Hk by done.
  rewrite take_app_length in Hk.
  rewrite <- (take_drop (length sub) a) at 1. by rewrite Hk.
Qed.

Lemma find_sub_app sub l1 l2 i :
  find_sub sub l1 = Some i → find_sub sub (l1 ++ l2) = Some i.
Proof.
  rewrite !find_sub_Some. intros (Hi & Hpre & Hmin).
  pose proof (prefix_length _ _ Hpre) as Hlen. rewrite length_drop in Hlen.
  split_and!.
  - rewrite length_app. lia.
  - rewrite drop_app_le by done. by apply prefix_app_r.
  - intros j Hj Hp. apply (Hmin j Hj).
    rewrite drop_app_le in Hp by lia.
    apply (prefix_app_short _ _ _ Hp). rewrite length_drop. lia.
Qed.

Lemma bytes_index_app buf more sub start i :
  bytes_index buf sub start = Some i →
  bytes_index (buf ++ more) sub start = Some i.
Proof.
  unfold bytes_index. case_decide as Hs; [|done].
  rewrite decide_True by (rewrite length_app; lia).
  destruct (find_sub sub (drop start buf)) as [j|] eqn:Hj; [|done].
  intros [= <-]. rewrite drop_app_le by done.
  by rewrite (find_sub_app _ _ _ _ Hj).
Qed.

(** What one iteration of the loop found, in terms of the buffer. *)
Lemma bytes_index_start buffer start :
  bytes_index buffer START_BLOCK 0 = Some start →
  buffer = take start buffer ++ START_BLOCK ++ drop (start + 1) buffer.
Proof.
  unfold bytes_index. rewrite decide_True by lia. rewrite drop_0. simpl.
  destruct (find_sub START_BLOCK buffer) as [i|] eqn:Hi; [|done].
  intros [= <-]. apply find_sub_Some in Hi as (_ & [k Hk] & _).
  rewrite <- (take_drop i buffer) at 1. f_equal.
  rewrite Hk. simpl. f_equal.
  by rewrite <- drop_drop, Hk.
Qed.

Lemma bytes_index_end buffer start end_ :
  bytes_index buffer END_BLOCK (start + 1) = Some end_ →
  let payload := slice buffer (start + 1) end_ in
  drop (start + 1) buffer = payload ++ END_BLOCK ++ drop (end_ + length END_BLOCK) buffer
  ∧ find_sub END_BLOCK payload = None.
Proof.
  unfold bytes_index, slice. case_decide as Hs; [|done].
  destruct (find_sub END_BLOCK (drop (start + 1) buffer)) as [i|] eqn:Hi; [|done].
  intros [= <-]. simpl.
  replace (start + 1 + i - (start + 1)) with i by lia.
  set (tail := drop (start + 1) buffer) in *.
  apply find_sub_Some in Hi as (Hlen & [k Hk] & Hmin).
  split.
  - rewrite <- (take_drop i tail) at 1. f_equal.
    rewrite Hk. simpl. do 2 f_equal.
    rewrite <- (drop_drop buffer 2 (start + 1 + i)), <- (drop_drop buffer i (start + 1)).
    fold tail. by rewrite Hk.
  - apply find_sub_None. intros j Hj Hp.
    pose proof (prefix_length _ _ Hp) as Hpl.
    rewrite length_drop, length_take in Hpl. simpl in Hpl.
    apply (Hmin j); [lia|].
    destruct Hp as [k' Hk']. exists (k' ++ drop i tail).
    rewrite app_assoc, <- Hk'.
    rewrite <- (take_drop i tail) at 1.
    rewrite drop_app_le by (rewrite length_take; lia). done.
Qed.

(** *** Feeding the decoder in pieces *)

Lemma extract_frames_app (b1 b2 : list byte) :
  extract_frames (b1 ++ b2) =
  ((extract_frames b1).1 ++ (extract_frames ((extract_frames b1).2 ++ b2)).1,
   (extract_frames ((extract_frames b1).2 ++ b2)).2).
Proof.
  remember (length b1) as n eqn:Hn. revert b1 Hn.
  induction (lt_wf n) as [n _ IH]. intros b1 ->.
  unfold extract_frames at 2 4 6. rewrite (extract_loop_step [] b1).
  destruct (bytes_index b1 START_BLOCK 0) as [s|] eqn:Hs;
    [|simpl; by destruct (extract_frames (b1 ++ b2))].
  destruct (bytes_index b1 END_BLOCK (s + 1)) as [e|] eqn:He;
    [|simpl; by destruct (extract_frames (b1 ++ b2))].
  pose proof (index_bound _ _ _ _ He) as [Hse Hb]. simpl in Hb.
  unfold extract_frames at 1. rewrite (extract_loop_step [] (b1 ++ b2)).
  rewrite (bytes_index_app _ _ _ _ _ Hs), (bytes_index_app _ _ _ _ _ He).
  assert (slice (b1 ++ b2) (s + 1) e = slice b1 (s + 1) e) as ->.
  { unfold slice. rewrite drop_app_le by lia.
    rewrite take_app_le; [done|]. rewrite length_drop. lia. }
  rewrite drop_app_le by (simpl; lia).
  rewrite (extract_loop_acc ([] ++ _)), (extract_loop_acc ([] ++ _) (drop _ b1)).
  simpl.
  rewrite (IH (length (drop (e + 2) b1))); [|rewrite length_drop; lia|done].
  simpl. done.
Qed.

(** X1. The frames of a buffer that arrives in two pieces are the same as
    the frames of the whole: a call on the first piece, and a second call
    once the second piece has been appended to what the first call left,
    together return what one call on the whole buffer returns, and leave
    the same bytes behind. *)
Theorem extract_frames_chunked (b1 b2 : list byte) :
  let '(frames1, rest1) := extract_frames b1 in
  let '(frames2, rest2) := extract_frames (rest1 ++ b2) in
  extract_frames (b1 ++ b2) = (frames1 ++ frames2, rest2).
Proof.
  rewrite extract_frames_app.
  destruct (extract_frames b1) as [frames1 rest1]. simpl.
  by destruct (extract_frames (rest1 ++ b2)).
Qed.

Lemma extract_frames_from_buffer (buffer : list byte) :
  (extract_frames buffer).2 `suffix_of` buffer
  ∧ ∀ frame, frame ∈ (extract_frames buffer).1 →
      find_sub END_BLOCK frame = None
      ∧ ∃ l1 l2, buffer = l1 ++ frame_message frame ++ l2.
Proof.
  remember (length buffer) as n eqn:Hn. revert buffer Hn.
  induction (lt_wf n) as [n _ IH]. intros buffer ->.
  unfold extract_frames. rewrite extract_loop_step.
  destruct (bytes_index buffer START_BLOCK 0) as [s|] eqn:Hs;
    [|simpl; split; [done|by intros ? ?%elem_of_nil]].
  destruct (bytes_index buffer END_BLOCK (s + 1)) as [e|] eqn:He;
    [|simpl; split; [done|by intros ? ?%elem_of_nil]].
  pose proof (index_bound _ _ _ _ He) as [_ Hb]. simpl in Hb.
  pose proof (bytes_index_start _ _ Hs) as Hstart.
  destruct (bytes_index_end _ _ _ He) as [Hend Hfree].
  rewrite extract_loop_acc. simpl.
  destruct (IH (length (drop (e + 2) buffer))
              ltac:(rewrite length_drop; lia) _ eq_refl) as [IHs IHf].
  split.
  - etrans; [exact IHs|]. apply suffix_drop.
  - intros frame [->|Hin]%elem_of_cons.
    + split; [done|]. exists (take s buffer), (drop (e + 2) buffer).
      rewrite Hstart at 1. rewrite Hend. unfold frame_message.
      simpl. by rewrite <- !app_assoc.
    + destruct (IHf frame Hin) as (Hf & l1 & l2 & Hl). split; [done|].
      exists (take (e + 2) buffer ++ l1), l2.
      rewrite <- (take_drop (e + 2) buffer) at 1. rewrite Hl.
      by rewrite <- (app_assoc (take (e + 2) buffer)).
Qed.

(** X2. A call never invents data: what it leaves in the buffer is an end
    piece of what it found there, and every frame it returns stood in
    the buffer between a start marker and the first end marker after
    it, so that no frame contains an end marker. *)
Theorem extract_frames_sound (buffer : list byte) :
  let '(frames, rest) := extract_frames buffer in
  rest `suffix_of` buffer
  ∧ ∀ frame, frame ∈ frames →
      find_sub END_BLOCK frame = None
      ∧ ∃ l1 l2, buffer = l1 ++ frame_message frame ++ l2.
Proof.
  pose proof (extract_frames_from_buffer buffer) as H.
  by destruct (extract_frames buffer).
Qed.

(** X3. A call leaves no complete frame behind: calling again at once
    returns nothing and leaves the buffer as it is. *)
Theorem extract_frames_again (buffer : list byte) :
  extract_frames (extract_frames buffer).2 = ([], (extract_frames buffer).2).
Proof.
  remember (length buffer) as n eqn:Hn. revert buffer Hn.
  induction (lt_wf n) as [n _ IH]. intros buffer ->.
  unfold extract_frames at 2 3. rewrite (extract_loop_step [] buffer).
  destruct (bytes_index buffer START_BLOCK 0) as [s|] eqn:Hs.
  - destruct (bytes_index buffer END_BLOCK (s + 1)) as [e|] eqn:He.
    + pose proof (index_bound _ _ _ _ He) as [_ Hb]. simpl in Hb.
      rewrite extract_loop_acc. simpl.
      apply (IH (length (drop (e + 2) buffer))); [|done].
      rewrite length_drop. lia.
    + simpl. unfold extract_frames. by rewrite extract_loop_step, Hs, He.
  - simpl. unfold extract_frames. by rewrite extract_loop_step, Hs.
Qed.

(** X4. Any number of framed payloads in a row come out in order and leave
    the buffer empty.  A payload may contain the start byte; the only
    thing it must not contain is the end marker. *)
Theorem extract_frames_all (payloads : list (list byte)) :
  Forall (λ p, find_sub END_BLOCK p = None) payloads →
  extract_frames (concat (frame_message <$> payloads)) = (payloads, []).
Proof.
  induction 1 as [|p ps Hp _ IH]; [done|].
  unfold extract_frames. cbn [fmap list_fmap concat].
  pose proof (extract_loop_frame [] [] p (concat (frame_message <$> ps)) eq_refl Hp) as H.
  cbn [app] in H. rewrite H.
  rewrite extract_loop_acc, IH. done.
Qed.

Lemma extract_frames_all_witness :
  extract_frames (concat (frame_message <$> [[x41]; [x0b; x42]; []]))
  = ([[x41]; [x0b; x42]; []], []).
Proof.
  apply (extract_frames_all [[x41]; [x0b; x42]; []]).
  repeat constructor.
Defined.



(** * More about the transport client *)

(** *** An ACK that arrives in pieces *)

Lemma extract_frames_none_prefix b1 b2 :
  (extract_frames (b1 ++ b2)).1 = [] → (extract_frames b1).1 = [].
Proof. rewrite extract_frames_app. simpl. by intros [? _]%app_eq_nil. Qed.

Lemma extract_frames_resume b1 b2 :
  (extract_frames b1).1 = [] →
  extract_frames ((extract_frames b1).2 ++ b2) = extract_frames (b1 ++ b2).
Proof.
  intros H. rewrite (extract_frames_app b1 b2), H. simpl.
  apply surjective_pairing.
Qed.

(** The receive loop, with the buffer described by the bytes received so
    far. *)
Lemma recv_loop_ack timeout start received before chunk now after ending ack more :
  (extract_frames received).1 = [] →
  Forall (λ c, c.1 ≠ [] ∧ float_gt (float_sub c.2 start) timeout = false) before →
  chunk ≠ [] →
  (extract_frames (received ++ concat before.*1)).1 = [] →
  (extract_frames (received ++ concat before.*1 ++ chunk)).1 = ack :: more →
  recv_loop timeout start (extract_frames received).2
    (before ++ (chunk, now) :: after) ending = Ret (Some ack).
Proof.
  intros Hrec Hbefore. revert received Hrec.
  induction Hbefore as [|[c t] before [Hc Ht] _ IH];
    intros received Hrec Hchunk Hnone Hack.
  - simpl in *. destruct chunk as [|b chunk]; [done|].
    rewrite extract_frames_resume by done.
    destruct (extract_frames (received ++ b :: chunk)) as [frames buf].
    simpl in Hack. by subst.
  - change (concat ((c, t) :: before).*1) with (c ++ concat before.*1) in Hnone, Hack.
    rewrite <- (app_assoc c) in Hack. rewrite (app_assoc received) in Hnone, Hack.
    simpl in Hc, Ht. simpl. destruct c as [|b c]; [done|].
    rewrite extract_frames_resume by done.
    pose proof (extract_frames_none_prefix _ _ Hnone) as Hnone'.
    destruct (extract_frames (received ++ b :: c)) as [frames buf] eqn:Hef.
    simpl in Hnone'. subst frames. rewrite Ht.
    replace buf with (extract_frames (received ++ b :: c)).2 by (by rewrite Hef).
    apply IH; [by rewrite Hef|done..].
Qed.

(** X6. However the peer's bytes are cut into chunks, the client answers
    with the first frame of the byte stream: once the connection is up
    and the request has gone out, if the chunks received before the
    deadline hold no complete frame and the next chunk completes one,
    the call returns the first frame of all the bytes received.  The
    clock is not consulted for the chunk that completes the frame. *)
Theorem mllp_send_reassembles (w : world) (host : string) (port : Z)
    (payload : list byte) (timeout : float) (tls : bool) (cafile : option string)
    (before after : list (list byte * float)) (chunk : list byte) (now : float)
    (ack : list byte) (more : list (list byte)) :
  let s := peer (connections w) in
  established s tls cafile →
  chunks s = before ++ (chunk, now) :: after →
  Forall (λ c, c.1 ≠ [] ∧ float_gt (float_sub c.2 (start_time s)) timeout = false)
         before →
  chunk ≠ [] →
  (extract_frames (concat before.*1)).1 = [] →
  (extract_frames (concat before.*1 ++ chunk)).1 = ack :: more →
  (mllp_send host port payload timeout tls cafile w).1 = Ret (Some ack).
Proof.
  intros s Hest Hchunks Hbefore Hchunk Hnone Hack.
  assert ((mllp_send host port payload timeout tls cafile w).1 =
          (mllp_send_on s host port payload timeout tls cafile).1) as ->.
  { unfold mllp_send. fold s. by destruct (mllp_send_on _ _ _ _ _ _ _). }
  rewrite mllp_send_on_established, Hchunks by done.
  apply (recv_loop_ack timeout (start_time s) [] before chunk now after (ending s) ack more);
    done.
Qed.

(** *** Where an answer comes from *)

Lemma recv_loop_answer timeout start buf chunks ending ack :
  recv_loop timeout start buf chunks ending = Ret (Some ack) →
  find_sub END_BLOCK ack = None
  ∧ ∃ l1 l2, buf ++ concat chunks.*1 = l1 ++ frame_message ack ++ l2.
Proof.
  revert buf. induction chunks as [|[c t] rest IH]; intros buf.
  - simpl. by destruct ending as [[]|].
  - change (concat ((c, t) :: rest).*1) with (c ++ concat rest.*1).
    cbn [recv_loop]. destruct c as [|b c]; [done|].
    destruct (extract_frames_from_buffer (buf ++ b :: c)) as [[pre Hpre] Hframes].
    destruct (extract_frames (buf ++ b :: c)) as [[|frame frames] buf'] eqn:Hef;
      cbn [fst snd] in *.
    + destruct (float_gt _ _); [done|].
      intros (Hfree & l1 & l2 & Hl)%IH. split; [done|].
      exists (pre ++ l1), l2.
      rewrite (app_assoc buf), Hpre, <- !app_assoc. by rewrite Hl.
    + intros [= <-].
      destruct (Hframes frame) as (Hfree & l1 & l2 & Hl); [by left|].
      split; [done|]. exists l1, (l2 ++ concat rest.*1).
      rewrite (app_assoc buf), Hl, <- !app_assoc. done.
Qed.

(** X7. An answer is never made up: whatever the call returns as the ACK
    is a frame that stands, between its markers, in the bytes the peer
    sent on this connection, and it was received after the framed
    request had gone out. *)
Theorem mllp_send_answer_received (w : world) (host : string) (port : Z)
    (payload : list byte) (timeout : float) (tls : bool) (cafile : option string)
    (ack : list byte) :
  (mllp_send host port payload timeout tls cafile w).1 = Ret (Some ack) →
  let s := peer (connections w) in
  let w' := (mllp_send host port payload timeout tls cafile w).2 in
  find_sub END_BLOCK ack = None
  ∧ (∃ l1 l2, concat (chunks s).*1 = l1 ++ frame_message ack ++ l2)
  ∧ log w' = log w ++ [EvConnect host port; EvSendall (frame_message payload); EvClose].
Proof.
  intros Hrun s w'. subst w'. revert Hrun. unfold mllp_send. fold s.
  unfold mllp_send_on.
  destruct (connect_error s); [done|].
  destruct (if tls then _ else _); [done|].
  destruct (if tls then handshake_error s else None); [done|].
  destruct (settimeout_error s); [done|].
  destruct (sendall_error s); [done|].
  simpl. intros (Hfree & l1 & l2 & Hl)%recv_loop_answer.
  split_and!; [done|by exists l1, l2|done].
Qed.
(** * More about the delivery with retries *)

(** *** What a computation adds to the log *)

Section Emits.

Variable Q : list event → Prop.
Hypothesis Q_nil : Q [].
Hypothesis Q_app : ∀ a b, Q a → Q b → Q (a ++ b).

(** Whatever [m] appends to the log satisfies [Q]. *)
Definition emits {A} (m : M A) : Prop :=
  ∀ w, ∃ evs, log (m w).2 = log w ++ evs ∧ Q evs.

Lemma emits_quiet {A} (m : M A) : (∀ w, log (m w).2 = log w) → emits m.
Proof using Q_nil.
  intros H w. exists []. by rewrite H, app_nil_r.
Qed.

Lemma emits_ret {A} (a : A) : emits (ret a).
Proof using Q_nil. by apply emits_quiet. Qed.

Lemma emits_raise {A} e : emits (raise e : M A).
Proof using Q_nil. by apply emits_quiet. Qed.

Lemma emits_bind {A B} (m : M A) (k : A → M B) :
  emits m → (∀ a, emits (k a)) → emits (bind m k).
Proof using Q_app.
  intros Hm Hk w. unfold bind. destruct (Hm w) as (e1 & H1 & Q1).
  destruct (m w) as [[a|e] w1]; simpl in *.
  - destruct (Hk a w1) as (e2 & H2 & Q2). exists (e1 ++ e2).
    rewrite H2, H1, <- app_assoc. auto.
  - by exists e1.
Qed.

Lemma emits_catch {A} (m : M A) (h : exn → M A) :
  emits m → (∀ e, emits (h e)) → emits (catch m h).
Proof using Q_app.
  intros Hm Hh w. unfold catch. destruct (Hm w) as (e1 & H1 & Q1).
  destruct (m w) as [[a|e] w1]; simpl in *.
  - by exists e1.
  - destruct (Hh e w1) as (e2 & H2 & Q2). exists (e1 ++ e2).
    rewrite H2, H1, <- app_assoc. auto.
Qed.

Lemma emits_for_each {A} (l : list A) (body : A → M unit) :
  (∀ x, emits (body x)) → emits (for_each l body).
Proof using Q_nil Q_app.
  intros Hbody. induction l as [|x l IH]; simpl.
  - apply emits_ret.
  - apply emits_bind; [apply Hbody|]. intros _. apply IH.
Qed.

Lemma emits_read_file p : emits (read_file p).
Proof using Q_nil.
  apply emits_quiet. intros w. unfold read_file. by destruct (fs w !! p) as [[]|].
Qed.

Lemma emits_write_file p data : emits (write_file p data).
Proof using Q_nil.
  apply emits_quiet. intros w. unfold write_file. by destruct (fs w !! p) as [[]|].
Qed.

Lemma emits_os_rename src dst : emits (os_rename src dst).
Proof using Q_nil.
  apply emits_quiet. intros w. unfold os_rename. by destruct (fs w !! src) as [[]|].
Qed.

Lemma emits_shutil_move src dst : emits (shutil_move src dst).
Proof using Q_nil Q_app.
  unfold shutil_move. apply emits_bind; [by apply emits_quiet|].
  intros []; [|apply emits_os_rename].
  apply emits_bind; [by apply emits_quiet|].
  intros []; [apply emits_raise|apply emits_os_rename].
Qed.

Lemma emits_shutil_copy2 src dst : emits (shutil_copy2 src dst).
Proof using Q_nil Q_app.
  unfold shutil_copy2. apply emits_bind; [by apply emits_quiet|]. intros d.
  apply emits_bind; [by apply emits_quiet|]. intros a.
  apply emits_bind; [by apply emits_quiet|]. intros b.
  destruct (_ && _); [apply emits_raise|].
  apply emits_bind; [apply emits_read_file|]. intros c. apply emits_write_file.
Qed.

Section Sending.

Variables (host : string) (port : Z) (timeout : float) (tls : bool)
  (cafile : option string).

Hypothesis Q_sleep : ∀ n, Q [EvSleep n].
Hypothesis Q_send : ∀ n payload,
  Q (mllp_send_on (peer n) host port payload timeout tls cafile).2.

Lemma emits_mllp_send payload : emits (mllp_send host port payload timeout tls cafile).
Proof using Q_send.
  intros w. unfold mllp_send.
  pose proof (Q_send (connections w) payload) as HQ.
  destruct (mllp_send_on _ _ _ _ _ _ _) as [r evs]. by exists evs.
Qed.

Lemma emits_send_attempts filepath attempts meta :
  emits (send_attempts filepath host port timeout tls cafile attempts meta).
Proof using Q_nil Q_app Q_sleep Q_send.
  revert meta. induction attempts as [|a attempts IH]; intros meta; simpl.
  - apply emits_ret.
  - apply emits_bind.
    + apply emits_catch; [|intros; apply emits_ret].
      apply emits_bind; [apply emits_read_file|]. intros; apply emits_ret.
    + intros [payload|e]; [|apply emits_ret].
      apply emits_bind; [apply emits_mllp_send|]. intros resp.
      apply emits_bind; [by apply emits_quiet|]. intros now.
      destruct resp; [apply emits_ret|].
      apply emits_bind; [|intros _; apply IH].
      intros w. exists [EvSleep 1]. split; [done|apply Q_sleep].
Qed.

Lemma emits_process_ready_file max_attempts archive_on_sent fname :
  emits (process_ready_file host port timeout tls cafile max_attempts
           archive_on_sent fname).
Proof using Q_nil Q_app Q_sleep Q_send.
  unfold process_ready_file.
  apply emits_bind; [by apply emits_quiet|]. intros [|]; [|apply emits_ret]. simpl.
  apply emits_bind.
  { unfold validate_file. apply emits_bind; [apply emits_read_file|].
    intros; apply emits_ret. }
  intros [[|] prev]; simpl.
  - apply emits_bind; [apply emits_send_attempts|]. intros [[|] send_meta].
    + apply emits_bind; [apply emits_write_file|]. intros _.
      apply emits_bind; [apply emits_shutil_move|]. intros _.
      apply emits_bind.
      { apply emits_catch; [apply emits_shutil_move|intros; apply emits_ret]. }
      intros _. destruct archive_on_sent; [|apply emits_ret].
      apply emits_catch; [|intros; apply emits_ret].
      apply emits_bind; [apply emits_shutil_copy2|]. intros _.
      apply emits_bind; [by apply emits_quiet|].
      intros [|]; [apply emits_shutil_copy2|apply emits_ret].
    + apply emits_bind; [apply emits_write_file|]. intros _.
      apply emits_bind; [apply emits_shutil_move|]. intros _.
      apply emits_catch; [apply emits_shutil_move|intros; apply emits_ret].
  - apply emits_bind; [apply emits_write_file|]. intros _.
    apply emits_bind; [apply emits_shutil_move|]. intros _.
    apply emits_catch; [|intros; apply emits_ret].
    apply emits_bind; [by apply emits_quiet|].
    intros [|]; [apply emits_shutil_move|apply emits_ret].
Qed.

Lemma emits_process_ready_queue max_attempts archive_on_sent :
  emits (process_ready_queue host port timeout tls cafile max_attempts archive_on_sent).
Proof using Q_nil Q_app Q_sleep Q_send.
  unfold process_ready_queue. apply emits_bind; [by apply emits_quiet|].
  intros names. apply emits_for_each. intros fname.
  apply emits_process_ready_file.
Qed.

End Sending.

End Emits.

(** *** Sockets *)

(** A log of connections that were each closed before anything else
    happened: connect, at most one request, close; and waits in
    between. *)
Inductive closed_sessions : list event → Prop :=
| closed_nil : closed_sessions []
| closed_sleep n l : closed_sessions l → closed_sessions (EvSleep n :: l)
| closed_silent h p l :
    closed_sessions l → closed_sessions (EvConnect h p :: EvClose :: l)
| closed_request h p data l :
    closed_sessions l →
    closed_sessions (EvConnect h p :: EvSendall data :: EvClose :: l).

Lemma closed_sessions_app a b :
  closed_sessions a → closed_sessions b → closed_sessions (a ++ b).
Proof. induction 1; simpl; intros; try constructor; auto. Qed.

(** The creation of the TLS context goes through (lines 65-67): these
    two calls stand before the [try] of the client. *)
Definition context_ok (s : script float) (tls : bool) (cafile : option string) : Prop :=
  tls = true →
  default_context_error s = None
  ∧ (truthy cafile = true → cafile_context_error s = None).

Lemma mllp_send_on_closed s host port payload timeout tls cafile :
  context_ok s tls cafile →
  closed_sessions (mllp_send_on s host port payload timeout tls cafile).2.
Proof.
  intros Hctx. unfold mllp_send_on.
  destruct (connect_error s); [constructor|].
  assert ((if tls then
             match default_context_error s with
             | Some e => Some e
             | None => if truthy cafile then cafile_context_error s else None
             end
           else None) = None) as ->.
  { destruct tls; [|done]. destruct (Hctx eq_refl) as [-> Hca].
    destruct (truthy cafile); [by apply Hca|done]. }
  destruct (if tls then handshake_error s else None); [repeat constructor|].
  destruct (settimeout_error s); [repeat constructor|].
  destruct (sendall_error s); repeat constructor.
Qed.

(** X8. No socket is left behind.  When the TLS context can be created (or
    TLS is off), everything a delivery with retries, and everything a
    run of the queue, adds to the log is a sequence of connections that
    were each closed before the next call or wait, with at most one
    request sent on each: this holds whatever the peers do and however
    the call ends. *)
Theorem connections_are_closed (host : string) (port : Z) (timeout : float)
    (tls : bool) (cafile : option string) (max_attempts : Z) :
  (∀ n, context_ok (peer n) tls cafile) →
  (∀ filepath w,
     ∃ evs,
       log (send_one_file filepath host port timeout tls cafile max_attempts w).2
       = log w ++ evs
       ∧ closed_sessions evs)
  ∧ (∀ archive_on_sent w,
       ∃ evs,
         log (process_ready_queue host port timeout tls cafile max_attempts
                archive_on_sent w).2
         = log w ++ evs
         ∧ closed_sessions evs).
Proof.
  intros Hctx.
  assert (∀ n, closed_sessions [EvSleep n]) as Hsleep by (repeat constructor).
  assert (∀ n payload,
            closed_sessions
              (mllp_send_on (peer n) host port payload timeout tls cafile).2) as Hsend.
  { intros n payload. apply mllp_send_on_closed, Hctx. }
  split.
  - intros filepath w. unfold send_one_file.
    by apply (emits_send_attempts closed_sessions closed_nil closed_sessions_app
                host port timeout tls cafile).
  - intros archive_on_sent w.
    by apply (emits_process_ready_queue closed_sessions closed_nil closed_sessions_app
                host port timeout tls cafile).
Qed.

(** *** Edge cases of [send_one_file] *)

Lemma py_range_empty lo hi : (hi ≤ lo)%Z → py_range lo hi = [].
Proof. intros H. unfold py_range. by replace (Z.to_nat (hi - lo)) with 0 by lia. Qed.

(** X9. With [max_attempts] at zero or below, nothing is attempted: the
    result is a failure with the initial record, which names no error,
    and the world is as before. *)
Theorem send_one_file_no_attempt (w : world) (filepath host : string) (port : Z)
    (timeout : float) (tls : bool) (cafile : option string) (N : Z) :
  (N ≤ 0)%Z →
  send_one_file filepath host port timeout tls cafile N w =
  (Ret (false, [("attempts", PInt 0); ("sent_at", PNone); ("ack", PNone);
                ("error", PNone)]), w).
Proof.
  intros HN. unfold send_one_file. by rewrite py_range_empty by lia.
Qed.

(** X10. A file that cannot be read is not retried: the first attempt ends
    the call with a failure that records [attempts = 1] and the read
    error, without a connection, a clock reading or a wait. *)
Theorem send_one_file_read_error (w : world) (filepath host : string) (port : Z)
    (timeout : float) (tls : bool) (cafile : option string) (N : Z) :
  (1 ≤ N)%Z →
  (∀ content, fs w !! filepath ≠ Some (File content)) →
  ∃ e,
    read_file filepath w = (Raise e, w)
    ∧ send_one_file filepath host port timeout tls cafile N w =
      (Ret (false, [("attempts", PInt 1); ("sent_at", PNone); ("ack", PNone);
                    ("error", PStr ("read_error:" +:+ str_of_exn e))]), w).
Proof.
  intros HN Hfile. unfold send_one_file. rewrite py_range_cons by lia.
  simpl. unfold bind, catch, read_file.
  destruct (fs w !! filepath) as [[content|]|] eqn:Hf.
  - by destruct (Hfile content).
  - by eexists.
  - by eexists.
Qed.

(** X11. When the TLS context cannot be created, the failure is not turned
    into a result: the exception leaves [send_one_file] at the first
    attempt, nothing is retried or recorded, and the socket that was
    opened before is not closed. *)
Theorem send_one_file_context_error (w : world) (filepath host : string) (port : Z)
    (timeout : float) (cafile : option string) (N : Z) (payload : list byte) (e : exn) :
  (1 ≤ N)%Z →
  fs w !! filepath = Some (File payload) →
  connect_error (peer (connections w)) = None →
  default_context_error (peer (connections w)) = Some e →
  send_one_file filepath host port timeout true cafile N w =
  (Raise e, World (fs w) (S (connections w)) (utc_reads w)
                  (log w ++ [EvConnect host port])).
Proof.
  intros HN Hfile Hconn Hctx. unfold send_one_file. rewrite py_range_cons by lia.
  simpl. unfold bind at 1, catch, bind at 1, read_file. rewrite Hfile. simpl.
  unfold bind at 1, mllp_send, mllp_send_on. by rewrite Hconn, Hctx.
Qed.

Lemma send_attempts_connections filepath host port timeout tls cafile attempts meta w r w' :
  send_attempts filepath host port timeout tls cafile attempts meta w = (r, w') →
  connections w ≤ connections w' ≤ connections w + length attempts.
Proof.
  revert meta w. induction attempts as [|a attempts IH]; intros meta w; simpl.
  - intros [= _ <-]. lia.
  - unfold bind at 1, catch, bind at 1, read_file.
    destruct (fs w !! filepath) as [[content|]|]; simpl; [|intros [= _ <-]; lia..].
    unfold bind at 1, mllp_send.
    destruct (mllp_send_on _ _ _ _ _ _ _) as [[[ack|]|e] evs]; simpl.
    + unfold bind at 1, utcnow_isoformat. simpl. intros [= _ <-]. simpl. lia.
    + unfold bind at 1, utcnow_isoformat. simpl.
      unfold bind at 1, time_sleep. simpl.
      intros Hrun%IH. simpl in Hrun. lia.
    + intros [= _ <-]. simpl. lia.
Qed.

(** X12. A delivery never changes the file system, and opens at most
    [max_attempts] connections, however it ends. *)
Theorem send_one_file_bounds (w : world) (filepath host : string) (port : Z)
    (timeout : float) (tls : bool) (cafile : option string) (N : Z) :
  let w' := (send_one_file filepath host port timeout tls cafile N w).2 in
  fs w' = fs w
  ∧ connections w ≤ connections w' ≤ connections w + Z.to_nat N.
Proof.
  intros w'. split.
  - subst w'. destruct (send_one_file _ _ _ _ _ _ _ w) as [r w1] eqn:Hrun.
    by apply send_one_file_fs in Hrun.
  - subst w'. destruct (send_one_file _ _ _ _ _ _ _ w) as [r w1] eqn:Hrun.
    apply send_attempts_connections in Hrun. rewrite py_range_length in Hrun.
    simpl. lia.
Qed.
(** * More about the promotion into Ready *)

Lemma READY_DIR_join_basename path :
  os_path_join READY_DIR (os_path_basename path) =
  entry READY_DIR (os_path_basename path).
Proof. apply pipeline_dir_join; [constructor|apply os_path_basename_no_slash]. Qed.

(** The sidecar of the copy is never the source itself. *)
Lemma move_to_ready_sidecar_ne path :
  path ≠ os_path_join READY_DIR (os_path_basename path) +:+ META_EXT.
Proof.
  rewrite READY_DIR_join_basename, entry_meta. intros Hp.
  apply (f_equal os_path_basename) in Hp. unfold entry in Hp.
  rewrite os_path_basename_join in Hp
    by (apply no_slash_app; split; [apply os_path_basename_no_slash|done]).
  by apply string_app_ne in Hp.
Qed.

Lemma move_to_ready_fresh (w : world) (path : string) (content : list byte)
    (force : bool) :
  let dest := os_path_join READY_DIR (os_path_basename path) in
  let meta_path := dest +:+ META_EXT in
  let record := [("moved_at", PStr (utcnow_isoformat_at (utc_reads w)));
                 ("src", PStr path)] in
  fs w !! path = Some (File content) →
  fs w !! dest = None →
  fs w !! meta_path ≠ Some Dir →
  ∃ w',
    move_to_ready path force w = (Ret (dest, meta_path), w')
    ∧ fs w' = <[meta_path := File (json_dump record)]> (<[dest := File content]> (fs w))
    ∧ fs w' !! path = Some (File content)
    ∧ fs w' !! dest = Some (File content).
Proof.
  intros dest meta_path record Hpath Hdest Hmeta.
  assert (dest ≠ meta_path) as Hdm by (apply string_app_ne; done).
  assert (path ≠ dest) as Hpd by (intros Heq; rewrite Heq in Hpath; congruence).
  assert (path ≠ meta_path) as Hpm by apply move_to_ready_sidecar_ne.
  eexists. split; [|split_and!].
  - unfold move_to_ready. fold dest. fold meta_path.
    unfold bind at 1, os_path_exists.
    rewrite bool_decide_eq_false_2 by (rewrite Hdest; by intros [? ?]). simpl.
    unfold bind at 1, shutil_copy2.
    unfold bind at 1, os_path_isdir. rewrite Hdest.
    unfold bind at 1, os_path_exists.
    unfold bind at 1.
    rewrite bool_decide_eq_true_2 by (rewrite Hpath; eauto).
    rewrite bool_decide_eq_false_2 by (rewrite Hdest; by intros [? ?]). simpl.
    unfold bind at 1, read_file. rewrite Hpath.
    rewrite write_file_ok by (rewrite Hdest; done).
    unfold bind at 1, utcnow_isoformat. simpl.
    unfold bind at 1.
    rewrite write_file_ok; [reflexivity|].
    simpl. by rewrite lookup_insert_ne.
  - done.
  - simpl. by rewrite !lookup_insert_ne.
  - simpl. rewrite lookup_insert_ne by done. by rewrite lookup_insert_eq.
Qed.

(** X13. The regular case.  When the name is free in Ready, [move_to_ready]
    copies: the document appears in Ready with its content, the sidecar
    with the time of the call and the source path appears next to it,
    and the source stays where it was.  Nothing else changes, with or
    without [force]. *)
Theorem move_to_ready_copies (w : world) (path : string) (content : list byte)
    (force : bool) :
  let dest := os_path_join READY_DIR (os_path_basename path) in
  let meta_path := dest +:+ META_EXT in
  let record := [("moved_at", PStr (utcnow_isoformat_at (utc_reads w)));
                 ("src", PStr path)] in
  fs w !! path = Some (File content) →
  fs w !! dest = None →
  fs w !! meta_path ≠ Some Dir →
  ∃ w',
    move_to_ready path force w = (Ret (dest, meta_path), w')
    ∧ fs w' = <[meta_path := File (json_dump record)]> (<[dest := File content]> (fs w))
    ∧ fs w' !! path = Some (File content)
    ∧ fs w' !! dest = Some (File content).
Proof. apply move_to_ready_fresh. Qed.

(** X14. A call that raises has changed nothing, unless the path of the
    sidecar is a directory: whether the name was taken, the source was
    missing or a directory, or the source was the Ready entry itself,
    the world after the exception is the world before the call. *)
Theorem move_to_ready_raises_unchanged (w w' : world) (path : string)
    (force : bool) (e : exn) :
  move_to_ready path force w = (Raise e, w') →
  fs w !! (os_path_join READY_DIR (os_path_basename path) +:+ META_EXT) ≠ Some Dir →
  w' = w.
Proof.
  unfold move_to_ready.
  set (dest := os_path_join READY_DIR (os_path_basename path)).
  intros Hrun Hmeta. revert Hrun.
  unfold bind at 1, os_path_exists.
  destruct (bool_decide (is_Some (fs w !! dest)) && negb force); [by intros [= _ <-]|].
  unfold bind at 1, shutil_copy2.
  unfold bind at 1, os_path_isdir. simpl.
  unfold bind at 1, os_path_exists. unfold bind at 1.
  destruct (_ && _ && _); [by intros [= _ <-]|].
  unfold bind at 1, read_file.
  destruct (fs w !! path) as [[content|]|] eqn:Hpath; [|by intros [= _ <-]..].
  set (target := if match fs w !! dest with Some Dir => true | _ => false end
                 then os_path_join dest (os_path_basename path) else dest).
  unfold write_file at 1.
  destruct (fs w !! target) as [[old|]|] eqn:Htarget; [|by intros [= _ <-]|].
  - unfold bind at 1, utcnow_isoformat. simpl. unfold bind at 1, write_file. simpl.
    destruct (decide (dest +:+ META_EXT = target)) as [Heq|Hne].
    + rewrite Heq, lookup_insert_eq. done.
    + rewrite lookup_insert_ne by done.
      destruct (fs w !! (dest +:+ META_EXT)) as [[]|]; done.
  - unfold bind at 1, utcnow_isoformat. simpl. unfold bind at 1, write_file. simpl.
    destruct (decide (dest +:+ META_EXT = target)) as [Heq|Hne].
    + rewrite Heq, lookup_insert_eq. done.
    + rewrite lookup_insert_ne by done.
      destruct (fs w !! (dest +:+ META_EXT)) as [[]|]; done.
Qed.
(** * More about the queue *)

Lemma GEN_DIR_root : GEN_DIR = root +:+ "generated".
Proof. by apply os_path_join_base. Qed.

Lemma GEN_DIR_join n :
  contains "/" n = false → os_path_join GEN_DIR n = entry GEN_DIR n.
Proof.
  intros Hn. apply os_path_join_valid; [| |done].
  - rewrite GEN_DIR_root. by destruct root.
  - rewrite GEN_DIR_root. by apply endswith_app_valid.
Qed.

Lemma touches_for_each {A} P (l : list A) (body : A → M unit) :
  (∀ x, x ∈ l → touches P (body x)) → touches P (for_each l body).
Proof.
  induction l as [|x l IH]; intros Hbody; simpl.
  - apply touches_ret.
  - apply touches_bind; [apply Hbody; by left|].
    intros _. apply IH. intros y Hy. apply Hbody. by right.
Qed.

Section QueueFrame.

Variables (host : string) (port : Z) (timeout : float) (tls : bool)
  (cafile : option string) (max_attempts : Z) (archive_on_sent : bool).

(** The entries of Ready, Sent and Failed, and those of Archive when
    the run archives. *)
Definition queue_dir (d : string) : Prop :=
  d = READY_DIR ∨ d = SENT_DIR ∨ d = FAILED_DIR
  ∨ (archive_on_sent = true ∧ d = ARCHIVE_DIR).

Definition queue_paths (q : string) : Prop :=
  ∃ d x, queue_dir d ∧ q = entry d x.

Lemma queue_dir_pipeline d : queue_dir d → pipeline_dir d.
Proof. intros [-> | [-> | [-> | [_ ->]]]]; constructor. Qed.

Lemma touches_move_entries d1 d2 n1 n2 :
  queue_dir d1 → queue_dir d2 → valid_name n2 →
  touches queue_paths (shutil_move (entry d1 n1) (entry d2 n2)).
Proof.
  intros H1 H2 Hn. eapply touches_mono; [|apply touches_shutil_move].
  intros q [-> | [-> | ->]]; [by exists d1, n1|by exists d2, n2|].
  unfold nested. rewrite nested_entry by (done || by apply queue_dir_pipeline).
  by eexists d2, _.
Qed.

Lemma touches_copy_entries src d n :
  queue_dir d → valid_name n →
  touches queue_paths (shutil_copy2 src (entry d n)).
Proof.
  intros Hd Hn. eapply touches_mono; [|apply touches_shutil_copy2].
  intros q [-> | ->]; [by exists d, n|].
  unfold nested. rewrite nested_entry by (done || by apply queue_dir_pipeline).
  by eexists d, _.
Qed.

Lemma touches_write_entry d n data :
  queue_dir d → touches queue_paths (write_file (entry d n) data).
Proof.
  intros Hd. eapply touches_mono; [|apply touches_write_file].
  intros q ->. by exists d, n.
Qed.

Lemma touches_sidecar_block guarded d fname :
  queue_dir d → valid_name fname →
  touches queue_paths
    (sidecar_block guarded (entry READY_DIR (fname +:+ META_EXT))
                           (entry d (fname +:+ META_EXT))).
Proof.
  intros Hd Hf.
  assert (queue_dir READY_DIR) as Hr by (by left).
  pose proof (valid_name_meta _ Hf) as Hm.
  destruct guarded; simpl.
  - apply touches_catch; [|intros; apply touches_ret].
    apply touches_bind; [apply touches_os_path_exists|].
    intros []; [by apply touches_move_entries|apply touches_ret].
  - apply touches_catch; [by apply touches_move_entries|intros; apply touches_ret].
Qed.

Lemma touches_process_ready_file fname :
  valid_name fname →
  touches queue_paths
    (process_ready_file host port timeout tls cafile max_attempts
       archive_on_sent fname).
Proof.
  intros Hf. rewrite process_ready_file_entries by done.
  assert (queue_dir READY_DIR) as Hr by (by left).
  assert (queue_dir SENT_DIR) as Hs by (by right; left).
  assert (queue_dir FAILED_DIR) as Hfl by (by right; right; left).
  pose proof (valid_name_meta _ Hf) as Hm.
  apply touches_bind; [apply touches_os_path_isfile|].
  intros [|]; [|apply touches_ret]. simpl.
  apply touches_bind.
  { unfold validate_file. apply touches_bind; [apply touches_read_file|].
    intros; apply touches_ret. }
  intros [[|] prev]; simpl.
  - apply touches_bind; [apply touches_send_attempts|]. intros [[|] send_meta].
    + apply touches_bind; [by apply touches_write_entry|]. intros _.
      apply touches_bind; [by apply touches_move_entries|]. intros _.
      apply touches_bind; [by apply (touches_sidecar_block false)|]. intros _.
      destruct archive_on_sent eqn:Harch; [|apply touches_ret].
      assert (queue_dir ARCHIVE_DIR) as Ha by (by right; right; right).
      unfold archive_block.
      rewrite !(pipeline_dir_join ARCHIVE_DIR) by (apply Hf || apply Hm || constructor).
      apply touches_catch; [|intros; apply touches_ret].
      apply touches_bind; [by apply touches_copy_entries|]. intros _.
      apply touches_bind; [apply touches_os_path_exists|].
      intros [|]; [by apply touches_copy_entries|apply touches_ret].
    + apply touches_bind; [by apply touches_write_entry|]. intros _.
      apply touches_bind; [by apply touches_move_entries|]. intros _.
      by apply (touches_sidecar_block false).
  - apply touches_bind; [by apply touches_write_entry|]. intros _.
    apply touches_bind; [by apply touches_move_entries|]. intros _.
    by apply (touches_sidecar_block true).
Qed.

Lemma touches_process_ready_queue :
  touches queue_paths
    (process_ready_queue host port timeout tls cafile max_attempts archive_on_sent).
Proof.
  intros w r w' Hrun. unfold process_ready_queue, bind in Hrun.
  destruct (os_listdir_spec w) as (names & Hls & _ & Hnames).
  rewrite Hls in Hrun.
  eapply (touches_for_each queue_paths); [|exact Hrun].
  intros g Hg. apply touches_process_ready_file.
  rewrite ready_snapshot_all in Hg. unfold sorted in Hg.
  rewrite merge_sort_Permutation in Hg. by apply Hnames in Hg as [? _].
Qed.

Lemma generated_not_queue_path n : ¬ queue_paths (entry GEN_DIR n).
Proof.
  intros (d & x & Hd%queue_dir_pipeline & Heq).
  apply pipeline_dir_root in Hd as (sub & -> & Hsub).
  rewrite GEN_DIR_root in Heq. unfold entry in Heq.
  rewrite !string_app_assoc in Heq. apply (inj _) in Heq.
  repeat (apply elem_of_cons in Hsub as [->|Hsub]); [..|by apply elem_of_nil in Hsub];
    vm_compute in Heq; discriminate Heq.
Qed.

Lemma archive_not_queue_path x :
  archive_on_sent = false → ¬ queue_paths (entry ARCHIVE_DIR x).
Proof.
  intros Hoff (d & y & Hd & Heq).
  assert (pipeline_dir d ∧ d ≠ ARCHIVE_DIR) as [Hpd Hne].
  { destruct pipeline_dirs_distinct as (? & ? & ? & ? & ? & ?).
    destruct Hd as [-> | [-> | [-> | [Hon _]]]]; [split; [constructor|done]..|congruence]. }
  apply entry_inj in Heq as [Heq _]; [congruence|constructor|done].
Qed.

(** X16. A run of the queue changes nothing outside its directories,
    however it ends: every path that is not an entry of Ready, Sent,
    Failed or Archive is left as it was.  In particular the documents
    in Generated, the sources of what was queued, are neither moved nor
    changed; and a run that does not archive leaves Archive alone. *)
Theorem process_ready_queue_frame (w : world) :
  let w' := (process_ready_queue host port timeout tls cafile max_attempts
               archive_on_sent w).2 in
  (∀ p, (¬ ∃ d x, pipeline_dir d ∧ p = entry d x) → fs w' !! p = fs w !! p)
  ∧ (∀ n, contains "/" n = false →
       fs w' !! os_path_join GEN_DIR n = fs w !! os_path_join GEN_DIR n)
  ∧ (archive_on_sent = false →
     ∀ n, contains "/" n = false →
       fs w' !! os_path_join ARCHIVE_DIR n = fs w !! os_path_join ARCHIVE_DIR n).
Proof.
  intros w'. subst w'.
  destruct (process_ready_queue _ _ _ _ _ _ _ w) as [r w'] eqn:Hrun. simpl.
  pose proof (touches_process_ready_queue w r w' Hrun) as Hframe.
  split_and!.
  - intros p Hp. apply Hframe. intros (d & x & Hd%queue_dir_pipeline & ->).
    apply Hp. by exists d, x.
  - intros n Hn. rewrite GEN_DIR_join by done.
    apply Hframe, generated_not_queue_path.
  - intros Hoff n Hn. rewrite pipeline_dir_join by (done || constructor).
    by apply Hframe, archive_not_queue_path.
Qed.

(** X17. A directory in Ready is not a document: a run that ends normally,
    from a world where no regular file of Ready has a namesake in Sent
    or in Failed, leaves every directory of Ready where it is. *)
Theorem process_ready_queue_keeps_directories (w0 w' : world) :
  (∀ n c, snapshot_file w0 n c →
     ¬ present w0 SENT_DIR n ∧ ¬ present w0 FAILED_DIR n) →
  process_ready_queue host port timeout tls cafile max_attempts archive_on_sent w0
  = (Ret tt, w') →
  ∀ n, valid_name n →
    fs w0 !! os_path_join READY_DIR n = Some Dir →
    fs w' !! os_path_join READY_DIR n = Some Dir.
Proof.
  intros Hfree Hrun n Hn.
  rewrite pipeline_dir_join by (apply Hn || constructor).
  assert (names_free w0) as Hfree'.
  { intros m c Hm. destruct (Hfree m c) as [Hs Hf]; [by apply snapshot_file_ready|].
    destruct Hm as [Hv _]. unfold present in Hs, Hf.
    rewrite pipeline_dir_join in Hs, Hf by (apply Hv || constructor).
    by rewrite !eq_None_not_Some. }
  destruct (process_ready_queue_inv host port timeout tls cafile max_attempts
              archive_on_sent w0 w' Hfree' Hrun) as (_ & Hdirs & _).
  by apply Hdirs.
Qed.

End QueueFrame.
(** * Lines of text *)

(** A text without a line boundary. *)
Fixpoint one_line (s : string) : bool :=
  match s with
  | EmptyString => true
  | String c rest => negb (is_linebreak c) && one_line rest
  end.

(** A text without the character [c]. *)
Fixpoint without (c : ascii) (s : string) : bool :=
  match s with
  | EmptyString => true
  | String d rest => negb (bool_decide (d = c)) && without c rest
  end.

Lemma one_line_app a b : one_line (a +:+ b) = one_line a && one_line b.
Proof.
  induction a as [|c a IH]; [done|].
  rewrite string_app_cons. simpl. by rewrite IH, andb_assoc.
Qed.

Lemma without_app c a b : without c (a +:+ b) = without c a && without c b.
Proof.
  induction a as [|d a IH]; [done|].
  rewrite string_app_cons. simpl. by rewrite IH, andb_assoc.
Qed.

Lemma rev_app_rev s t : String.rev_app s t = String.rev s +:+ t.
Proof.
  unfold String.rev. revert t. induction s as [|c s IH]; intros t; [done|].
  simpl. rewrite (IH (String c t)), (IH (String c "")).
  by rewrite string_app_assoc.
Qed.

Lemma rev_rev_app l cur : String.rev (String.rev_app l cur) = String.rev cur +:+ l.
Proof.
  revert cur. induction l as [|c l IH]; intros cur; simpl.
  - by rewrite string_app_nil_r.
  - rewrite IH. unfold String.rev at 1. simpl. rewrite rev_app_rev.
    by rewrite string_app_assoc.
Qed.

(** *** [splitlines] *)

Lemma splitlines_go_line cur l rest :
  one_line l = true →
  splitlines_go false cur (l +:+ LF +:+ rest) =
  (String.rev cur +:+ l) :: splitlines_go false EmptyString rest.
Proof.
  revert cur. induction l as [|c l IH]; intros cur Hl.
  - rewrite string_app_nil_l, string_app_nil_r. reflexivity.
  - simpl in Hl. apply andb_true_iff in Hl as [Hc Hl].
    apply negb_true_iff in Hc.
    rewrite string_app_cons. simpl. rewrite Hc.
    rewrite (IH (String c cur)) by done.
    unfold String.rev at 1. simpl. rewrite rev_app_rev.
    by rewrite string_app_assoc.
Qed.

Lemma splitlines_join lines :
  Forall (λ l, one_line l = true) lines →
  lines ≠ [] →
  splitlines (str_join LF lines +:+ LF) = lines.
Proof.
  unfold splitlines, str_join.
  induction 1 as [|l ls Hl Hls IH]; intros Hne; [done|].
  destruct ls as [|l' ls].
  - simpl. rewrite <- (string_app_nil_r LF) at 1.
    by rewrite splitlines_go_line.
  - change (String.concat LF (l :: l' :: ls))
      with (l +:+ LF +:+ String.concat LF (l' :: ls)).
    rewrite !string_app_assoc, splitlines_go_line by done.
    by rewrite IH.
Qed.

Lemma one_line_single txt :
  one_line txt = true → txt ≠ "" → splitlines txt = [txt].
Proof.
  intros Hl Hne. unfold splitlines.
  assert (∀ cur, cur ≠ "" ∨ txt ≠ "" →
            splitlines_go false cur txt = [String.rev cur +:+ txt]) as H.
  { clear Hne. induction txt as [|c txt IH]; intros cur Hcur.
    - destruct Hcur as [Hcur|]; [|done]. simpl.
      rewrite string_app_nil_r. by destruct cur.
    - simpl in Hl. apply andb_true_iff in Hl as [Hc Hl].
      apply negb_true_iff in Hc. simpl. rewrite Hc.
      rewrite IH by (done || by left).
      unfold String.rev at 1. simpl. rewrite rev_app_rev.
      by rewrite string_app_assoc. }
  by rewrite H by (by right).
Qed.

(** *** [split] *)

Lemma split_go_field sep cur field rest :
  without sep field = true →
  split_go sep cur (field +:+ String sep rest) =
  (String.rev cur +:+ field) :: split_go sep EmptyString rest.
Proof.
  revert cur. induction field as [|c field IH]; intros cur Hf.
  - rewrite string_app_nil_l, string_app_nil_r. simpl.
    by rewrite bool_decide_eq_true_2.
  - simpl in Hf. apply andb_true_iff in Hf as [Hc Hf].
    apply negb_true_iff in Hc.
    rewrite string_app_cons. simpl. rewrite Hc.
    rewrite (IH (String c cur)) by done.
    unfold String.rev at 1. simpl. rewrite rev_app_rev.
    by rewrite string_app_assoc.
Qed.

(** *** [in] and [startswith] on joined lines *)

Lemma contains_app_l sub a b : contains sub a = true → contains sub (a +:+ b) = true.
Proof.
  rewrite !contains_spec. intros (x & y & ->). exists x, (y +:+ b).
  by rewrite !string_app_assoc.
Qed.

Lemma contains_app_r sub a b : contains sub b = true → contains sub (a +:+ b) = true.
Proof.
  rewrite !contains_spec. intros (x & y & ->). exists (a +:+ x), y.
  by rewrite !string_app_assoc.
Qed.

Lemma contains_startswith sub s : startswith s sub = true → contains sub s = true.
Proof.
  rewrite startswith_spec, contains_spec. intros [rest ->]. by exists "", rest.
Qed.

Lemma contains_join sub lines l :
  l ∈ lines → startswith l sub = true →
  contains sub (str_join LF lines +:+ LF) = true.
Proof.
  intros Hin Hl. apply contains_app_l. unfold str_join.
  induction lines as [|x [|y lines] IH].
  - by apply elem_of_nil in Hin.
  - apply list_elem_of_singleton in Hin as ->. by apply contains_startswith.
  - change (String.concat LF (x :: y :: lines))
      with (x +:+ LF +:+ String.concat LF (y :: lines)).
    apply elem_of_cons in Hin as [->|Hin].
    + by apply contains_app_l, contains_startswith.
    + apply contains_app_r, contains_app_r. by apply IH.
Qed.

(** *** [first_index] *)

Lemma first_index_skip {A} (p : A → bool) l1 x l2 :
  Forall (λ y, p y = false) l1 → p x = true →
  first_index p (l1 ++ x :: l2) = Some (length l1).
Proof.
  intros H Hx. induction H as [|y l1 Hy _ IH]; simpl.
  - by rewrite Hx.
  - by rewrite Hy, IH.
Qed.

(** *** Decimal numerals *)

(** The characters of a numeral: digits, and the sign. *)
Definition numeral_char (c : ascii) : bool :=
  let n := nat_of_ascii c in bool_decide (48 ≤ n ≤ 57 ∨ n = 45).

Fixpoint numeral (s : string) : bool :=
  match s with
  | EmptyString => true
  | String c rest => numeral_char c && numeral rest
  end.

Lemma numeral_pretty_N_go x s : numeral s = true → numeral (pretty_N_go x s) = true.
Proof.
  revert s. induction (N.lt_wf_0 x) as [x _ IH]; intros s Hs.
  assert (x = 0 ∨ 0 < x)%N as [->|Hx] by lia; [done|].
  rewrite pretty_N_go_step by done. apply IH; [by apply N.div_lt|].
  simpl. rewrite Hs, andb_true_r.
  unfold pretty_N_char. by repeat case_match.
Qed.

Lemma numeral_str_of_int n : numeral (str_of_int n) = true.
Proof.
  unfold str_of_int, pretty, pretty_Z.
  assert (∀ p : positive, numeral (pretty p) = true) as Hpos.
  { intros p. unfold pretty, pretty_positive, pretty, pretty_N.
    case_decide; [done|]. by apply numeral_pretty_N_go. }
  destruct n as [|p|p]; [done|apply Hpos|].
  change (numeral (String "-" (pretty p)) = true). simpl. by rewrite Hpos.
Qed.

Lemma numeral_one_line s : numeral s = true → one_line s = true.
Proof.
  induction s as [|c s IH]; [done|]. simpl.
  intros [Hc Hs]%andb_true_iff. rewrite IH, andb_true_r by done.
  unfold numeral_char in Hc. apply bool_decide_eq_true in Hc.
  unfold is_linebreak. apply negb_true_iff, bool_decide_eq_false.
  rewrite !elem_of_cons, elem_of_nil. lia.
Qed.

Lemma numeral_without_plus s : numeral s = true → without "+" s = true.
Proof.
  induction s as [|c s IH]; [done|]. simpl.
  intros [Hc Hs]%andb_true_iff. rewrite IH, andb_true_r by done.
  unfold numeral_char in Hc. apply bool_decide_eq_true in Hc.
  apply negb_true_iff, bool_decide_eq_false. intros ->. vm_compute in Hc. lia.
Qed.
(** * Properties of the message generator *)

(** *** Orders whose texts have no line breaks *)

Definition value_clean (v : jval float) : bool :=
  match v with
  | JStr s => one_line s
  | _ => true
  end.

Definition dict_clean (d : list (string * jval float)) : bool :=
  forallb (λ kv, value_clean kv.2) d.

Definition element_clean (v : jval float) : bool :=
  match v with
  | JDict d => dict_clean d
  | _ => true
  end.

Definition elements_clean (v : jval float) : bool :=
  match v with
  | JList l => forallb element_clean l
  | _ => true
  end.

(** No string of the order, of its parties or of its items contains a
    line boundary. *)
Definition order_clean (order : list (string * jval float)) : bool :=
  dict_clean order
  && elements_clean (jdict_get_or order "parties" (JList []))
  && elements_clean (jdict_get_or order "items" (JList [])).

(** A line between header and trailer: one line, and neither a header
    nor a trailer. *)
Definition body_line (l : string) : Prop :=
  one_line l = true ∧ startswith l "UNH+" = false ∧ startswith l "UNT+" = false.

Lemma jdict_get_or_clean d key fallback :
  dict_clean d = true → value_clean fallback = true →
  value_clean (jdict_get_or d key fallback) = true.
Proof.
  intros Hd Hf. unfold jdict_get_or.
  induction d as [|[k v] d IH]; [done|]. simpl in *.
  apply andb_true_iff in Hd as [Hv Hd].
  case_bool_decide; [done|]. by apply IH.
Qed.

Lemma str_of_int_one_line n : one_line (str_of_int n) = true.
Proof. apply numeral_one_line, numeral_str_of_int. Qed.

Section Generated.

Hypothesis other_one_line : ∀ v, one_line (py_str_other v) = true.
Hypothesis format_one_line : ∀ f, one_line (format_2f f) = true.

Lemma py_str_one_line v : value_clean v = true → one_line (py_str v) = true.
Proof using other_one_line.
  destruct v as [|[]|n|f|s|l|d]; simpl; try done.
  intros _. apply numeral_one_line, numeral_str_of_int.
Qed.

Lemma total_text_one_line t : one_line (total_text t) = true.
Proof using format_one_line. destruct t; [apply format_one_line|done]. Qed.

Ltac line_ok :=
  split_and!; [|reflexivity..];
  rewrite ?one_line_app; simpl;
  rewrite ?py_str_one_line, ?total_text_one_line
    by (done ||
        (apply jdict_get_or_clean;
         [done|simpl; rewrite ?one_line_app, ?str_of_int_one_line; done]));
  rewrite ?str_of_int_one_line;
  done.

Lemma party_lines_body p lines :
  element_clean p = true → party_lines p = inr lines → Forall body_line lines.
Proof using other_one_line.
  destruct p as [| | | | | |d]; try done. simpl. intros Hd [= <-].
  apply Forall_cons. split; [line_ok|].
  destruct (py_bool _); [|constructor]. apply Forall_singleton. line_ok.
Qed.

Lemma item_lines_body idx item lines :
  element_clean item = true → item_lines (idx, item) = inr lines →
  Forall body_line lines.
Proof using other_one_line.
  destruct item as [| | | | | |d]; try done. simpl. intros Hd [= <-].
  apply Forall_cons. split; [line_ok|].
  apply Forall_app. split.
  - destruct (py_bool _); [|constructor]. apply Forall_singleton. line_ok.
  - apply Forall_cons. split; [line_ok|]. apply Forall_singleton. line_ok.
Qed.

Lemma lines_of_parties_body l lines :
  forallb element_clean l = true →
  lines_of party_lines l = inr lines → Forall body_line lines.
Proof using other_one_line.
  revert lines. induction l as [|p l IH]; intros lines Hl; simpl.
  - by intros [= <-].
  - simpl in Hl. apply andb_true_iff in Hl as [Hp Hl].
    destruct (party_lines p) as [|first] eqn:Hfirst; [done|]. simpl.
    destruct (lines_of party_lines l) as [|others]; [done|]. simpl.
    intros [= <-]. apply Forall_app. split; [by eapply party_lines_body|].
    by apply IH.
Qed.

Lemma lines_of_items_body (number : nat → Z) l lines :
  forallb element_clean l = true →
  lines_of item_lines (imap (λ i x, (number i, x)) l) = inr lines →
  Forall body_line lines.
Proof using other_one_line.
  revert number lines. induction l as [|p l IH]; intros number lines Hl.
  - by intros [= <-].
  - simpl in Hl. apply andb_true_iff in Hl as [Hp Hl].
    cbn [imap lines_of].
    destruct (item_lines (number 0, p)) as [|first] eqn:Hfirst; [done|].
    cbn [or_raise].
    destruct (lines_of item_lines (imap ((λ i x, (number i, x)) ∘ S) l))
      as [|others] eqn:Hothers; [done|]. cbn [or_raise].
    intros [= <-]. apply Forall_app. split; [by eapply item_lines_body|].
    by apply (IH (number ∘ S)).
Qed.

Lemma py_iter_clean v l :
  elements_clean v = true → py_iter v = inr l → forallb element_clean l = true.
Proof.
  destruct v as [| | | |s|l'|d]; simpl; try done.
  - intros _ [= <-]. by induction (list_ascii_of_string s).
  - by intros H [= <-].
  - intros _ [= <-]. by induction d.
Qed.

(** The shape of the message: the service string advice, the
    interchange header and the message header; the body; the message
    trailer with its count, and the interchange trailer. *)
Lemma edifact_lines_shape order now hhmm msg_ref lines :
  edifact_lines order now hhmm msg_ref = inr lines →
  ∃ una unb tail body,
    lines = [una; unb; "UNH+" +:+ py_str msg_ref +:+ "+ORDERS:D:96A:UN'"] ++ body ++
            ["UNT+" +:+ str_of_int (Z.of_nat (length body) + 4) +:+ "+" +:+ tail;
             "UNZ+1+" +:+ py_str msg_ref +:+ "'"]
    ∧ startswith una "UNA" = true
    ∧ startswith una "UNH+" = false
    ∧ startswith unb "UNH+" = false
    ∧ (order_clean order = true → value_clean msg_ref = true →
       one_line now = true → one_line hhmm = true →
       one_line una = true ∧ one_line unb = true ∧ one_line tail = true
       ∧ Forall body_line body).
Proof using other_one_line format_one_line.
  unfold edifact_lines. cbv zeta.
  destruct (py_iter (jdict_get_or order "parties" (JList []))) as [|parties] eqn:Hp;
    [done|]. cbn [or_raise].
  destruct (lines_of party_lines parties) as [|plines] eqn:Hpl; [done|].
  cbn [or_raise].
  destruct (py_iter (jdict_get_or order "items" (JList []))) as [|items] eqn:Hi;
    [done|]. cbn [or_raise].
  destruct (lines_of item_lines (enumerate_from_1 items)) as [|ilines] eqn:Hil;
    [done|]. cbn [or_raise].
  intros Hlines. apply (inj inr) in Hlines. subst lines.
  exists "UNA:+.? '",
    ("UNB+UNOA:1+" +:+ py_str (jdict_get_or order "sender" (JStr "SENDER")) +:+
     "+" +:+ py_str (jdict_get_or order "receiver" (JStr "RECEIVER")) +:+
     "+" +:+ now +:+ ":" +:+ hhmm +:+ "+" +:+ py_str msg_ref +:+ "'"),
    (py_str msg_ref +:+ "'"),
    (["BGM+220+" +:+ py_str (jdict_get_or order "order_number" (JStr "ORD")) +:+ "+9'";
      "DTM+137:" +:+ py_str (jdict_get_or order "order_date" (JStr now)) +:+ ":102'"]
     ++ plines ++ ilines
     ++ ["MOA+79:" +:+
         total_text (order_total (jdict_get_or order "items" (JList []))) +:+ "'"]).
  split_and!; [|reflexivity..|].
  - match goal with
    | |- context [(Z.of_nat (length ?l) + 1)%Z] =>
        replace (Z.of_nat (length l) + 1)%Z
          with (Z.of_nat (length plines + length ilines) + 7)%Z
          by (rewrite !length_app; cbn [length]; lia)
    end.
    match goal with
    | |- context [(Z.of_nat (length ?l) + 4)%Z] =>
        replace (Z.of_nat (length l) + 4)%Z
          with (Z.of_nat (length plines + length ilines) + 7)%Z
          by (rewrite !length_app; cbn [length]; rewrite ?length_app; cbn [length]; lia)
    end.
    rewrite <- !app_assoc. reflexivity.
  - intros Hclean Hm Hnow Hhhmm. unfold order_clean in Hclean.
    apply andb_true_iff in Hclean as [Hclean Hitems].
    apply andb_true_iff in Hclean as [Hd Hparties].
    split_and!.
    + done.
    + rewrite !one_line_app. simpl.
      rewrite !py_str_one_line by (done || (by apply jdict_get_or_clean)).
      by rewrite Hnow, Hhhmm.
    + rewrite one_line_app. by rewrite py_str_one_line.
    + apply Forall_cons. split; [line_ok|].
      apply Forall_cons. split; [line_ok|].
      apply Forall_app. split.
      { eapply lines_of_parties_body; [|exact Hpl].
        exact (py_iter_clean _ _ Hparties Hp). }
      apply Forall_app. split.
      { eapply (lines_of_items_body (λ i, Z.of_nat i + 1)%Z); [|exact Hil].
        exact (py_iter_clean _ _ Hitems Hi). }
      apply Forall_singleton. line_ok.
Qed.

End Generated.
(** *** What the validator makes of a generated message *)

Lemma startswith_app s p t : startswith s p = true → startswith (s +:+ t) p = true.
Proof.
  rewrite !startswith_spec. intros [rest ->]. exists (rest +:+ t).
  by rewrite string_app_assoc.
Qed.

Lemma startswith_join l ls p :
  startswith l p = true → startswith (str_join LF (l :: ls) +:+ LF) p = true.
Proof.
  intros H. apply startswith_app. unfold str_join.
  destruct ls as [|l' ls]; [done|].
  change (String.concat LF (l :: l' :: ls))
    with (l +:+ LF +:+ String.concat LF (l' :: ls)).
  by apply startswith_app.
Qed.

(** A text of one line per segment, with the message header in the
    third line and the first trailer after a body of [length body]
    lines: the count the validator finds, and the one it reads in the
    trailer. *)
Lemma shaped_text_counts una unb unh body count tail unz :
  startswith una "UNH+" = false → startswith unb "UNH+" = false →
  startswith unh "UNH+" = true → startswith unh "UNT+" = false →
  one_line una = true → one_line unb = true → one_line unh = true →
  one_line tail = true → one_line unz = true →
  Forall body_line body →
  let lines := [una; unb; unh] ++ body ++
               ["UNT+" +:+ str_of_int count +:+ "+" +:+ tail; unz] in
  let text := str_join LF lines +:+ LF in
  splitlines text = lines
  ∧ actual_count text = Some (Z.of_nat (length body) + 2)%Z
  ∧ declared_count text = py_int (str_of_int count).
Proof.
  intros Huna Hunb Hunh Hunh' Luna Lunb Lunh Ltail Lunz Hbody lines text.
  set (unt := "UNT+" +:+ str_of_int count +:+ "+" +:+ tail) in *.
  assert (one_line unt = true) as Lunt.
  { unfold unt. rewrite !one_line_app, str_of_int_one_line, Ltail. done. }
  assert (splitlines text = lines) as Hsplit.
  { apply splitlines_join; [|done].
    repeat (apply Forall_cons; split; [done|]).
    apply Forall_app. split.
    - eapply Forall_impl; [exact Hbody|]. by intros l [? _].
    - by repeat (apply Forall_cons; split; [done|]). }
  assert (unh_unt_idx lines = Some (2, 3 + length body)) as Hidx.
  { unfold unh_unt_idx.
    assert (first_index (λ ln, startswith ln "UNH+") lines = Some 2) as ->.
    { apply (first_index_skip _ [una; unb]); [|done].
      by repeat (apply Forall_cons; split; [done|]). }
    simpl. rewrite Hunh'.
    rewrite (first_index_skip _ body);
      [done| |apply startswith_spec; by eexists].
    eapply Forall_impl; [exact Hbody|]. by intros l (_ & _ & ?). }
  split_and!; [done| |].
  - unfold actual_count. rewrite Hsplit, Hidx. simpl. f_equal. lia.
  - unfold declared_count. rewrite Hsplit, Hidx. simpl.
    assert (lines !! (3 + length body) = Some unt) as Hl.
    { unfold lines. rewrite (app_assoc _ body).
      replace (3 + length body) with (length ([una; unb; unh] ++ body))
        by (rewrite length_app; done).
      apply list_lookup_middle. done. }
    simpl in Hl. rewrite Hl. simpl.
    unfold reported_count, str_split, unt.
    change ("UNT+" +:+ str_of_int count +:+ "+" +:+ tail)
      with ("UNT" +:+ String "+" (str_of_int count +:+ String "+" tail)).
    rewrite split_go_field by done.
    rewrite split_go_field by apply numeral_without_plus, numeral_str_of_int.
    done.
Qed.

(** X21. The generator and the validator agree, at the edge of the
    validator's tolerance.  For an order whose strings contain no line
    break, every message [simple_edifact_from_order] returns is valid
    with the note [ok]; the trailer declares two segments more than the
    validator counts between header and trailer, since the generator
    counts the service string advice and the interchange header as
    well. *)
Theorem generated_message_validates (order : list (string * jval float))
    (draws draws' : nat) (w w' : world) (text : string) (data : list byte) :
  (∀ v, one_line (py_str_other v) = true) →
  (∀ f, one_line (format_2f f) = true) →
  (∀ n fmt, one_line (utcnow_strftime_at n fmt) = true) →
  (∀ n, (0 ≤ n)%Z → py_int (str_of_int n) = Some n) →
  order_clean order = true →
  simple_edifact_from_order order draws w = (Ret (inr text, draws'), w') →
  decode_replace data = text →
  ∃ segments,
    actual_count text = Some segments
    ∧ declared_count text = Some (segments + 2)%Z
    ∧ basic_validate_edifact_bytes data = (true, "ok").
Proof.
  intros Hother Hformat Hclock Hint Hclean Hrun Hdata.
  unfold simple_edifact_from_order, bind, utcnow_strftime, ret in Hrun.
  cbn [utc_reads] in Hrun.
  set (now := utcnow_strftime_at (utc_reads w) "%Y%m%d") in *.
  set (hhmm := utcnow_strftime_at (S (utc_reads w)) "%H%M") in *.
  set (msg_ref := jdict_get_or order "message_ref"
                    (JStr ("MSG" +:+ str_of_int (random_randint_at draws 1000 9999))))
    in *.
  destruct (edifact_lines order now hhmm msg_ref) as [|lines] eqn:Hlines;
    [done|].
  cbn [or_raise] in Hrun. injection Hrun as Htext _ _.
  assert (value_clean msg_ref = true) as Hmsg.
  { unfold order_clean in Hclean.
    apply andb_true_iff in Hclean as [[Hd _]%andb_true_iff _].
    apply jdict_get_or_clean; [done|]. simpl.
    apply str_of_int_one_line. }
  destruct (edifact_lines_shape Hother Hformat _ _ _ _ _ Hlines)
    as (una & unb & tail & body & -> & Huna & Huna' & Hunb & Hlines').
  destruct (Hlines' Hclean Hmsg (Hclock _ _) (Hclock _ _))
    as (Luna & Lunb & Ltail & Hbody).
  assert (one_line (py_str msg_ref) = true) as Lmsg by (by apply py_str_one_line).
  destruct (shaped_text_counts una unb
              ("UNH+" +:+ py_str msg_ref +:+ "+ORDERS:D:96A:UN'") body
              (Z.of_nat (length body) + 4) tail
              ("UNZ+1+" +:+ py_str msg_ref +:+ "'"))
    as (Hsplit & Hactual & Hdeclared); try done.
  { apply startswith_spec. by eexists. }
  { rewrite !one_line_app. by rewrite Lmsg. }
  { rewrite !one_line_app. by rewrite Lmsg. }
  rewrite Hint in Hdeclared by lia.
  rewrite Htext in Hactual, Hdeclared.
  exists (Z.of_nat (length body) + 2)%Z. split_and!.
  - done.
  - rewrite Hdeclared. f_equal. lia.
  - rewrite validate_markers.
    + rewrite Hdata, (count_check_counts _ _ _ Hdeclared Hactual).
      rewrite bool_decide_eq_false_2; [done|lia].
    + rewrite Hdata, <- Htext. split_and!.
      * left. by apply startswith_join.
      * apply (contains_join _ _ ("UNH+" +:+ py_str msg_ref +:+ "+ORDERS:D:96A:UN'"));
          [|apply startswith_spec; by eexists].
        apply elem_of_app. left. rewrite !elem_of_cons. by right; right; left.
      * apply (contains_join _ _
                 ("UNT+" +:+ str_of_int (Z.of_nat (length body) + 4) +:+ "+" +:+ tail));
          [|apply startswith_spec; by eexists].
        apply elem_of_app. right. apply elem_of_app. right.
        rewrite elem_of_cons. by left.
Qed.
(** *** Documents in one line *)

(** X20. A document without a line break is never count-checked.  The
    validator looks for the message header at the start of a line; a
    document that passes the marker tests starts with [UNA] or [UNB],
    so when it is a single line no line starts with [UNH+], and the
    note is [ok] whatever count the trailer declares. *)
Theorem single_line_is_not_counted (data : list byte) :
  markers_present (decode_replace data) →
  one_line (decode_replace data) = true →
  basic_validate_edifact_bytes data = (true, "ok").
Proof.
  intros Hm Hl. rewrite validate_markers by done.
  destruct Hm as (Hhead & _ & _).
  assert (decode_replace data ≠ "" ∧ startswith (decode_replace data) "UNH+" = false)
    as [Hne Hunh].
  { destruct Hhead as [[rest ->]%startswith_spec|[rest ->]%startswith_spec];
      by split. }
  unfold count_check. rewrite one_line_single by done.
  unfold unh_unt_idx. simpl. by rewrite Hunh.
Qed.

(** *** When the generator raises *)







(** *** The total of the order *)

Lemma sum_amounts_fails total l it :
  it ∈ l → item_amount it = None → sum_amounts total l = None.
Proof.
  intros Hin Hit. revert total. induction l as [|x l IH]; intros total.
  - by apply elem_of_nil in Hin.
  - simpl. apply elem_of_cons in Hin as [<-|Hin]; [by rewrite Hit|].
    destruct (item_amount x); [by apply IH|done].
Qed.

Lemma sum_amounts_total total l :
  Forall (λ it, is_Some (item_amount it)) l →
  sum_amounts total l =
  Some (foldl (λ t it, Some (float_add (default float_zero t)
                               (default float_zero (item_amount it))))
              total l).
Proof.
  intros H. revert total. induction H as [|x l [a Ha] _ IH]; intros total; [done|].
  simpl. rewrite Ha. simpl. by rewrite IH.
Qed.

(** X23. The total in the [MOA] segment is all or nothing.  When the
    quantity and the price of every item convert to a float, it is the
    sum of their products, added up from [0] in the order of the items.
    As soon as one value of one item does not convert, no exception
    leaves the generator and the message says [0.00], whatever the
    other items amount to. *)
Theorem order_total_all_or_nothing (order : list (string * jval float))
    (now hhmm : string) (msg_ref : jval float) (lines : list string)
    (items : list (jval float)) :
  edifact_lines order now hhmm msg_ref = inr lines →
  py_iter (jdict_get_or order "items" (JList [])) = inr items →
  let total := order_total (jdict_get_or order "items" (JList [])) in
  ("MOA+79:" +:+ total_text total +:+ "'") ∈ lines
  ∧ (Forall (λ it, is_Some (item_amount it)) items →
     total = foldl (λ t it, Some (float_add (default float_zero t)
                                    (default float_zero (item_amount it))))
                   None items)
  ∧ (∀ it, it ∈ items → item_amount it = None →
       total = None ∧ total_text total = "0.00").
Proof.
  intros Hlines Hitems total. split_and!.
  - revert Hlines. unfold edifact_lines. cbv zeta. rewrite Hitems.
    destruct (py_iter (jdict_get_or order "parties" (JList []))); [done|].
    cbn [or_raise]. destruct (lines_of party_lines _); [done|]. cbn [or_raise].
    destruct (lines_of item_lines _); [done|]. cbn [or_raise].
    intros Hl. apply (inj inr) in Hl. subst lines.
    apply elem_of_app. left. apply elem_of_app. left. apply elem_of_app. right.
    apply list_elem_of_singleton. done.
  - intros Hall. unfold total, order_total. rewrite Hitems.
    by rewrite sum_amounts_total.
  - intros it Hin Hit. unfold total, order_total. rewrite Hitems.
    by rewrite (sum_amounts_fails _ _ it).
Qed.

(** *** Saving a message *)

(** * Listing and commands *)

(** *** [list_dir_with_meta] *)

(** The directories of the pipeline, Generated included. *)
Definition known_dir (d : string) : Prop := pipeline_dir d ∨ d = GEN_DIR.

Lemma known_dir_join d n :
  known_dir d → contains "/" n = false → os_path_join d n = entry d n.
Proof.
  intros [Hd| ->] Hn; [by apply pipeline_dir_join|by apply GEN_DIR_join].
Qed.

Lemma os_listdir_entries d w :
  ∃ names, os_listdir d w = (Ret names, w)
    ∧ NoDup names
    ∧ ∀ n, n ∈ names ↔ valid_name n ∧ is_Some (fs w !! entry d n).
Proof.
  eexists. split; [reflexivity|]. split.
  - pose proof (NoDup_elements (dom (fs w))) as Hnd.
    induction Hnd as [|p l Hp Hnd IH]; [constructor|]. simpl.
    destruct (child_name d p) as [n|] eqn:Hn; [|done].
    constructor; [|done]. intros (q & Hq & Hqn)%list_elem_of_omap.
    apply child_name_spec in Hn as [-> _]. apply child_name_spec in Hqn as [-> _].
    done.
  - intros n. rewrite list_elem_of_omap. split.
    + intros (p & Hp & [-> Hn]%child_name_spec). split; [done|].
      by apply elem_of_elements, elem_of_dom in Hp.
    + intros [Hn Hsome]. exists (entry d n). split.
      * by apply elem_of_elements, elem_of_dom.
      * by apply child_name_spec.
Qed.

(** What the listing shows next to the path [p]: nothing without a
    sidecar, the loaded sidecar, or the error record when the sidecar
    cannot be read or parsed. *)
Definition shown_meta (w : world) (p : string) : option (jval float) :=
  match fs w !! (p +:+ META_EXT) with
  | None => None
  | Some (File data) =>
      Some (default (JDict [("_meta_error", JStr "failed_to_load")]) (json_load data))
  | Some Dir => Some (JDict [("_meta_error", JStr "failed_to_load")])
  end.

Lemma list_entries_step d n names out w :
  list_entries d (n :: names) out w =
  if bool_decide (fs w !! os_path_join d n = Some Dir)
  then list_entries d names out w
  else list_entries d names
         (out ++ [(os_path_join d n, shown_meta w (os_path_join d n))]) w.
Proof.
  cbn [list_entries]. unfold shown_meta.
  unfold bind at 1, os_path_isdir.
  destruct (fs w !! os_path_join d n) as [[c|]|] eqn:Hn;
    [rewrite bool_decide_eq_false_2 by done
    |by rewrite bool_decide_eq_true_2
    |rewrite bool_decide_eq_false_2 by done].
  all: unfold bind, os_path_exists, catch, read_file, ret; cbv beta iota zeta.
  all: destruct (fs w !! (os_path_join d n +:+ META_EXT)) as [[data|]|] eqn:Hm.
  all: rewrite ?bool_decide_eq_true_2 by eauto.
  all: rewrite ?bool_decide_eq_false_2 by (by intros [? ?]).
  all: cbv beta iota zeta; rewrite ?Hm; reflexivity.
Qed.

Lemma list_entries_run d names out w :
  list_entries d names out w =
  (Ret (out ++ ((λ n, (os_path_join d n, shown_meta w (os_path_join d n))) <$>
                filter (λ n, fs w !! os_path_join d n ≠ Some Dir) names)), w).
Proof.
  revert out. induction names as [|n names IH]; intros out.
  - simpl. by rewrite app_nil_r.
  - rewrite list_entries_step. case_bool_decide as Hn.
    + rewrite filter_cons_False by (by intros ?). apply IH.
    + rewrite filter_cons_True by done. rewrite IH, <- app_assoc. reflexivity.
Qed.

Lemma StronglySorted_filter {A} (R : relation A) (P : A → Prop)
    `{∀ x, Decision (P x)} l :
  StronglySorted R l → StronglySorted R (filter P l).
Proof.
  induction 1 as [|x l Hl IH Hx]; [constructor|].
  rewrite filter_cons. destruct (decide (P x)); [|done].
  constructor; [done|].
  rewrite Forall_forall in Hx |- *. intros y [_ Hy]%list_elem_of_filter. auto.
Qed.

(** X25. The listing of a pipeline directory never fails and changes
    nothing.  It shows the regular files of the directory and nothing
    else, each once, in the order of their names; a sidecar is a
    regular file, so it is shown as an entry of its own.  Next to each
    path stands what its sidecar holds: nothing when there is none, and
    the error record when it cannot be read or parsed. *)
Theorem list_dir_with_meta_entries (d : string) (w : world) :
  known_dir d →
  ∃ names,
    list_dir_with_meta d w =
    (Ret ((λ n, (entry d n, shown_meta w (entry d n))) <$> names), w)
    ∧ StronglySorted String.le names
    ∧ NoDup names
    ∧ (∀ n, n ∈ names ↔ valid_name n ∧ ∃ c, fs w !! entry d n = Some (File c))
    ∧ (∀ n c, n ∈ names → fs w !! entry d (n +:+ META_EXT) = Some (File c) →
         (n +:+ META_EXT) ∈ names).
Proof.
  intros Hd. destruct (os_listdir_entries d w) as (names & Hls & Hnd & Hnames).
  assert (sorted names ≡ₚ names) as Hperm by apply merge_sort_Permutation.
  set (shown := filter (λ n, fs w !! os_path_join d n ≠ Some Dir) (sorted names)).
  assert (∀ n, n ∈ shown ↔ valid_name n ∧ ∃ c, fs w !! entry d n = Some (File c))
    as Hshown.
  { intros n. unfold shown. rewrite list_elem_of_filter, Hperm, Hnames. split.
    - intros [Hnd' [Hv Hsome]]. split; [done|].
      rewrite known_dir_join in Hnd' by (done || apply Hv).
      destruct (fs w !! entry d n) as [[c|]|]; [by eexists|done|by destruct Hsome].
    - intros [Hv [c Hc]]. rewrite known_dir_join by (done || apply Hv).
      rewrite Hc. split; [done|split; [done|by eexists]]. }
  exists shown. split_and!.
  - unfold list_dir_with_meta, bind. rewrite Hls, list_entries_run. simpl.
    do 2 f_equal. apply list_fmap_ext. intros i n Hn.
    apply list_elem_of_lookup_2, Hshown in Hn as [[_ Hn] _].
    by rewrite known_dir_join.
  - apply StronglySorted_filter, StronglySorted_merge_sort; apply _.
  - apply NoDup_filter. by rewrite Hperm.
  - done.
  - intros n c [Hv _]%Hshown Hm. apply Hshown.
    split; [by apply valid_name_meta|by eexists].
Qed.

(** *** [cli_queue] *)

(** X26. The command refuses, without an exception and without touching
    anything, a source that does not exist and, unless forced, a name
    that is taken in Ready.  [FileExistsError] never leaves it.  A
    regular file with a free name is queued: the copy and the sidecar
    are in Ready, and the source is still there. *)
Theorem cli_queue_outcomes (file : string) (w : world) :
  let dest := os_path_join READY_DIR (os_path_basename file) in
  (∀ force, fs w !! file = None →
     cli_queue file force w = (Ret ["Source file not found: " +:+ file], w))
  ∧ (is_Some (fs w !! file) → is_Some (fs w !! dest) →
     cli_queue file false w =
     (Ret ["Destination exists, use --force to overwrite: " +:+ dest], w))
  ∧ (∀ force p, (cli_queue file force w).1 ≠ Raise (FileExistsError p))
  ∧ (∀ force content,
       fs w !! file = Some (File content) → fs w !! dest = None →
       fs w !! (dest +:+ META_EXT) ≠ Some Dir →
       ∃ w', cli_queue file force w = (Ret ["Queued: " +:+ dest], w')
         ∧ fs w' !! dest = Some (File content)
         ∧ fs w' !! file = Some (File content)
         ∧ is_Some (fs w' !! (dest +:+ META_EXT))).
Proof.
  intros dest. split_and!.
  - intros force Hfile. unfold cli_queue, bind, os_path_exists.
    rewrite Hfile. by rewrite bool_decide_eq_false_2 by (by intros [? ?]).
  - intros Hfile Hdest. unfold cli_queue. unfold bind at 1, os_path_exists.
    rewrite bool_decide_eq_true_2 by done. simpl.
    unfold catch, bind at 1. unfold move_to_ready. fold dest.
    unfold bind at 1, os_path_exists.
    by rewrite bool_decide_eq_true_2 by done.
  - intros force p. unfold cli_queue. unfold bind at 1, os_path_exists.
    destruct (bool_decide (is_Some (fs w !! file))); simpl; [|done].
    unfold catch, bind at 1.
    destruct (move_to_ready file force w) as [[[d m]|e] w1]; [done|].
    by destruct e.
  - intros force content Hfile Hdest Hmeta.
    destruct (move_to_ready_fresh w file content force Hfile Hdest Hmeta)
      as (w' & Hrun & Hfs & Hsrc & Hdst).
    exists w'. split_and!; [|done|done|].
    + unfold cli_queue. unfold bind at 1, os_path_exists.
      rewrite bool_decide_eq_true_2 by (rewrite Hfile; eauto). simpl.
      unfold catch, bind at 1. by rewrite Hrun.
    + rewrite Hfs, lookup_insert_eq. eauto.
Qed.
(** *** [cli_send_one] *)




Section SendOne.

Variables (file host : string) (port : Z) (timeout : float) (attempts : Z)
  (tls : bool) (cafile : option string).

Local Abbreviation command := (cli_send_one file host port timeout attempts tls cafile).

(** X27. Unlike the queue worker, the command leaves a document that does
    not validate where it is: nothing is moved to Failed, no sidecar is
    written and no connection is opened.  The same holds for a path
    that does not exist. *)
Theorem cli_send_one_rejects (w : world) :
  (fs w !! file = None → command w = (Ret ["File not found: " +:+ file], w))
  ∧ (∀ c, fs w !! file = Some (File c) →
       (basic_validate_edifact_bytes c).1 = false →
       command w =
       (Ret ["Validation failed: " +:+ (basic_validate_edifact_bytes c).2], w)).
Proof.
  split.
  - intros Hfile. unfold cli_send_one, bind, os_path_exists.
    rewrite Hfile. by rewrite bool_decide_eq_false_2 by (by intros [? ?]).
  - intros c Hfile Hbad. unfold cli_send_one. unfold bind at 1, os_path_exists.
    rewrite bool_decide_eq_true_2 by (rewrite Hfile; eauto). simpl.
    unfold bind at 1, validate_file, bind at 1, read_file. rewrite Hfile.
    cbn [ret]. destruct (basic_validate_edifact_bytes c) as [ok note].
    simpl in Hbad. subst ok. reflexivity.
Qed.


End SendOne.
(** * More about one file of the queue *)

(** *** Computations that only deal with files *)

(** [m] opens no connection, reads no clock and adds nothing to the
    log. *)
Definition offline {A} (m : M A) : Prop :=
  ∀ w, connections (m w).2 = connections w
       ∧ utc_reads (m w).2 = utc_reads w
       ∧ log (m w).2 = log w.

Lemma offline_ret {A} (a : A) : offline (ret a).
Proof. done. Qed.

Lemma offline_raise {A} e : offline (raise e : M A).
Proof. done. Qed.

Lemma offline_bind {A B} (m : M A) (k : A → M B) :
  offline m → (∀ a, offline (k a)) → offline (bind m k).
Proof.
  intros Hm Hk w. unfold bind. destruct (Hm w) as (H1 & H2 & H3).
  destruct (m w) as [[a|e] w1]; simpl in *; [|done].
  destruct (Hk a w1) as (K1 & K2 & K3). by rewrite K1, K2, K3.
Qed.

Lemma offline_catch {A} (m : M A) (h : exn → M A) :
  offline m → (∀ e, offline (h e)) → offline (catch m h).
Proof.
  intros Hm Hh w. unfold catch. destruct (Hm w) as (H1 & H2 & H3).
  destruct (m w) as [[a|e] w1]; simpl in *; [done|].
  destruct (Hh e w1) as (K1 & K2 & K3). by rewrite K1, K2, K3.
Qed.

Lemma offline_os_path_exists p : offline (os_path_exists p).
Proof. done. Qed.
Lemma offline_os_path_isfile p : offline (os_path_isfile p).
Proof. done. Qed.
Lemma offline_os_path_isdir p : offline (os_path_isdir p).
Proof. done. Qed.
Lemma offline_read_file p : offline (read_file p).
Proof. intros w. unfold read_file. by destruct (fs w !! p) as [[]|]. Qed.
Lemma offline_write_file p data : offline (write_file p data).
Proof. intros w. unfold write_file. by destruct (fs w !! p) as [[]|]. Qed.
Lemma offline_os_rename src dst : offline (os_rename src dst).
Proof. intros w. unfold os_rename. by destruct (fs w !! src) as [[]|]. Qed.

Lemma offline_shutil_move src dst : offline (shutil_move src dst).
Proof.
  unfold shutil_move. apply offline_bind; [apply offline_os_path_isdir|].
  intros []; [|apply offline_os_rename].
  apply offline_bind; [apply offline_os_path_exists|].
  intros []; [apply offline_raise|apply offline_os_rename].
Qed.

Lemma shutil_copy2_file src dst content w :
  fs w !! src = Some (File content) → fs w !! dst ≠ Some Dir → src ≠ dst →
  shutil_copy2 src dst w = (Ret tt, set_fs (<[dst := File content]> (fs w)) w).
Proof.
  intros Hsrc Hdst Hne. unfold shutil_copy2.
  unfold bind at 1, os_path_isdir.
  assert (match fs w !! dst with Some Dir => true | _ => false end = false) as ->
    by (by destruct (fs w !! dst) as [[]|]).
  unfold bind at 1, os_path_exists. unfold bind at 1.
  rewrite (bool_decide_eq_false_2 (src = dst)) by done.
  rewrite andb_false_r.
  unfold bind at 1, read_file. rewrite Hsrc.
  by apply write_file_ok.
Qed.

(** Two entries of pipeline directories are different paths: the
    directories differ, or the names do. *)
Ltac entry_apart :=
  first
    [ apply entry_ne_dir; [constructor|constructor|];
      first [ apply pipeline_dirs_distinct
            | apply not_eq_sym; apply pipeline_dirs_distinct ]
    | apply entry_ne_name; [constructor|constructor|];
      first [ assumption | apply not_eq_sym; assumption ] ].

Section OneFile.

Variables (host : string) (port : Z) (timeout : float) (tls : bool)
  (cafile : option string) (max_attempts : Z).

(** The turn of a document that does not validate (lines 238-247). *)
Definition reject (fname note : string) : M unit :=
  let fpath := os_path_join READY_DIR fname in
  let meta := dict_set "error" (PStr ("validation_failed:" +:+ note))
                (fresh_record fname) in
  let! _ := write_meta_for_send fpath meta in
  let dest := os_path_join FAILED_DIR fname in
  let! _ := shutil_move fpath dest in
  catch (let! there := os_path_exists (fpath +:+ META_EXT) in
         if there then shutil_move (fpath +:+ META_EXT) (dest +:+ META_EXT)
         else ret tt)
        (λ _, ret tt).

Lemma process_ready_file_reject archive_on_sent fname c w :
  fs w !! os_path_join READY_DIR fname = Some (File c) →
  (basic_validate_edifact_bytes c).1 = false →
  process_ready_file host port timeout tls cafile max_attempts archive_on_sent fname w
  = reject fname (basic_validate_edifact_bytes c).2 w.
Proof.
  intros Hfile Hbad. unfold process_ready_file.
  unfold bind at 1, os_path_isfile. rewrite Hfile. simpl.
  unfold bind at 1, validate_file, bind at 1, read_file. rewrite Hfile.
  cbn [ret]. destruct (basic_validate_edifact_bytes c) as [ok note].
  simpl in Hbad. subst ok. reflexivity.
Qed.

Lemma offline_reject fname note : offline (reject fname note).
Proof.
  unfold reject, write_meta_for_send.
  apply offline_bind; [apply offline_write_file|]. intros _.
  apply offline_bind; [apply offline_shutil_move|]. intros _.
  apply offline_catch; [|intros; apply offline_ret].
  apply offline_bind; [apply offline_os_path_exists|].
  intros []; [apply offline_shutil_move|apply offline_ret].
Qed.

(** X18. A document that does not validate is never transmitted.  Its turn
    in the queue opens no connection, reads no clock and causes no
    wait, however the relocation goes; with its name free in Failed it
    ends there, next to a record that carries the validator's note. *)
Theorem process_ready_file_invalid (archive_on_sent : bool) (fname : string)
    (c : list byte) (w : world) :
  let w' := (process_ready_file host port timeout tls cafile max_attempts
               archive_on_sent fname w).2 in
  let record :=
    dict_set "error"
      (PStr ("validation_failed:" +:+ (basic_validate_edifact_bytes c).2))
      (fresh_record fname) in
  fs w !! os_path_join READY_DIR fname = Some (File c) →
  (basic_validate_edifact_bytes c).1 = false →
  (connections w' = connections w ∧ utc_reads w' = utc_reads w ∧ log w' = log w)
  ∧ (valid_name fname →
     fs w !! entry READY_DIR (fname +:+ META_EXT) ≠ Some Dir →
     fs w !! entry FAILED_DIR fname = None →
     fs w !! entry FAILED_DIR (fname +:+ META_EXT) = None →
     fs w' !! entry READY_DIR fname = None
     ∧ fs w' !! entry FAILED_DIR fname = Some (File c)
     ∧ fs w' !! entry FAILED_DIR (fname +:+ META_EXT) = Some (File (json_dump record))).
Proof.
  intros w' record Hfile Hbad. split.
  - subst w'. rewrite (process_ready_file_reject _ _ c) by done.
    apply offline_reject.
  - intros Hv Hside Hfree Hfree'. subst w'.
    assert (fname ≠ fname +:+ META_EXT) as Hfm by (by apply string_app_ne).
    assert (fname +:+ META_EXT ≠ fname) as Hmf by (by apply not_eq_sym).
    rewrite (pipeline_dir_join READY_DIR fname) in Hfile by (apply Hv || constructor).
    destruct (basic_validate_edifact_bytes c) as [ok note] eqn:Hval.
    simpl in Hbad. subst ok. simpl in record.
    set (j := json_dump record).
    set (fs' := <[entry FAILED_DIR (fname +:+ META_EXT) := File j]>
                  (delete (entry READY_DIR (fname +:+ META_EXT))
                     (<[entry FAILED_DIR fname := File c]>
                        (delete (entry READY_DIR fname)
                           (<[entry READY_DIR (fname +:+ META_EXT) := File j]>
                              (fs w)))))).
    assert (process_ready_file host port timeout tls cafile max_attempts
              archive_on_sent fname w = (Ret tt, set_fs fs' w)) as Hrun.
    { rewrite process_ready_file_entries by done.
      unfold bind at 1, os_path_isfile. rewrite Hfile. simpl.
      unfold bind at 1, validate_file, bind at 1, read_file. rewrite Hfile.
      cbn [ret]. rewrite Hval. simpl.
      unfold bind at 1. rewrite write_file_ok by done. fold record j.
      unfold bind at 1.
      rewrite (shutil_move_free _ _ c)
        by (simpl; (rewrite lookup_insert_ne by entry_apart); done).
      unfold sidecar_block, catch. unfold bind at 1, os_path_exists. simpl.
      rewrite (bool_decide_eq_true_2 (is_Some _))
        by ((rewrite lookup_insert_ne, lookup_delete_ne by entry_apart);
            rewrite lookup_insert_eq; eauto).
      rewrite (shutil_move_free _ _ j).
      - reflexivity.
      - simpl. rewrite lookup_insert_ne, lookup_delete_ne by entry_apart.
        by rewrite lookup_insert_eq.
      - simpl.
        rewrite lookup_insert_ne, lookup_delete_ne, lookup_insert_ne by entry_apart.
        done. }
    rewrite Hrun. simpl. subst fs'. split_and!.
    + rewrite lookup_insert_ne, lookup_delete_ne, lookup_insert_ne by entry_apart.
      by rewrite lookup_delete_eq.
    + rewrite lookup_insert_ne, lookup_delete_ne by entry_apart.
      by rewrite lookup_insert_eq.
    + by rewrite lookup_insert_eq.
Qed.

(** X19. What is sent is archived.  When the delivery of a valid document
    succeeds and the run archives, the turn of the document ends with
    the document and its record in Sent and a copy of both in Archive;
    nothing of it is left in Ready. *)
Theorem process_ready_file_archives (fname : string) (c : list byte)
    (meta : dict) (w w1 : world) :
  let record := dict_update (fresh_record fname) meta in
  valid_name fname →
  fs w !! entry READY_DIR fname = Some (File c) →
  (basic_validate_edifact_bytes c).1 = true →
  send_one_file (os_path_join READY_DIR fname) host port timeout tls cafile
    max_attempts w = (Ret (true, meta), w1) →
  fs w !! entry READY_DIR (fname +:+ META_EXT) ≠ Some Dir →
  fs w !! entry SENT_DIR fname = None →
  fs w !! entry SENT_DIR (fname +:+ META_EXT) = None →
  fs w !! entry ARCHIVE_DIR fname ≠ Some Dir →
  fs w !! entry ARCHIVE_DIR (fname +:+ META_EXT) ≠ Some Dir →
  ∃ w',
    process_ready_file host port timeout tls cafile max_attempts true fname w
    = (Ret tt, w')
    ∧ fs w' !! entry READY_DIR fname = None
    ∧ fs w' !! entry READY_DIR (fname +:+ META_EXT) = None
    ∧ fs w' !! entry SENT_DIR fname = Some (File c)
    ∧ fs w' !! entry SENT_DIR (fname +:+ META_EXT) = Some (File (json_dump record))
    ∧ fs w' !! entry ARCHIVE_DIR fname = Some (File c)
    ∧ fs w' !! entry ARCHIVE_DIR (fname +:+ META_EXT) = Some (File (json_dump record)).
Proof.
  intros record Hv Hfile Hok Hrun Hside Hsent Hsent' Harch Harch'.
  assert (fname ≠ fname +:+ META_EXT) as Hfm by (by apply string_app_ne).
  assert (fname +:+ META_EXT ≠ fname) as Hmf by (by apply not_eq_sym).
  pose proof (valid_name_meta _ Hv) as Hvm.
  pose proof (send_one_file_fs _ _ _ _ _ _ _ _ _ _ Hrun) as Hfs1.
  set (j := json_dump record).
  set (w2 := set_fs (<[entry READY_DIR (fname +:+ META_EXT) := File j]> (fs w1)) w1).
  set (w3 := set_fs (<[entry SENT_DIR fname := File c]>
                       (delete (entry READY_DIR fname) (fs w2))) w2).
  set (w4 := set_fs (<[entry SENT_DIR (fname +:+ META_EXT) := File j]>
                       (delete (entry READY_DIR (fname +:+ META_EXT)) (fs w3))) w3).
  set (w5 := set_fs (<[entry ARCHIVE_DIR fname := File c]> (fs w4)) w4).
  set (w6 := set_fs (<[entry ARCHIVE_DIR (fname +:+ META_EXT) := File j]> (fs w5)) w5).
  assert (shutil_move (entry READY_DIR fname) (entry SENT_DIR fname) w2 = (Ret tt, w3))
    as Hmove1.
  { apply shutil_move_free; simpl; (rewrite lookup_insert_ne by entry_apart);
      by rewrite Hfs1. }
  assert (shutil_move (entry READY_DIR (fname +:+ META_EXT))
            (entry SENT_DIR (fname +:+ META_EXT)) w3 = (Ret tt, w4)) as Hmove2.
  { apply shutil_move_free; simpl.
    - rewrite lookup_insert_ne, lookup_delete_ne by entry_apart.
      by rewrite lookup_insert_eq.
    - rewrite lookup_insert_ne, lookup_delete_ne, lookup_insert_ne by entry_apart.
      by rewrite Hfs1. }
  assert (shutil_copy2 (entry SENT_DIR fname) (entry ARCHIVE_DIR fname) w4 = (Ret tt, w5))
    as Hcopy1.
  { apply shutil_copy2_file; simpl; [| |entry_apart].
    - rewrite lookup_insert_ne, lookup_delete_ne by entry_apart.
      by rewrite lookup_insert_eq.
    - rewrite lookup_insert_ne, lookup_delete_ne, lookup_insert_ne,
        lookup_delete_ne, lookup_insert_ne by entry_apart.
      by rewrite Hfs1. }
  assert (shutil_copy2 (entry SENT_DIR (fname +:+ META_EXT))
            (entry ARCHIVE_DIR (fname +:+ META_EXT)) w5 = (Ret tt, w6)) as Hcopy2.
  { apply shutil_copy2_file; simpl; [| |entry_apart].
    - rewrite lookup_insert_ne by entry_apart. by rewrite lookup_insert_eq.
    - rewrite !lookup_insert_ne, lookup_delete_ne, lookup_insert_ne,
        lookup_delete_ne, lookup_insert_ne by entry_apart.
      by rewrite Hfs1. }
  exists w6. split_and!.
  - rewrite process_ready_file_entries by done.
    unfold bind at 1, os_path_isfile. rewrite Hfile. simpl.
    unfold bind at 1, validate_file, bind at 1, read_file. rewrite Hfile.
    cbn [ret]. destruct (basic_validate_edifact_bytes c) as [ok note].
    simpl in Hok. subst ok. simpl.
    unfold bind at 1. rewrite Hrun.
    unfold bind at 1. rewrite write_file_ok by (by rewrite Hfs1). fold record j w2.
    unfold bind at 1. rewrite Hmove1.
    unfold bind at 1, sidecar_block, catch. rewrite Hmove2.
    unfold archive_block, catch.
    rewrite !(pipeline_dir_join ARCHIVE_DIR) by (apply Hv || apply Hvm || constructor).
    unfold bind at 1. rewrite Hcopy1.
    unfold bind at 1, os_path_exists. rewrite entry_meta.
    rewrite bool_decide_eq_true_2.
    + by rewrite Hcopy2.
    + simpl. rewrite lookup_insert_ne by entry_apart. rewrite lookup_insert_eq. eauto.
  - simpl. rewrite !lookup_insert_ne, lookup_delete_ne, lookup_insert_ne by entry_apart.
    by rewrite lookup_delete_eq.
  - simpl. rewrite !lookup_insert_ne by entry_apart. by rewrite lookup_delete_eq.
  - simpl. rewrite !lookup_insert_ne, lookup_delete_ne by entry_apart.
    by rewrite lookup_insert_eq.
  - simpl. rewrite !lookup_insert_ne by entry_apart. by rewrite lookup_insert_eq.
  - simpl. rewrite lookup_insert_ne by entry_apart. by rewrite lookup_insert_eq.
  - simpl. by rewrite lookup_insert_eq.
Qed.

End OneFile.

(** *** A directory in the way of the promotion *)

(** X15. When the name is taken in Ready by a directory and the call is
    forced, the copy goes into that directory, under the name of the
    document, and yet the path returned is that of the directory, and
    the sidecar is written for it. *)
Theorem move_to_ready_into_directory (w : world) (path : string)
    (content : list byte) :
  let base := os_path_basename path in
  let dest := os_path_join READY_DIR base in
  let inside := os_path_join dest base in
  fs w !! path = Some (File content) →
  fs w !! dest = Some Dir →
  fs w !! inside = None →
  fs w !! (dest +:+ META_EXT) ≠ Some Dir →
  dest +:+ META_EXT ≠ inside →
  ∃ w',
    move_to_ready path true w = (Ret (dest, dest +:+ META_EXT), w')
    ∧ fs w' !! dest = Some Dir
    ∧ fs w' !! inside = Some (File content)
    ∧ is_Some (fs w' !! (dest +:+ META_EXT)).
Proof.
  intros base dest inside Hpath Hdest Hinside Hmeta Hne.
  assert (dest ≠ dest +:+ META_EXT) as Hdm by (by apply string_app_ne).
  assert (path ≠ inside) as Hpi by (intros Heq; rewrite Heq in Hpath; congruence).
  assert (dest ≠ inside) as Hdi by (intros Heq; rewrite Heq in Hdest; congruence).
  eexists. split; [|split_and!].
  - unfold move_to_ready. fold base. fold dest.
    unfold bind at 1, os_path_exists.
    rewrite bool_decide_eq_true_2 by (rewrite Hdest; eauto). simpl.
    unfold bind at 1, shutil_copy2.
    unfold bind at 1, os_path_isdir. rewrite Hdest. fold base. fold inside.
    unfold bind at 1, os_path_exists. unfold bind at 1.
    rewrite (bool_decide_eq_false_2 (is_Some (fs w !! inside)))
      by (rewrite Hinside; by intros [? ?]).
    rewrite andb_false_r. simpl.
    unfold bind at 1, read_file. rewrite Hpath.
    rewrite write_file_ok by (by rewrite Hinside).
    unfold bind at 1, utcnow_isoformat. simpl. unfold bind at 1.
    rewrite write_file_ok; [reflexivity|].
    simpl. by rewrite lookup_insert_ne.
  - simpl. by rewrite !lookup_insert_ne.
  - simpl. rewrite lookup_insert_ne by done. by rewrite lookup_insert_eq.
  - simpl. rewrite lookup_insert_eq. eauto.
Qed.

End Pipeline.

(** * Concrete runs

    A small instance of everything the pipeline is parametric in: bytes
    are read as Latin-1 text, integers are plain decimals, clock readings
    are whole seconds, and a sidecar is rendered one [key=value] per
    line. *)

Definition sample_decode (data : list byte) : string :=
  String.string_of_list_byte data.

Definition digit_value (c : ascii) : option Z :=
  let n := nat_of_ascii c in
  if bool_decide (48 ≤ n ≤ 57) then Some (Z.of_nat (n - 48)) else None.

Fixpoint sample_digits (acc : Z) (s : string) : option Z :=
  match s with
  | EmptyString => Some acc
  | String c rest =>
      match digit_value c with
      | Some d => sample_digits (10 * acc + d) rest
      | None => None
      end
  end.

Definition sample_int (s : string) : option Z :=
  match s with
  | EmptyString => None
  | _ => sample_digits 0 s
  end.

Definition sample_utcnow (n : nat) : string := "2024-05-01T10:00:0" +:+ pretty n.

Definition sample_value (v : pyval) : string :=
  match v with
  | PNone => "null"
  | PInt n => pretty n
  | PStr s => s
  end.

Definition sample_json (d : dict) : list byte :=
  String.list_byte_of_string
    ("{" +:+ String.concat ";" ((λ kv, kv.1 +:+ "=" +:+ sample_value kv.2) <$> d) +:+ "}").

Definition bytes_of (s : string) : list byte := String.list_byte_of_string s.

(** A peer that refuses the connection. *)
Definition refusing : script Z :=
  Script (Some (OSError "connection refused")) None None None None None 0%Z [] RecvClosed.

(** A peer that answers with one framed acknowledgment. *)
Definition acking : script Z :=
  Script None None None None None None 0%Z
    [(frame_message (bytes_of "ACK"), 1%Z)] RecvClosed.

(** The first connection is refused, every later one is acknowledged. *)
Definition flaky_peer (n : nat) : script Z :=
  match n with
  | 0 => refusing
  | _ => acking
  end.

Definition dead_peer (n : nat) : script Z := refusing.

Definition sample_doc : list byte :=
  bytes_of "UNB+UNOA:1+SENDER+RECEIVER'UNH+1+ORDERS:D:96A:UN'UNT+2+1'".

Definition one_file : world :=
  World {[ "/srv/edi/ready/a.edi" := File sample_doc ]} 0 0 [].

Lemma send_one_file_attempts_witness :
  ∃ meta w',
    send_one_file sample_decode Z Z.sub Z.gtb flaky_peer sample_utcnow
      "/srv/edi/ready/a.edi" "localhost" 2575 10%Z false None 3 one_file
    = (Ret (true, meta), w')
    ∧ connections w' = 2
    ∧ dict_get "attempts" meta = Some (PInt 2)
    ∧ dict_get "ack" meta = Some (PStr "ACK").
Proof.
  apply (proj2 (send_one_file_attempts sample_decode Z Z.sub Z.gtb flaky_peer
                  sample_utcnow "/srv/edi/ready/a.edi" "localhost" 2575 10%Z false
                  None sample_doc one_file 3 ltac:(lia) eq_refl)
           2%Z (bytes_of "ACK") ltac:(lia)).
  - intros [|i] Hi; [reflexivity|simpl in Hi; lia].
  - reflexivity.
Defined.

Lemma send_one_file_backoff_witness :
  ∃ meta w',
    send_one_file sample_decode Z Z.sub Z.gtb dead_peer sample_utcnow
      "/srv/edi/ready/a.edi" "localhost" 2575 10%Z false None 2 one_file
    = (Ret (false, meta), w')
    ∧ dict_get "error" meta = Some no_ack
    ∧ sleeps_of (log w') = [1%Z; 1%Z]
    ∧ last (log w') = Some (EvSleep 1).
Proof.
  apply (proj1 (send_one_file_backoff sample_decode Z Z.sub Z.gtb dead_peer
                  sample_utcnow "/srv/edi/ready/a.edi" "localhost" 2575 10%Z false
                  None sample_doc one_file 2 ltac:(lia) eq_refl)).
  intros i _. reflexivity.
Defined.

(** With a single attempt allowed, the failed attempt is the last one,
    and the sender still waits after it. *)
Lemma send_one_file_sleeps_after_last_attempt :
  ∃ meta w',
    send_one_file sample_decode Z Z.sub Z.gtb dead_peer sample_utcnow
      "/srv/edi/ready/a.edi" "localhost" 2575 10%Z false None 1 one_file
    = (Ret (false, meta), w')
    ∧ dict_get "attempts" meta = Some (PInt 1)
    ∧ log w' = [EvSleep 1].
Proof. eexists _, _. vm_compute. split_and!; reflexivity. Qed.

Lemma send_one_file_keeps_error_witness :
  ∃ meta w',
    send_one_file sample_decode Z Z.sub Z.gtb flaky_peer sample_utcnow
      "/srv/edi/ready/a.edi" "localhost" 2575 10%Z false None 3 one_file
    = (Ret (true, meta), w')
    ∧ dict_get "attempts" meta = Some (PInt 2)
    ∧ dict_get "ack" meta = Some (PStr "ACK")
    ∧ dict_get "error" meta = Some no_ack.
Proof.
  apply (send_one_file_keeps_error sample_decode Z Z.sub Z.gtb flaky_peer sample_utcnow
           "/srv/edi/ready/a.edi" "localhost" 2575 10%Z false None sample_doc
           one_file 3 2 (bytes_of "ACK") ltac:(lia) eq_refl).
  - intros [|i] Hi; [reflexivity|simpl in Hi; lia].
  - reflexivity.
Defined.

(** ** Runs of the queue *)

Definition acking_peer (n : nat) : script Z := acking.

Definition sample_queue (p : nat → script Z) : M unit :=
  process_ready_queue sample_decode sample_int Z Z.sub Z.gtb p sample_utcnow
    "/srv/edi" sample_json "localhost" 2575 10%Z false None 3 true.

Lemma one_file_names n c : snapshot_file "/srv/edi" one_file n c → n = "a.edi".
Proof.
  intros H.
  destruct (snapshot_file_listed "/srv/edi" one_file n c H) as (names & Hls & Hin).
  vm_compute in Hls. injection Hls as <-.
  by apply list_elem_of_singleton in Hin.
Qed.

Lemma process_ready_queue_terminal_witness :
  ∃ w', sample_queue acking_peer one_file = (Ret tt, w')
    ∧ ¬ present w' (READY_DIR "/srv/edi") "a.edi"
    ∧ (present w' (SENT_DIR "/srv/edi") "a.edi"
       ∧ ¬ present w' (FAILED_DIR "/srv/edi") "a.edi"
       ∨ ¬ present w' (SENT_DIR "/srv/edi") "a.edi"
         ∧ present w' (FAILED_DIR "/srv/edi") "a.edi").
Proof.
  set (w1 := (sample_queue acking_peer one_file).2).
  assert (sample_queue acking_peer one_file = (Ret tt, w1)) as Hrun by by vm_compute.
  exists w1. split; [exact Hrun|].
  assert (∀ n c, snapshot_file "/srv/edi" one_file n c →
            ¬ present one_file (SENT_DIR "/srv/edi") n
            ∧ ¬ present one_file (FAILED_DIR "/srv/edi") n) as Hfree.
  { intros n c ->%one_file_names. split; by intros [x Hx]; vm_compute in Hx. }
  apply (proj1 (process_ready_queue_terminal sample_decode sample_int Z Z.sub Z.gtb
                  acking_peer sample_utcnow "/srv/edi" sample_json "localhost" 2575
                  10%Z false None 3 true one_file w1 Hfree Hrun)
           "a.edi" sample_doc).
  split; [split; by vm_compute|by vm_compute].
Defined.

(** A document that failed in an earlier run and was queued again: after
    a successful delivery its name is in Sent and in Failed. *)
Definition requeued : world :=
  World (<[ "/srv/edi/failed/a.edi" := File sample_doc ]>
           {[ "/srv/edi/ready/a.edi" := File sample_doc ]}) 0 0 [].

Lemma process_ready_queue_name_in_both :
  ∃ w', sample_queue acking_peer requeued = (Ret tt, w')
    ∧ snapshot_file "/srv/edi" requeued "a.edi" sample_doc
    ∧ fs w' !! os_path_join (READY_DIR "/srv/edi") "a.edi" = None
    ∧ fs w' !! os_path_join (SENT_DIR "/srv/edi") "a.edi" = Some (File sample_doc)
    ∧ fs w' !! os_path_join (FAILED_DIR "/srv/edi") "a.edi" = Some (File sample_doc).
Proof.
  exists (sample_queue acking_peer requeued).2.
  split_and!; [by vm_compute|split; [split|]; by vm_compute|by vm_compute..].
Qed.

(** A document queued by [move_to_ready], next to its sidecar, and a
    stray text file. *)
Definition queued_sidecar : list byte :=
  sample_json [("moved_at", PStr "2024-05-01T09:59:00");
               ("src", PStr "/srv/edi/generated/a.edi")].

Definition queued : world :=
  World (<[ "/srv/edi/ready/notes.txt" := File (bytes_of "call the receiver") ]>
        (<[ "/srv/edi/ready/a.edi.meta.json" := File queued_sidecar ]>
           {[ "/srv/edi/ready/a.edi" := File sample_doc ]})) 0 0 [].

Lemma queued_names n c :
  snapshot_file "/srv/edi" queued n c →
  n = "a.edi" ∨ n = "a.edi.meta.json" ∨ n = "notes.txt".
Proof.
  intros H.
  destruct (snapshot_file_listed "/srv/edi" queued n c H) as (names & Hls & Hin).
  vm_compute in Hls. injection Hls as <-.
  repeat (apply elem_of_cons in Hin as [->|Hin]; [tauto|]).
  by apply elem_of_nil in Hin.
Qed.

Lemma process_ready_queue_any_name_witness :
  ∃ w', sample_queue acking_peer queued = (Ret tt, w')
    ∧ fs w' !! os_path_join (FAILED_DIR "/srv/edi") "notes.txt" =
        Some (File (bytes_of "call the receiver"))
    ∧ ¬ present w' (SENT_DIR "/srv/edi") "notes.txt".
Proof.
  set (w1 := (sample_queue acking_peer queued).2).
  assert (sample_queue acking_peer queued = (Ret tt, w1)) as Hrun by by vm_compute.
  exists w1. split; [exact Hrun|].
  assert (∀ n c, snapshot_file "/srv/edi" queued n c →
            ¬ present queued (SENT_DIR "/srv/edi") n
            ∧ ¬ present queued (FAILED_DIR "/srv/edi") n) as Hfree.
  { intros n c [-> | [-> | ->]]%queued_names;
      split; by intros [x Hx]; vm_compute in Hx. }
  apply (proj1 (proj2 (process_ready_queue_any_name sample_decode sample_int Z Z.sub
                  Z.gtb acking_peer sample_utcnow "/srv/edi" sample_json "localhost"
                  2575 10%Z false None 3 true queued w1 Hfree Hrun))
           "notes.txt" (bytes_of "call the receiver")).
  - split; [split; by vm_compute|by vm_compute].
  - intros (h & ch & [-> | [-> | ->]]%queued_names & Heq); by vm_compute in Heq.
  - by vm_compute.
Defined.

(** A sidecar left alone in Ready is taken for a document: it fails the
    validation and goes to Failed, with a sidecar of its own. *)
Definition orphaned : world :=
  World {[ "/srv/edi/ready/b.edi.meta.json" := File queued_sidecar ]} 0 0 [].

Example orphaned_sidecar_is_processed :
  ∃ w', sample_queue acking_peer orphaned = (Ret tt, w')
    ∧ fs w' !! "/srv/edi/ready/b.edi.meta.json" = None
    ∧ fs w' !! "/srv/edi/failed/b.edi.meta.json" = Some (File queued_sidecar)
    ∧ fs w' !! "/srv/edi/failed/b.edi.meta.json.meta.json" =
        Some (File (sample_json
          [("file", PStr "b.edi.meta.json"); ("attempts", PInt 0); ("sent_at", PNone);
           ("ack", PNone); ("error", PStr "validation_failed:missing_UNA_or_UNB")])).
Proof.
  exists (sample_queue acking_peer orphaned).2. split_and!; by vm_compute.
Qed.

(** The sidecar that [move_to_ready] wrote does not validate as a
    document, and yet it ends in Sent, next to its document, and never
    in Failed. *)
Lemma process_ready_queue_sidecar_not_validated :
  ∃ w', sample_queue acking_peer queued = (Ret tt, w')
    ∧ snapshot_file "/srv/edi" queued "a.edi.meta.json" queued_sidecar
    ∧ (basic_validate_edifact_bytes sample_decode sample_int queued_sidecar).1 = false
    ∧ fs w' !! os_path_join (SENT_DIR "/srv/edi") "a.edi" = Some (File sample_doc)
    ∧ present w' (SENT_DIR "/srv/edi") "a.edi.meta.json"
    ∧ fs w' !! os_path_join (FAILED_DIR "/srv/edi") "a.edi.meta.json" = None
    ∧ fs w' !! os_path_join (SENT_DIR "/srv/edi") "a.edi.meta.json" ≠
        Some (File queued_sidecar).
Proof.
  exists (sample_queue acking_peer queued).2.
  split_and!; [by vm_compute|split; [split|]; by vm_compute|by vm_compute| |
               |by vm_compute|by vm_compute].
  - by vm_compute.
  - unfold present. vm_compute. eauto.
Qed.

(** ** The validator, the promotion and the transport client *)

Definition newline : string := String "010"%char EmptyString.

(** Three segments from header to trailer, nine declared. *)
Definition miscounted_doc : list byte :=
  bytes_of ("UNB+UNOA:1+SENDER+RECEIVER'" +:+ newline +:+
            "UNH+1+ORDERS:D:96A:UN'" +:+ newline +:+
            "BGM+220+ORD1+9'" +:+ newline +:+
            "UNT+9+1'" +:+ newline).

Lemma basic_validate_edifact_bytes_verdict_witness :
  basic_validate_edifact_bytes sample_decode sample_int miscounted_doc =
  (true, "segment_count_mismatch_reported=9_actual=3").
Proof.
  apply (proj1 (proj2 (basic_validate_edifact_bytes_verdict sample_decode sample_int
                         miscounted_doc)) 9%Z 3%Z).
  - split_and!; [right; by vm_compute|by vm_compute..].
  - by vm_compute.
  - by vm_compute.
  - by vm_compute.
Defined.

Example basic_validate_edifact_bytes_rejects :
  basic_validate_edifact_bytes sample_decode sample_int (bytes_of "hello") =
    (false, "missing_UNA_or_UNB")
  ∧ basic_validate_edifact_bytes sample_decode sample_int (bytes_of "UNA:+.? 'UNT+1+1'") =
    (false, "missing_UNH")
  ∧ basic_validate_edifact_bytes sample_decode sample_int (bytes_of "UNB+x'UNH+1+O'") =
    (false, "missing_UNT")
  ∧ basic_validate_edifact_bytes sample_decode sample_int sample_doc = (true, "ok").
Proof. split_and!; by vm_compute. Qed.

(** A generated document whose name is already in Ready. *)
Definition regenerated : world :=
  World (<[ "/srv/edi/generated/a.edi" := File miscounted_doc ]>
           {[ "/srv/edi/ready/a.edi" := File sample_doc ]}) 0 0 [].

Lemma move_to_ready_conflict_witness :
  move_to_ready sample_utcnow "/srv/edi" sample_json "/srv/edi/generated/a.edi" false
    regenerated
  = (Raise (FileExistsError "/srv/edi/ready/a.edi"), regenerated)
  ∧ ∃ w', move_to_ready sample_utcnow "/srv/edi" sample_json
             "/srv/edi/generated/a.edi" true regenerated
          = (Ret ("/srv/edi/ready/a.edi", "/srv/edi/ready/a.edi.meta.json"), w')
        ∧ fs w' !! "/srv/edi/ready/a.edi" = Some (File miscounted_doc).
Proof.
  pose proof (move_to_ready_conflict sample_utcnow "/srv/edi" sample_json regenerated
                "/srv/edi/generated/a.edi") as [Hkeep Hforce].
  split.
  - apply Hkeep. vm_compute. eauto.
  - destruct (Hforce sample_doc miscounted_doc) as (w' & Hrun & Hdest & _);
      [by vm_compute..|].
    by exists w'.
Defined.

(** A peer that accepts the connection and then stays silent until the
    read times out, and one that sends half a frame and closes. *)
Definition silent : script Z :=
  Script None None None None None None 0%Z [] (RecvRaises SocketTimeout).

Definition half_frame : script Z :=
  Script None None None None None None 0%Z
    [(START_BLOCK ++ bytes_of "AC", 1%Z)] RecvClosed.

Lemma mllp_send_failures_are_results_witness :
  (mllp_send Z Z.sub Z.gtb (λ _, silent) "localhost" 2575 sample_doc 10%Z false None
     one_file).1 = Ret None
  ∧ (mllp_send Z Z.sub Z.gtb (λ _, half_frame) "localhost" 2575 sample_doc 10%Z false None
       one_file).1 = Ret None
  ∧ (mllp_send Z Z.sub Z.gtb (λ _, refusing) "localhost" 2575 sample_doc 10%Z false None
       one_file).1 = Ret None.
Proof.
  split_and!.
  - destruct (mllp_send_failures_are_results Z Z.sub Z.gtb (λ _, silent) one_file
                "localhost" 2575 sample_doc 10%Z false None) as (_ & _ & Hread & _).
    apply Hread; [by vm_compute|by vm_compute|by left].
  - destruct (mllp_send_failures_are_results Z Z.sub Z.gtb (λ _, half_frame) one_file
                "localhost" 2575 sample_doc 10%Z false None) as (_ & _ & Hread & _).
    apply Hread; [by vm_compute|by vm_compute|by right].
  - destruct (mllp_send_failures_are_results Z Z.sub Z.gtb (λ _, refusing) one_file
                "localhost" 2575 sample_doc 10%Z false None) as (Hconnect & _).
    apply Hconnect. vm_compute. eauto.
Defined.

(** ** More runs of the transport client and of the sender *)

(** A peer whose acknowledgment arrives in two pieces. *)
Definition piecewise : script Z :=
  Script None None None None None None 0%Z
    [(START_BLOCK ++ bytes_of "AC", 1%Z); (bytes_of "K" ++ END_BLOCK, 2%Z)] RecvClosed.

Lemma mllp_send_reassembles_witness :
  (mllp_send Z Z.sub Z.gtb (λ _, piecewise) "localhost" 2575 sample_doc 10%Z false None
     one_file).1 = Ret (Some (bytes_of "ACK")).
Proof.
  apply (mllp_send_reassembles Z Z.sub Z.gtb (λ _, piecewise) one_file "localhost" 2575
           sample_doc 10%Z false None [(START_BLOCK ++ bytes_of "AC", 1%Z)] []
           (bytes_of "K" ++ END_BLOCK) 2%Z (bytes_of "ACK") []).
  - by vm_compute.
  - reflexivity.
  - repeat constructor. by vm_compute.
  - by vm_compute.
  - by vm_compute.
  - by vm_compute.
Defined.

Lemma mllp_send_answer_received_witness :
  find_sub END_BLOCK (bytes_of "ACK") = None
  ∧ (∃ l1 l2, concat (chunks piecewise).*1 = l1 ++ frame_message (bytes_of "ACK") ++ l2)
  ∧ log (mllp_send Z Z.sub Z.gtb (λ _, piecewise) "localhost" 2575 sample_doc 10%Z
           false None one_file).2
    = log one_file ++ [EvConnect "localhost" 2575; EvSendall (frame_message sample_doc);
                       EvClose].
Proof.
  apply (mllp_send_answer_received Z Z.sub Z.gtb (λ _, piecewise) one_file "localhost"
           2575 sample_doc 10%Z false None (bytes_of "ACK")).
  by vm_compute.
Defined.

Lemma connections_are_closed_witness :
  ∃ evs,
    log (send_one_file sample_decode Z Z.sub Z.gtb flaky_peer sample_utcnow
           "/srv/edi/ready/a.edi" "localhost" 2575 10%Z false None 3 one_file).2
    = log one_file ++ evs
    ∧ closed_sessions evs.
Proof.
  apply (proj1 (connections_are_closed sample_decode sample_int Z Z.sub Z.gtb flaky_peer
                  sample_utcnow "/srv/edi" sample_json "localhost" 2575 10%Z false None 3
                  ltac:(by intros n [=]))).
Defined.

Lemma send_one_file_no_attempt_witness :
  send_one_file sample_decode Z Z.sub Z.gtb acking_peer sample_utcnow
    "/srv/edi/ready/a.edi" "localhost" 2575 10%Z false None 0 one_file
  = (Ret (false, [("attempts", PInt 0); ("sent_at", PNone); ("ack", PNone);
                  ("error", PNone)]), one_file).
Proof.
  apply (send_one_file_no_attempt sample_decode Z Z.sub Z.gtb acking_peer sample_utcnow
           one_file "/srv/edi/ready/a.edi" "localhost" 2575 10%Z false None 0).
  lia.
Defined.

Lemma send_one_file_read_error_witness :
  ∃ e,
    read_file "/srv/edi/ready/b.edi" one_file = (Raise e, one_file)
    ∧ send_one_file sample_decode Z Z.sub Z.gtb acking_peer sample_utcnow
        "/srv/edi/ready/b.edi" "localhost" 2575 10%Z false None 3 one_file
      = (Ret (false, [("attempts", PInt 1); ("sent_at", PNone); ("ack", PNone);
                      ("error", PStr ("read_error:" +:+ str_of_exn e))]), one_file).
Proof.
  apply (send_one_file_read_error sample_decode Z Z.sub Z.gtb acking_peer sample_utcnow
           one_file "/srv/edi/ready/b.edi" "localhost" 2575 10%Z false None 3).
  - lia.
  - intros content. by vm_compute.
Defined.

(** A peer on whose connection the TLS context cannot be created. *)
Definition no_context : script Z :=
  Script None (Some (OSError "no CA certificates")) None None None None 0%Z [] RecvClosed.

Lemma send_one_file_context_error_witness :
  send_one_file sample_decode Z Z.sub Z.gtb (λ _, no_context) sample_utcnow
    "/srv/edi/ready/a.edi" "localhost" 2575 10%Z true None 3 one_file
  = (Raise (OSError "no CA certificates"),
     World (fs one_file) 1 0 [EvConnect "localhost" 2575]).
Proof.
  apply (send_one_file_context_error sample_decode Z Z.sub Z.gtb (λ _, no_context)
           sample_utcnow one_file "/srv/edi/ready/a.edi" "localhost" 2575 10%Z None 3
           sample_doc (OSError "no CA certificates"));
    [lia|reflexivity..].
Defined.

(** ** More runs of the promotion and of the queue *)

Definition generated : world :=
  World {[ "/srv/edi/generated/a.edi" := File sample_doc ]} 0 0 [].

Lemma move_to_ready_copies_witness :
  ∃ w',
    move_to_ready sample_utcnow "/srv/edi" sample_json "/srv/edi/generated/a.edi" false
      generated
    = (Ret ("/srv/edi/ready/a.edi", "/srv/edi/ready/a.edi.meta.json"), w')
    ∧ fs w' !! "/srv/edi/generated/a.edi" = Some (File sample_doc)
    ∧ fs w' !! "/srv/edi/ready/a.edi" = Some (File sample_doc).
Proof.
  destruct (move_to_ready_copies sample_utcnow "/srv/edi" sample_json generated
              "/srv/edi/generated/a.edi" sample_doc false)
    as (w' & Hrun & _ & Hsrc & Hdest); [by vm_compute..|].
  by exists w'.
Defined.

Lemma move_to_ready_raises_unchanged_witness :
  (move_to_ready sample_utcnow "/srv/edi" sample_json "/srv/edi/generated/b.edi" true
     generated).2 = generated.
Proof.
  apply (move_to_ready_raises_unchanged sample_utcnow "/srv/edi" sample_json generated
           _ "/srv/edi/generated/b.edi" true
           (FileNotFoundError "/srv/edi/generated/b.edi")); by vm_compute.
Defined.

(** A directory in Ready, next to a document. *)
Definition with_directory : world :=
  World (<[ "/srv/edi/ready/batch" := Dir ]>
           {[ "/srv/edi/ready/a.edi" := File sample_doc ]}) 0 0 [].

Lemma with_directory_names n c :
  snapshot_file "/srv/edi" with_directory n c → n = "a.edi".
Proof.
  intros [Hv Hn].
  destruct (snapshot_file_listed "/srv/edi" with_directory n c (conj Hv Hn))
    as (names & Hls & Hin).
  vm_compute in Hls. injection Hls as <-.
  apply elem_of_cons in Hin as [->|Hin]; [done|].
  apply elem_of_cons in Hin as [->|Hin]; [by vm_compute in Hn|].
  by apply elem_of_nil in Hin.
Qed.

Lemma process_ready_queue_keeps_directories_witness :
  fs (sample_queue acking_peer with_directory).2
    !! os_path_join (READY_DIR "/srv/edi") "batch" = Some Dir.
Proof.
  set (w1 := (sample_queue acking_peer with_directory).2).
  assert (sample_queue acking_peer with_directory = (Ret tt, w1)) as Hrun
    by by vm_compute.
  apply (process_ready_queue_keeps_directories sample_decode sample_int Z Z.sub Z.gtb
           acking_peer sample_utcnow "/srv/edi" sample_json "localhost" 2575 10%Z
           false None 3 true with_directory w1).
  - intros n c ->%with_directory_names. split; by intros [x Hx]; vm_compute in Hx.
  - exact Hrun.
  - by split; vm_compute.
  - by vm_compute.
Defined.

(** ** A sample of the generator's parameters

    Amounts are whole numbers, printed with two zero decimals; the
    clock stands still; the random generator always draws the lower
    bound; text is encoded as Latin-1. *)

Definition sample_other (v : jval Z) : string := "<value>".
Definition sample_format (z : Z) : string := pretty z +:+ ".00".
Definition sample_strftime (n : nat) (fmt : string) : string := "20240501".
Definition sample_randint (n : nat) (lo hi : Z) : Z := lo.

Definition sample_generate (order : list (string * jval Z)) (draws : nat)
  : M ((gen_error + string) * nat) :=
  simple_edifact_from_order Z sample_other (Z.eqb 0) Some sample_int Z.add Z.mul 0%Z
    sample_format sample_strftime sample_randint order draws.

Definition sample_lines (order : list (string * jval Z)) : gen_error + list string :=
  edifact_lines Z sample_other (Z.eqb 0) Some sample_int Z.add Z.mul 0%Z sample_format
    order "20240501" "20240501" (JStr "M1").

(** [sample_int] reads back every numeral [str] writes. *)
Lemma sample_digits_app acc a b :
  sample_digits acc (a +:+ b) = sample_digits acc a ≫= λ v, sample_digits v b.
Proof.
  revert acc. induction a as [|c a IH]; intros acc; [done|].
  rewrite string_app_cons. simpl. destruct (digit_value c); [apply IH|done].
Qed.

Lemma pretty_N_go_app x s : pretty_N_go x s = pretty_N_go x "" +:+ s.
Proof.
  revert s. induction (N.lt_wf_0 x) as [x _ IH]; intros s.
  assert (x = 0 ∨ 0 < x)%N as [->|Hx] by lia; [done|].
  rewrite (pretty_N_go_step x s), (pretty_N_go_step x "") by done.
  rewrite (IH _ (N.div_lt x 10 Hx eq_refl) (String _ s)).
  rewrite (IH _ (N.div_lt x 10 Hx eq_refl) (String _ "")).
  by rewrite string_app_assoc.
Qed.

Lemma digit_value_pretty m :
  (m < 10)%N → digit_value (pretty_N_char m) = Some (Z.of_N m).
Proof.
  intros Hm.
  assert (m = 0 ∨ m = 1 ∨ m = 2 ∨ m = 3 ∨ m = 4 ∨ m = 5 ∨ m = 6 ∨ m = 7 ∨ m = 8 ∨ m = 9)%N
    as H by lia.
  repeat (destruct H as [->|H]; [by vm_compute|]). subst m. by vm_compute.
Qed.

Lemma sample_digits_pretty x :
  sample_digits 0 (pretty_N_go x "") = Some (Z.of_N x).
Proof.
  induction (N.lt_wf_0 x) as [x _ IH].
  assert (x = 0 ∨ 0 < x)%N as [->|Hx] by lia; [done|].
  rewrite pretty_N_go_step, pretty_N_go_app, sample_digits_app by done.
  rewrite (IH _ (N.div_lt x 10 Hx eq_refl)). simpl.
  rewrite digit_value_pretty by (by apply N.mod_lt).
  f_equal. pose proof (N.div_mod x 10). lia.
Qed.

Lemma sample_int_str_of_int n : (0 ≤ n)%Z → sample_int (str_of_int n) = Some n.
Proof.
  intros Hn. destruct n as [|p|p]; [done| |lia].
  unfold str_of_int, pretty, pretty_Z, pretty, pretty_positive, pretty, pretty_N.
  rewrite decide_False by done.
  pose proof (sample_digits_pretty (N.pos p)) as H.
  unfold sample_int. by destruct (pretty_N_go (N.pos p) "").
Qed.

(** ** Generated messages *)

Definition sample_order : list (string * jval Z) :=
  [("message_ref", JStr "M1");
   ("sender", JStr "ACME");
   ("parties", JList [JDict [("qualifier", JStr "BY"); ("id", JStr "B1");
                             ("name", JStr "Buyer Corp")]]);
   ("items", JList [JDict [("product_code", JStr "P001"); ("quantity", JInt 10);
                           ("price", JStr "12")];
                    JDict [("quantity", JInt 2); ("price", JStr "3")]])].

Definition sample_text : string :=
  match (sample_generate sample_order 0 one_file).1 with
  | Ret (inr text, _) => text
  | _ => ""
  end.

Lemma generated_message_validates_witness :
  ∃ segments,
    actual_count sample_text = Some segments
    ∧ declared_count sample_int sample_text = Some (segments + 2)%Z
    ∧ basic_validate_edifact_bytes sample_decode sample_int (bytes_of sample_text)
      = (true, "ok").
Proof.
  apply (generated_message_validates sample_decode sample_int Z sample_other (Z.eqb 0)
           Some sample_int Z.add Z.mul 0%Z sample_format sample_strftime sample_randint
           sample_order 0 1 one_file (sample_generate sample_order 0 one_file).2
           sample_text (bytes_of sample_text)).
  - reflexivity.
  - intros f. unfold sample_format. by rewrite one_line_app, str_of_int_one_line.
  - reflexivity.
  - apply sample_int_str_of_int.
  - by vm_compute.
  - by vm_compute.
  - by vm_compute.
Defined.

(** An order one of whose prices is not a number. *)
Definition mispriced_order : list (string * jval Z) :=
  [("items", JList [JDict [("quantity", JInt 10); ("price", JStr "12")];
                    JDict [("quantity", JInt 2); ("price", JStr "n/a")]])].

Lemma order_total_all_or_nothing_witness :
  ∃ lines, sample_lines mispriced_order = inr lines ∧ "MOA+79:0.00'" ∈ lines.
Proof.
  destruct (sample_lines mispriced_order) as [e|lines] eqn:Hlines;
    [by vm_compute in Hlines|].
  exists lines. split; [done|].
  destruct (order_total_all_or_nothing Z sample_other (Z.eqb 0) Some sample_int Z.add
              Z.mul 0%Z sample_format mispriced_order "20240501" "20240501" (JStr "M1")
              lines
              [JDict [("quantity", JInt 10); ("price", JStr "12")];
               JDict [("quantity", JInt 2); ("price", JStr "n/a")]]
              Hlines eq_refl) as (Hmoa & _ & Hzero).
  destruct (Hzero (JDict [("quantity", JInt 2); ("price", JStr "n/a")])) as [_ Htext].
  - apply elem_of_cons. right. by apply list_elem_of_singleton.
  - by vm_compute.
  - by rewrite Htext in Hmoa.
Defined.


Lemma single_line_is_not_counted_witness :
  basic_validate_edifact_bytes sample_decode sample_int
    (bytes_of "UNB+UNOA:1+SENDER+RECEIVER'UNH+1+ORDERS:D:96A:UN'UNT+99+1'")
  = (true, "ok").
Proof.
  apply (single_line_is_not_counted sample_decode sample_int).
  - split_and!; [right; by vm_compute|by vm_compute..].
  - by vm_compute.
Defined.

(** ** Listing and commands *)

Definition sample_load (data : list byte) : option (jval Z) :=
  if bool_decide (data = bytes_of "{}") then Some (JDict []) else None.

Lemma list_dir_with_meta_entries_witness :
  list_dir_with_meta Z sample_load (READY_DIR "/srv/edi") queued
  = (Ret [("/srv/edi/ready/a.edi",
           Some (JDict [("_meta_error", JStr "failed_to_load")]));
          ("/srv/edi/ready/a.edi.meta.json", None);
          ("/srv/edi/ready/notes.txt", None)], queued).
Proof.
  destruct (list_dir_with_meta_entries Z "/srv/edi" sample_load (READY_DIR "/srv/edi")
              queued) as (names & Hrun & _); [left; constructor|].
  rewrite Hrun. by vm_compute.
Defined.


(** ** Runs of one file of the queue *)

(** A document without a service segment, waiting in Ready. *)
Definition unsendable : world :=
  World {[ "/srv/edi/ready/bad.edi" := File (bytes_of "hello") ]} 0 0 [].

Lemma process_ready_file_invalid_witness :
  ∃ w',
    process_ready_file sample_decode sample_int Z Z.sub Z.gtb acking_peer sample_utcnow
      "/srv/edi" sample_json "localhost" 2575 10%Z false None 3 true "bad.edi" unsendable
    = (Ret tt, w')
    ∧ log w' = []
    ∧ fs w' !! "/srv/edi/ready/bad.edi" = None
    ∧ fs w' !! "/srv/edi/failed/bad.edi" = Some (File (bytes_of "hello"))
    ∧ fs w' !! "/srv/edi/failed/bad.edi.meta.json"
      = Some (File (sample_json
                      [("file", PStr "bad.edi"); ("attempts", PInt 0); ("sent_at", PNone);
                       ("ack", PNone);
                       ("error", PStr "validation_failed:missing_UNA_or_UNB")])).
Proof.
  destruct (process_ready_file_invalid sample_decode sample_int Z Z.sub Z.gtb acking_peer
              sample_utcnow "/srv/edi" sample_json "localhost" 2575 10%Z false None 3
              true "bad.edi" (bytes_of "hello") unsendable)
    as [(_ & _ & Hlog) Hfs]; [by vm_compute..|].
  destruct Hfs as (Hgone & Hdoc & Hrec); [by split; vm_compute|by vm_compute..|].
  eexists. split; [by vm_compute|].
  split_and!; [exact Hlog|exact Hgone|exact Hdoc|exact Hrec].
Defined.

Lemma process_ready_file_archives_witness :
  ∃ w',
    process_ready_file sample_decode sample_int Z Z.sub Z.gtb acking_peer sample_utcnow
      "/srv/edi" sample_json "localhost" 2575 10%Z false None 3 true "a.edi" one_file
    = (Ret tt, w')
    ∧ fs w' !! "/srv/edi/ready/a.edi" = None
    ∧ fs w' !! "/srv/edi/sent/a.edi" = Some (File sample_doc)
    ∧ fs w' !! "/srv/edi/archive/a.edi" = Some (File sample_doc).
Proof.
  destruct (process_ready_file_archives sample_decode sample_int Z Z.sub Z.gtb acking_peer
              sample_utcnow "/srv/edi" sample_json "localhost" 2575 10%Z false None 3
              "a.edi" sample_doc
              [("attempts", PInt 1); ("sent_at", PStr "2024-05-01T10:00:00");
               ("ack", PStr "ACK"); ("error", PNone)]
              one_file
              (send_one_file sample_decode Z Z.sub Z.gtb acking_peer sample_utcnow
                 "/srv/edi/ready/a.edi" "localhost" 2575 10%Z false None 3 one_file).2)
    as (w' & Hrun & Hgone & _ & Hsent & _ & Harch & _);
    [by split; vm_compute|by vm_compute..|].
  exists w'. by split_and!.
Defined.

(** A generated document whose name is that of a directory in Ready. *)
Definition shadowed : world :=
  World (<[ "/srv/edi/ready/a.edi" := Dir ]>
           {[ "/srv/edi/generated/a.edi" := File sample_doc ]}) 0 0 [].

Lemma move_to_ready_into_directory_witness :
  ∃ w',
    move_to_ready sample_utcnow "/srv/edi" sample_json "/srv/edi/generated/a.edi" true
      shadowed
    = (Ret ("/srv/edi/ready/a.edi", "/srv/edi/ready/a.edi.meta.json"), w')
    ∧ fs w' !! "/srv/edi/ready/a.edi" = Some Dir
    ∧ fs w' !! "/srv/edi/ready/a.edi/a.edi" = Some (File sample_doc).
Proof.
  destruct (move_to_ready_into_directory sample_utcnow "/srv/edi" sample_json shadowed
              "/srv/edi/generated/a.edi" sample_doc)
    as (w' & Hrun & Hdir & Hin & _); [by vm_compute..|].
  by exists w'.
Defined.

(** ** Runs of the commands, and what a run of the queue leaves alone *)

Lemma cli_queue_outcomes_witness :
  cli_queue sample_utcnow "/srv/edi" sample_json "/srv/edi/generated/a.edi" false
    regenerated
  = (Ret ["Destination exists, use --force to overwrite: /srv/edi/ready/a.edi"],
     regenerated).
Proof.
  apply (proj1 (proj2 (cli_queue_outcomes sample_utcnow "/srv/edi" sample_json
                         "/srv/edi/generated/a.edi" regenerated))).
  - by vm_compute; eauto.
  - by vm_compute; eauto.
Defined.

Lemma cli_send_one_rejects_witness :
  cli_send_one sample_decode sample_int Z Z.sub Z.gtb acking_peer sample_utcnow
    "/srv/edi" sample_json "/srv/edi/ready/bad.edi" "localhost" 2575 10%Z 3 false None
    unsendable
  = (Ret ["Validation failed: missing_UNA_or_UNB"], unsendable).
Proof.
  apply (proj2 (cli_send_one_rejects sample_decode sample_int Z Z.sub Z.gtb acking_peer
                  sample_utcnow "/srv/edi" sample_json "/srv/edi/ready/bad.edi"
                  "localhost" 2575 10%Z 3 false None unsendable) (bytes_of "hello"));
    by vm_compute.
Defined.

Lemma process_ready_queue_frame_witness :
  fs (sample_queue acking_peer regenerated).2
    !! os_path_join (GEN_DIR "/srv/edi") "a.edi" = Some (File miscounted_doc).
Proof.
  unfold sample_queue.
  rewrite (proj1 (proj2 (process_ready_queue_frame sample_decode sample_int Z Z.sub Z.gtb
                           acking_peer sample_utcnow "/srv/edi" sample_json "localhost"
                           2575 10%Z false None 3 true regenerated)) "a.edi")
    by by vm_compute.
  by vm_compute.
Defined.
